(** * Upload sessions of the Hexo blog backend (lib/uploadSessions.js)

    A shallow embedding of the note-import session orchestrator: slug and
    permalink derivation, the two link scanners, the published-post cache,
    the dependency tracker, the status summary and the commit engine,
    followed by the properties of the specification.

    Conventions of the embedding.
    - JavaScript strings are [string]s (sequences of code units below 256).
    - Objects used as dictionaries ([session.notes], [session.archives],
      [session.pendingNotes], the cache, [folderMap]) are [gmap string _];
      arrays ([referencedBy], the link lists) are lists.  A lookup
      [m !! key] is [obj[key]] for every key that is no member name of
      [Object.prototype] ([inherited_names]); under those names a plain
      object answers with what it inherits, and the properties that
      depend on a lookup are stated for the other keys.
    - Paths are kept apart by their text.  [path_join] is [path.join] on
      plain segments ([plain_segment]), where nothing is normalised; the
      properties on files and on sessions other than the one named are
      stated for such names.  The file [session.json] of a session is its
      entry of [sessions]: [saveSession] alone writes it, and
      [loadSession] reads it under the identifier as it is given.
    - The values [fm.parse] gives under [title], [date] and [slug] are
      taken to be strings.  [World.now] is the time the clock shows
      whenever it is read: no operation advances it, and a repeated upload
      is compared for documents that carry their date.
    - Asynchronous functions become computations of the monad [M]: a world
      (persisted sessions, files, posts directory, random draws) is threaded
      through, and an exception aborts the computation while keeping the
      writes made so far.
    - Storage never runs out and never refuses access: creating a directory
      or writing a file succeeds, reading or copying a missing file raises
      ENOENT.
    - Third-party functions (hexo-util, hexo-front-matter, crypto, Date,
      Buffer) are fields of an environment [Env]. *)

From Stdlib Require Import Ascii String.
From stdpp Require Import base strings list gmap fin_maps.

(** ** JavaScript string primitives *)

Module Str.

Fixpoint take (n : nat) (s : string) : string :=
  match n, s with
  | S n', String c r => String c (take n' r)
  | _, _ => ""
  end.

Fixpoint drop (n : nat) (s : string) : string :=
  match n, s with
  | S n', String _ r => drop n' r
  | _, _ => s
  end.

(** [s.slice(a, b)] for [0 <= a <= b]. *)
Definition slice (a b : nat) (s : string) : string := take (b - a) (drop a s).

(** [s.slice(a)]. *)
Definition slice_from (a : nat) (s : string) : string := drop a s.

(** Truthiness of a string value: only the empty string is falsy. *)
Definition truthy (s : string) : bool :=
  match s with "" => false | _ => true end.

(** Truthiness of a value that is a string, [null] or [undefined]. *)
Definition truthy_opt (o : option string) : bool :=
  match o with Some s => truthy s | None => false end.

(** White space of [String.prototype.trim] and of the class [\s]. *)
Definition is_space (c : ascii) : bool :=
  match c with
  | "009" | "010" | "011" | "012" | "013" | " " | "160" => true
  | _ => false
  end%char.

Fixpoint trim_start (s : string) : string :=
  match s with
  | String c r => if is_space c then trim_start r else s
  | "" => ""
  end.

Definition trim_end (s : string) : string :=
  String.rev (trim_start (String.rev s)).

Definition trim (s : string) : string := trim_end (trim_start s).

(** Longest prefix whose characters satisfy [p], and the rest: what a
    greedy [[...]+] consumes. *)
Fixpoint span (p : ascii → bool) (s : string) : string * string :=
  match s with
  | String c r =>
      if p c then let '(a, b) := span p r in (String c a, b) else ("", s)
  | "" => ("", "")
  end.

(** [s.endsWith(t)] and [s.startsWith(t)]. *)
Definition starts_with (t s : string) : bool := String.prefix t s.
Definition ends_with (t s : string) : bool :=
  String.prefix (String.rev t) (String.rev s).

(** [s.split(c)] for a one-character separator. *)
Fixpoint split_go (c : ascii) (cur : string) (s : string) : list string :=
  match s with
  | "" => [String.rev cur]
  | String a r =>
      if Ascii.eqb a c then String.rev cur :: split_go c "" r
      else split_go c (String a cur) r
  end.
Definition split (c : ascii) (s : string) : list string := split_go c "" s.

(** [l.join(sep)]. *)
Fixpoint join (sep : string) (l : list string) : string :=
  match l with
  | [] => ""
  | [x] => x
  | x :: r => x +:+ sep +:+ join sep r
  end.

End Str.

(** ** Slug/Permalink deriver: folder names and permalinks *)

Definition folderFromDateSlug (dateISO slug : string) : string :=
  Str.slice 0 10 dateISO +:+ "-" +:+ slug.

Definition permalinkFromDateSlug (dateISO slug : string) : string :=
  let y := Str.slice 0 4 dateISO in
  let m := Str.slice 5 7 dateISO in
  let d := Str.slice 8 10 dateISO in
  "/" +:+ y +:+ "/" +:+ m +:+ "/" +:+ d +:+ "/" +:+ slug +:+ "/".

Definition permalinkFromFolder (folder : string) : string :=
  let date := Str.slice 0 10 folder in
  let slug := Str.slice_from 11 folder in
  if negb (Str.truthy date) || negb (Str.truthy slug)
  then "/posts/" +:+ folder +:+ "/"
  else
    let y := Str.slice 0 4 date in
    let m := Str.slice 5 7 date in
    let d := Str.slice 8 10 date in
    "/" +:+ y +:+ "/" +:+ m +:+ "/" +:+ d +:+ "/" +:+ slug +:+ "/".

(** ** Data model *)

(** A tag value as front matter can carry it: absent, one string, or an
    array of strings. *)
Inductive TagsValue :=
| TagsAbsent
| TagsOne (tag : string)
| TagsMany (tags : list string).

(** Result of [fm.parse]: the keys the module reads, and the remaining
    keys as an opaque dictionary. *)
Module FrontMatter.
Record t := {
  title : option string;
  date : option string;
  slug : option string;
  tags : TagsValue;
  _content : option string;
  extra : gmap string string
}.
End FrontMatter.

(** [meta] of a note once [parseMarkdown] and [normalizeTags] have run. *)
Module Meta.
Record t := {
  title : string;
  date : string;
  slug : string;
  tags : TagsValue;
  extra : gmap string string
}.
Definition set_tags (v : TagsValue) (m : t) : t :=
  {| title := title m; date := date m; slug := slug m; tags := v;
     extra := extra m |}.
Definition set_slug_date (s d : string) (m : t) : t :=
  {| title := title m; date := d; slug := s; tags := tags m;
     extra := extra m |}.
End Meta.

Module WikiLink.
Record t := { targetTitle : string; alias : string; targetSlug : string }.
End WikiLink.

Module ExternalLink.
Record t := { text : string; url : string }.
End ExternalLink.

Module NoteDep.
Record t := { alias : string; targetTitle : string }.
End NoteDep.

Module Deps.
Record t := {
  notes : gmap string NoteDep.t;
  archives : gmap string string
}.
Definition empty : t := {| notes := ∅; archives := ∅ |}.
Definition set_note (k : string) (d : NoteDep.t) (x : t) : t :=
  {| notes := <[k := d]> (notes x); archives := archives x |}.
Definition set_archive (k text : string) (x : t) : t :=
  {| notes := notes x; archives := <[k := text]> (archives x) |}.
End Deps.

Module Note.
Record t := {
  slug : string;
  title : string;
  date : string;
  meta : Meta.t;
  body : string;
  file : string;
  isMain : bool;
  dependencies : Deps.t
}.
Definition map_dependencies (f : Deps.t → Deps.t) (n : t) : t :=
  {| slug := slug n; title := title n; date := date n; meta := meta n;
     body := body n; file := file n; isMain := isMain n;
     dependencies := f (dependencies n) |}.
End Note.

Module Archive.
Record t := {
  id : string;
  url : string;
  resolved : bool;
  filename : option string;
  filePath : option string;
  referencedBy : list string
}.
Definition push_referencedBy (s : string) (a : t) : t :=
  {| id := id a; url := url a; resolved := resolved a;
     filename := filename a; filePath := filePath a;
     referencedBy := referencedBy a ++ [s] |}.
Definition resolve (name path : string) (a : t) : t :=
  {| id := id a; url := url a; resolved := true;
     filename := Some name; filePath := Some path;
     referencedBy := referencedBy a |}.
End Archive.

Module Pending.
Record t := { targetTitle : string; referencedBy : list string }.
Definition push_referencedBy (s : string) (p : t) : t :=
  {| targetTitle := targetTitle p; referencedBy := referencedBy p ++ [s] |}.
End Pending.

Module Session.
Record t := {
  id : string;
  createdAt : string;
  notes : gmap string Note.t;
  archives : gmap string Archive.t;
  pendingNotes : gmap string Pending.t;
  mainSlug : option string
}.
Definition set_notes (v : gmap string Note.t) (s : t) : t :=
  {| id := id s; createdAt := createdAt s; notes := v;
     archives := archives s; pendingNotes := pendingNotes s;
     mainSlug := mainSlug s |}.
Definition set_archives (v : gmap string Archive.t) (s : t) : t :=
  {| id := id s; createdAt := createdAt s; notes := notes s;
     archives := v; pendingNotes := pendingNotes s;
     mainSlug := mainSlug s |}.
Definition set_pendingNotes (v : gmap string Pending.t) (s : t) : t :=
  {| id := id s; createdAt := createdAt s; notes := notes s;
     archives := archives s; pendingNotes := v;
     mainSlug := mainSlug s |}.
Definition set_mainSlug (v : option string) (s : t) : t :=
  {| id := id s; createdAt := createdAt s; notes := notes s;
     archives := archives s; pendingNotes := pendingNotes s;
     mainSlug := v |}.
End Session.

(** The Status Summary returned to the client. *)
Module Summary.
Record missingNote := { mn_slug : string; mn_alias : string }.
Record missingArchive := { ma_id : string; ma_text : string }.
Record note := {
  slug : string;
  title : string;
  isMain : bool;
  missingNotes : list missingNote;
  missingArchives : list missingArchive
}.
Record pendingNote := {
  pn_slug : string;
  pn_targetTitle : string;
  pn_referencedBy : list string
}.
Record pendingArchive := {
  pa_id : string;
  pa_url : string;
  pa_referencedBy : list string
}.
Record t := {
  sessionId : string;
  mainSlug : option string;
  notes : list note;
  pendingNotes : list pendingNote;
  pendingArchives : list pendingArchive;
  ready : bool
}.
End Summary.

(** ** Environment, world and the monad of the asynchronous functions *)

(** What the module takes from outside: third-party functions, the project
    root, and the binding its scope gives to the free identifier
    [normalizeTags].  uploadSessions.js calls [normalizeTags] (in [addNote]
    and in [commitSession]) but neither defines nor imports it: it imports
    [DEFAULT_TAG] only, and the function of that name in server.js is a
    [const] local to that module.  [scope_normalizeTags] is what the name
    resolves to when the call is evaluated, [None] when it is unbound. *)
Record Env := {
  slugize : string → string;
  md5_hex : string → string;
  random_hex : nat → string;
  fm_parse : string → FrontMatter.t;
  fm_stringify : Meta.t → string → string;
  date_iso : string → option string;
  base64_decode : string → string;
  encodeURI : string → string;
  projectRoot : string;
  scope_normalizeTags : option (TagsValue → list string)
}.

Record World := {
  sessions : gmap string Session.t;
  files : gmap string string;
  posts : list string;
  draws : nat;
  now : string
}.

Definition set_sessions (v : gmap string Session.t) (w : World) : World :=
  {| sessions := v; files := files w; posts := posts w; draws := draws w;
     now := now w |}.
Definition set_files (v : gmap string string) (w : World) : World :=
  {| sessions := sessions w; files := v; posts := posts w; draws := draws w;
     now := now w |}.
Definition set_posts (v : list string) (w : World) : World :=
  {| sessions := sessions w; files := files w; posts := v; draws := draws w;
     now := now w |}.
Definition set_draws (v : nat) (w : World) : World :=
  {| sessions := sessions w; files := files w; posts := posts w; draws := v;
     now := now w |}.

Inductive Exn :=
| Error (message : string)
| ReferenceError (name : string)
| TypeError (message : string)
| SystemError (code : string).

Inductive Result (A : Type) :=
| Ok (a : A)
| Throw (e : Exn).
Arguments Ok {A} a.
Arguments Throw {A} e.

Definition M (A : Type) : Type := World → Result A * World.

Definition ret {A} (a : A) : M A := λ w, (Ok a, w).
Definition throw {A} (e : Exn) : M A := λ w, (Throw e, w).
Definition bind {A B} (m : M A) (k : A → M B) : M B :=
  λ w, match m w with
       | (Ok a, w') => k a w'
       | (Throw e, w') => (Throw e, w')
       end.
Definition get_world : M World := λ w, (Ok w, w).
Definition modify_world (f : World → World) : M unit := λ w, (Ok tt, f w).

Notation "'let*' x ':=' m 'in' k" := (bind m (λ x, k))
  (at level 10, x pattern, m at level 100, k at level 200, only parsing).
Notation "'do' m 'then' k" := (bind m (λ _, k))
  (at level 10, m at level 100, k at level 200, only parsing).

(** Iteration of an effectful loop body over a list, left to right. *)
Fixpoint for_each {A} (l : list A) (body : A → M unit) : M unit :=
  match l with
  | [] => ret tt
  | x :: r => do body x then for_each r body
  end.

(** ** Link scanners: one attempt of each pattern at the head of a string *)

Definition strip_prefix (p s : string) : option string :=
  if String.prefix p s then Some (Str.drop (String.length p) s) else None.

Definition is_wiki_target_char (c : ascii) : bool :=
  negb (Ascii.eqb c "]") && negb (Ascii.eqb c "|").
Definition is_not_rbracket (c : ascii) : bool := negb (Ascii.eqb c "]").
Definition is_url_char (c : ascii) : bool :=
  negb (Ascii.eqb c ")") && negb (Str.is_space c).

(** [/\[\[([^\]|]+)(?:\|([^\]]+))?\]\]/] anchored at the head of [s]:
    group 1, group 2 when it took part, and what follows the match.  Both
    groups are greedy runs that stop at the first excluded character, so
    a shorter run never lets the rest of the pattern match. *)
Definition match_wiki (s : string) : option (string * option string * string) :=
  match strip_prefix "[[" s with
  | None => None
  | Some r =>
      let '(g1, r1) := Str.span is_wiki_target_char r in
      if negb (Str.truthy g1) then None
      else match strip_prefix "]]" r1 with
           | Some rest => Some (g1, None, rest)
           | None =>
               match strip_prefix "|" r1 with
               | None => None
               | Some r2 =>
                   let '(g2, r3) := Str.span is_not_rbracket r2 in
                   if negb (Str.truthy g2) then None
                   else match strip_prefix "]]" r3 with
                        | Some rest => Some (g1, Some g2, rest)
                        | None => None
                        end
               end
           end
  end.

(** [/\[([^\]]+)\]\((https?:\/\/[^)\s]+)\)/] anchored at the head of [s]:
    the link text, the URL, and what follows the match. *)
Definition match_external (s : string) : option (string * string * string) :=
  match strip_prefix "[" s with
  | None => None
  | Some r =>
      let '(g1, r1) := Str.span is_not_rbracket r in
      if negb (Str.truthy g1) then None
      else match strip_prefix "](http" r1 with
           | None => None
           | Some r2 =>
               let '(scheme, r3) :=
                 match strip_prefix "s" r2 with
                 | Some r3 => ("https://", r3)
                 | None => ("http://", r2)
                 end in
               match strip_prefix "://" r3 with
               | None => None
               | Some r4 =>
                   let '(g, r5) := Str.span is_url_char r4 in
                   if negb (Str.truthy g) then None
                   else match strip_prefix ")" r5 with
                        | Some rest => Some (g1, scheme +:+ g, rest)
                        | None => None
                        end
               end
           end
  end.

(** The [while ((match = regex.exec(body)))] loop of a global pattern: the
    leftmost match from the current position, then on from its end.  A
    match is never empty, so [String.length body] rounds are enough. *)
Fixpoint scan {A} (attempt : string → option (A * string)) (fuel : nat)
    (s : string) : list A :=
  match fuel with
  | 0 => []
  | S fuel' =>
      match s with
      | "" => []
      | String _ r =>
          match attempt s with
          | Some (a, rest) => a :: scan attempt fuel' rest
          | None => scan attempt fuel' r
          end
      end
  end.

Definition extractExternalLinks (body : string) : list ExternalLink.t :=
  scan (λ s, match match_external s with
             | Some (text, url, rest) =>
                 Some ({| ExternalLink.text := text; ExternalLink.url := url |}, rest)
             | None => None
             end)
       (String.length body) body.

(** [filename.replace(/\.[^.]+$/, '')]: drops the last dot and what
    follows it, unless the dot ends the name. *)
Fixpoint has_dot (s : string) : bool :=
  match s with
  | "" => false
  | String c r => Ascii.eqb c "." || has_dot r
  end.

Fixpoint baseName (filename : string) : string :=
  match filename with
  | "" => ""
  | String c r =>
      if Ascii.eqb c "." && Str.truthy r && negb (has_dot r) then ""
      else String c (baseName r)
  end.

(** [cache[slug] || null]. *)
Definition findExistingFolder (cache : gmap string string) (slug : string)
    : option string :=
  match cache !! slug with
  | Some folder => if Str.truthy folder then Some folder else None
  | None => None
  end.

(** The slug [buildExistingCache] files a folder under. *)
Definition cacheSlug (folder : string) (parts : list string) : string :=
  let s3 := Str.join "-" (drop 3 parts) in
  if Str.truthy s3 then s3 else
  let s2 := Str.join "-" (drop 2 parts) in
  if Str.truthy s2 then s2 else
  let s1 := Str.join "-" (drop 1 parts) in
  if Str.truthy s1 then s1 else folder.

Definition cacheOfFolders (folders : list string) : gmap string string :=
  foldl (λ cache folder,
           let parts := Str.split "-" folder in
           if length parts <? 2 then cache
           else <[cacheSlug folder parts := folder]> cache)
        ∅ folders.

(** ** Dependency tracker *)

Definition ensureNoteDependency (session : Session.t)
    (existingCache : gmap string string) (sourceSlug : string)
    (depInfo : WikiLink.t) : Session.t :=
  let target := WikiLink.targetSlug depInfo in
  match Session.notes session !! target with
  | Some _ => session
  | None =>
      match findExistingFolder existingCache target with
      | Some _ => session
      | None =>
          let info :=
            match Session.pendingNotes session !! target with
            | Some info => info
            | None => {| Pending.targetTitle := WikiLink.targetTitle depInfo;
                         Pending.referencedBy := [] |}
            end in
          let info' :=
            if bool_decide (sourceSlug ∈ Pending.referencedBy info) then info
            else Pending.push_referencedBy sourceSlug info in
          Session.set_pendingNotes
            (<[target := info']> (Session.pendingNotes session)) session
      end
  end.

(** [note] is the object stored at [session.notes[key]]: what the function
    writes to [note.dependencies] is written to the session. *)
Definition recordNoteDep (key : string) (dep : WikiLink.t)
    (session : Session.t) : Session.t :=
  Session.set_notes
    (alter (Note.map_dependencies
              (Deps.set_note (WikiLink.targetSlug dep)
                 {| NoteDep.alias := WikiLink.alias dep;
                    NoteDep.targetTitle := WikiLink.targetTitle dep |}))
           key (Session.notes session))
    session.

Definition recordArchiveDep (key archiveId text : string)
    (session : Session.t) : Session.t :=
  Session.set_notes
    (alter (Note.map_dependencies (Deps.set_archive archiveId text))
           key (Session.notes session))
    session.

Definition registerArchive (archiveId url noteSlug : string)
    (session : Session.t) : Session.t :=
  let archive :=
    match Session.archives session !! archiveId with
    | Some a => a
    | None => {| Archive.id := archiveId; Archive.url := url;
                 Archive.resolved := false; Archive.filename := None;
                 Archive.filePath := None; Archive.referencedBy := [] |}
    end in
  let archive' :=
    if bool_decide (noteSlug ∈ Archive.referencedBy archive) then archive
    else Archive.push_referencedBy noteSlug archive in
  Session.set_archives (<[archiveId := archive']> (Session.archives session))
    session.

Section Core.
Context (E : Env).

Definition path_join (a b : string) : string := a +:+ "/" +:+ b.

Definition postsRoot : string := path_join (projectRoot E) "posts".
Definition sessionsRoot : string :=
  path_join (path_join (projectRoot E) "uploads") "sessions".

Definition randomId : M string :=
  λ w, (Ok (random_hex E (draws w)), set_draws (S (draws w)) w).

Definition archiveIdFromUrl (url : string) : string :=
  Str.slice 0 10 (md5_hex E url).

(** A [Date] is kept as its ISO string. *)
Definition normalizeDate (value : option string) : M string :=
  let* w := get_world in
  match value with
  | Some v =>
      if Str.truthy v
      then match date_iso E v with
           | Some d => ret d
           | None => ret (now w)
           end
      else ret (now w)
  | None => ret (now w)
  end.

Definition buildExistingCache : M (gmap string string) :=
  let* w := get_world in ret (cacheOfFolders (posts w)).

Definition slugFromTitle (title : string) : M string :=
  let s := slugize E title in
  if Str.truthy s then ret s
  else let* r := randomId in ret (slugize E r).

Definition parseMarkdown (raw filename : string) : M (Meta.t * string) :=
  let data := fm_parse E raw in
  let body := default "" (FrontMatter._content data) in
  let title :=
    match FrontMatter.title data with
    | Some t => if Str.truthy t then t else baseName filename
    | None => baseName filename
    end in
  let* date := normalizeDate (FrontMatter.date data) in
  let* slug :=
    match FrontMatter.slug data with
    | Some s => if Str.truthy s then ret s else slugFromTitle title
    | None => slugFromTitle title
    end in
  ret ({| Meta.title := title; Meta.date := date; Meta.slug := slug;
          Meta.tags := FrontMatter.tags data;
          Meta.extra := FrontMatter.extra data |}, body).

(** The loop of [extractWikiLinks]; [slugFromTitle] may draw a random
    identifier at each match. *)
Fixpoint extractWikiLinks_from (fuel : nat) (s : string)
    : M (list WikiLink.t) :=
  match fuel with
  | 0 => ret []
  | S fuel' =>
      match s with
      | "" => ret []
      | String _ r =>
          match match_wiki s with
          | Some (g1, g2, rest) =>
              let targetTitle := Str.trim g1 in
              let alias := Str.trim (default g1 g2) in
              let* targetSlug := slugFromTitle targetTitle in
              let* results := extractWikiLinks_from fuel' rest in
              ret ({| WikiLink.targetTitle := targetTitle;
                      WikiLink.alias := alias;
                      WikiLink.targetSlug := targetSlug |} :: results)
          | None => extractWikiLinks_from fuel' r
          end
      end
  end.

Definition extractWikiLinks (body : string) : M (list WikiLink.t) :=
  extractWikiLinks_from (String.length body) body.

Definition sessionPath (id : string) : string := path_join sessionsRoot id.
Definition sessionFile (id : string) : string :=
  path_join (sessionPath id) "session.json".

Definition defaultSession (id createdAt : string) : Session.t :=
  {| Session.id := id; Session.createdAt := createdAt;
     Session.notes := ∅; Session.archives := ∅;
     Session.pendingNotes := ∅; Session.mainSlug := None |}.

(** [session.json] of session [id] is the entry [id] of [sessions]. *)
Definition loadSession (id : string) : M Session.t :=
  let* w := get_world in
  match sessions w !! id with
  | Some session => ret session
  | None => throw (Error "Session not found")
  end.

Definition saveSession (session : Session.t) : M unit :=
  modify_world (λ w, set_sessions
                       (<[Session.id session := session]> (sessions w)) w).

Definition writeFile (path data : string) : M unit :=
  modify_world (λ w, set_files (<[path := data]> (files w)) w).

Definition copyFile (src : option string) (dest : string) : M unit :=
  match src with
  | None => throw (TypeError "The src argument must be a string")
  | Some p =>
      let* w := get_world in
      match files w !! p with
      | Some data => writeFile dest data
      | None => throw (SystemError "ENOENT")
      end
  end.

Definition createSession : M string :=
  let* id := randomId in
  let* w := get_world in
  do saveSession (defaultSession id (now w)) then
  ret id.

Definition notePath (sessionId slug : string) : string :=
  path_join (path_join (sessionPath sessionId) "notes") (slug +:+ ".md").

Definition archivePath (sessionId archiveId filename : string) : string :=
  path_join (path_join (sessionPath sessionId) "archives")
            (archiveId +:+ "-" +:+ filename).

Definition updateNoteDependencies (session : Session.t) (key : string)
    (wikiLinks : list WikiLink.t) (externalLinks : list ExternalLink.t)
    (existingCache : gmap string string) : Session.t :=
  let noteSlug :=
    match Session.notes session !! key with
    | Some note => Note.slug note
    | None => key
    end in
  let session1 :=
    foldl (λ session dep,
             ensureNoteDependency (recordNoteDep key dep session)
               existingCache noteSlug dep)
          session wikiLinks in
  foldl (λ session link,
           let archiveId := archiveIdFromUrl (ExternalLink.url link) in
           recordArchiveDep key archiveId (ExternalLink.text link)
             (registerArchive archiveId (ExternalLink.url link) noteSlug
                session))
        session1 externalLinks.

(** Call of the free identifier [normalizeTags]. *)
Definition normalizeTags (tags : TagsValue) : M (list string) :=
  match scope_normalizeTags E with
  | Some f => ret (f tags)
  | None => throw (ReferenceError "normalizeTags")
  end.
End Core.

(** ** Status summarizer, session operations and commit engine *)

Module AddNote.
Record t := {
  sessionId : string;
  filename : string;
  content : string;
  isMain : bool
}.
End AddNote.

Module AddArchive.
Record t := {
  sessionId : string;
  sourceUrl : string;
  filename : string;
  data : string
}.
End AddArchive.

Module Commit.
Record t := { success : bool; folders : list string }.
End Commit.

(** [data.replace(/^data:[^,]+,/, '')]. *)
Definition stripDataUri (data : string) : string :=
  match strip_prefix "data:" data with
  | None => data
  | Some r =>
      let '(g, r1) := Str.span (λ c, negb (Ascii.eqb c ",")) r in
      if negb (Str.truthy g) then data
      else match strip_prefix "," r1 with
           | Some rest => rest
           | None => data
           end
  end.

(** [path.basename]: what follows the last slash. *)
Definition basename (path : string) : string :=
  default "" (last (Str.split "/" path)).

(** [body.replace(pattern, callback)] for a global pattern: the text
    outside the matches is kept, each match gives way to what the callback
    returns for it. *)
Fixpoint replaceAll (attempt : string → option (M string * string))
    (fuel : nat) (s : string) : M string :=
  match fuel with
  | 0 => ret s
  | S fuel' =>
      match s with
      | "" => ret ""
      | String c r =>
          match attempt s with
          | Some (callback, rest) =>
              let* replacement := callback in
              let* tail := replaceAll attempt fuel' rest in
              ret (replacement +:+ tail)
          | None =>
              let* tail := replaceAll attempt fuel' r in
              ret (String c tail)
          end
      end
  end.

Definition pendingArchivesOf (session : Session.t) : list Archive.t :=
  filter (λ a, negb (Archive.resolved a))
         (snd <$> map_to_list (Session.archives session)).

(** [!session.notes[dep] && !findExistingFolder(existingCache, dep)]. *)
Definition noteMissing (session : Session.t)
    (existingCache : gmap string string) (dep : string) : bool :=
  match Session.notes session !! dep with
  | Some _ => false
  | None =>
      match findExistingFolder existingCache dep with
      | Some _ => false
      | None => true
      end
  end.

(** [!session.archives[id] || !session.archives[id].resolved]. *)
Definition archiveMissing (session : Session.t) (id : string) : bool :=
  match Session.archives session !! id with
  | Some a => negb (Archive.resolved a)
  | None => true
  end.

Section Operations.
Context (E : Env).

Definition summarizeNote (session : Session.t)
    (existingCache : gmap string string) (note : Note.t) : Summary.note :=
  let deps := Note.dependencies note in
  {| Summary.slug := Note.slug note;
     Summary.title := Note.title note;
     Summary.isMain := Note.isMain note;
     Summary.missingNotes :=
       (λ '(dep, info), {| Summary.mn_slug := dep;
                           Summary.mn_alias := NoteDep.alias info |})
         <$> filter (λ kv, noteMissing session existingCache kv.1)
                    (map_to_list (Deps.notes deps));
     Summary.missingArchives :=
       (λ '(id, text), {| Summary.ma_id := id; Summary.ma_text := text |})
         <$> filter (λ kv, archiveMissing session kv.1)
                    (map_to_list (Deps.archives deps)) |}.

Definition summarizeSession (session : Session.t) : M Summary.t :=
  let* existingCache := buildExistingCache in
  let pendingNotes : list Summary.pendingNote :=
    (λ '(slug, info),
       {| Summary.pn_slug := slug;
          Summary.pn_targetTitle := Pending.targetTitle info;
          Summary.pn_referencedBy := Pending.referencedBy info |})
      <$> map_to_list (Session.pendingNotes session) in
  let pendingArchives :=
    (λ a, {| Summary.pa_id := Archive.id a; Summary.pa_url := Archive.url a;
             Summary.pa_referencedBy := Archive.referencedBy a |})
      <$> pendingArchivesOf session in
  let noteSummaries :=
    summarizeNote session existingCache
      <$> (snd <$> map_to_list (Session.notes session)) in
  let ready :=
    (length pendingNotes =? 0) && (length pendingArchives =? 0) in
  ret {| Summary.sessionId := Session.id session;
         Summary.mainSlug := Session.mainSlug session;
         Summary.notes := noteSummaries;
         Summary.pendingNotes := pendingNotes;
         Summary.pendingArchives := pendingArchives;
         Summary.ready := ready |}.

Definition getSession (id : string) : M Summary.t :=
  let* session := loadSession id in summarizeSession session.

(** The in-memory update of the loaded session in [addNote]: the note
    is registered under its slug, [mainSlug] is set when [isMain], the
    pending entry of the slug is deleted, the dependency tracker runs. *)
Definition registerNote (session : Session.t) (slug : string)
    (meta : Meta.t) (body fileTarget : string) (isMain : bool)
    (wikiLinks : list WikiLink.t) (externalLinks : list ExternalLink.t)
    (existingCache : gmap string string) : Session.t :=
  let session :=
    Session.set_notes
      (<[slug := {| Note.slug := slug; Note.title := Meta.title meta;
                    Note.date := Meta.date meta; Note.meta := meta;
                    Note.body := body; Note.file := fileTarget;
                    Note.isMain := isMain;
                    Note.dependencies := Deps.empty |}]>
         (Session.notes session))
      session in
  let session :=
    if isMain then Session.set_mainSlug (Some slug) session else session in
  let session :=
    Session.set_pendingNotes (delete slug (Session.pendingNotes session))
      session in
  updateNoteDependencies E session slug wikiLinks externalLinks
    existingCache.

Definition addNote (req : AddNote.t) : M Summary.t :=
  let sessionId := AddNote.sessionId req in
  let filename := AddNote.filename req in
  let content := AddNote.content req in
  let isMain := AddNote.isMain req in
  if negb (Str.truthy filename) || negb (Str.truthy content)
  then throw (Error "Filename and content required")
  else
    let* session := loadSession sessionId in
    let* existingCache := buildExistingCache in
    let* (meta, body) := parseMarkdown E content filename in
    let slug := Meta.slug meta in
    let fileTarget := notePath E sessionId slug in
    do writeFile fileTarget content then
    let* wikiLinks := extractWikiLinks E body in
    let externalLinks := extractExternalLinks body in
    let* tags := normalizeTags E (Meta.tags meta) in
    let meta := Meta.set_tags (TagsMany tags) meta in
    let session :=
      registerNote session slug meta body fileTarget isMain wikiLinks
        externalLinks existingCache in
    do saveSession session then
    summarizeSession session.

Definition addArchive (req : AddArchive.t) : M Summary.t :=
  let sessionId := AddArchive.sessionId req in
  let sourceUrl := AddArchive.sourceUrl req in
  let filename := AddArchive.filename req in
  let data := AddArchive.data req in
  if negb (Str.truthy sourceUrl) || negb (Str.truthy filename)
     || negb (Str.truthy data)
  then throw (Error "Archive upload requires url, filename and data")
  else
    let* session := loadSession sessionId in
    let archiveId := archiveIdFromUrl E sourceUrl in
    match Session.archives session !! archiveId with
    | None => throw (Error "Archive was not requested")
    | Some _ =>
        let buffer := base64_decode E (stripDataUri data) in
        let fileTarget := archivePath E sessionId archiveId filename in
        do writeFile fileTarget buffer then
        let session :=
          Session.set_archives
            (alter (Archive.resolve filename fileTarget) archiveId
                   (Session.archives session))
            session in
        do saveSession session then
        summarizeSession session
    end.

Definition assertReady (session : Session.t) : M unit :=
  if 0 <? size (Session.pendingNotes session)
  then throw (Error "Cannot commit: missing linked notes")
  else if 0 <? length (pendingArchivesOf session)
  then throw (Error "Cannot commit: missing archive uploads")
  else if negb (Str.truthy_opt (Session.mainSlug session))
  then throw (Error "No main note uploaded")
  else ret tt.

Definition resolveNoteUrl (session : Session.t) (targetSlug : string)
    (folderMap existingCache : gmap string string) : option string :=
  match Session.notes session !! targetSlug with
  | Some note => Some (permalinkFromDateSlug (Note.date note) targetSlug)
  | None =>
      match findExistingFolder existingCache targetSlug with
      | Some existing => Some (permalinkFromFolder existing)
      | None => None
      end
  end.

Definition convertWikiLinks (body : string) (session : Session.t)
    (currentSlug : string) (folderMap existingCache : gmap string string)
    : M string :=
  replaceAll
    (λ s, match match_wiki s with
          | Some (target, alias, rest) =>
              Some (let* targetSlug := slugFromTitle E (Str.trim target) in
                    let display := Str.trim (default target alias) in
                    match resolveNoteUrl session targetSlug folderMap
                            existingCache with
                    | Some url => ret ("[" +:+ display +:+ "](" +:+ url +:+ ")")
                    | None => ret display
                    end, rest)
          | None => None
          end)
    (String.length body) body.

Definition convertExternalLinks (body : string) (note : Note.t)
    (archiveMap : gmap string string) : M string :=
  replaceAll
    (λ s, match match_external s with
          | Some (text, url, rest) =>
              Some (let archiveId := archiveIdFromUrl E url in
                    match archiveMap !! archiveId with
                    | Some newUrl =>
                        if Str.truthy newUrl
                        then ret ("[" +:+ text +:+ "](" +:+ newUrl +:+ ")")
                        else ret ("[" +:+ text +:+ "](" +:+ url +:+ ")")
                    | None => ret ("[" +:+ text +:+ "](" +:+ url +:+ ")")
                    end, rest)
          | None => None
          end)
    (String.length body) body.

(** [ensureDir(path.join(postsRoot, folder))]. *)
Definition ensurePostDir (folder : string) : M unit :=
  modify_world (λ w, if bool_decide (folder ∈ posts w) then w
                     else set_posts (posts w ++ [folder]) w).

(** [fsp.rm(sessionPath(id), { recursive: true, force: true })]. *)
Definition removeSessionDir (sessionId : string) : M unit :=
  modify_world
    (λ w, set_files
            (filter (λ kv, negb (String.prefix
                                   (sessionPath E sessionId +:+ "/") kv.1))
                    (files w))
            (set_sessions (delete sessionId (sessions w)) w)).

(** The inner loop of [commitSession] over the archive dependencies of
    one note; [archiveLinks] is threaded through. *)
Fixpoint copyArchives (session : Session.t) (folder destDir : string)
    (ids : list string) (archiveLinks : gmap string string)
    : M (gmap string string) :=
  match ids with
  | [] => ret archiveLinks
  | archiveId :: ids' =>
      match Session.archives session !! archiveId with
      | None => throw (TypeError "Cannot read properties of undefined")
      | Some archive =>
          let archivesDir := path_join destDir "archives" in
          let safeName :=
            match Archive.filename archive with
            | Some f => if Str.truthy f then f else archiveId +:+ ".html"
            | None => archiveId +:+ ".html"
            end in
          let destFile :=
            path_join archivesDir (archiveId +:+ "-" +:+ safeName) in
          do copyFile (Archive.filePath archive) destFile then
          copyArchives session folder destDir ids'
            (<[archiveId := encodeURI E ("/posts/" +:+ folder +:+ "/archives/"
                                         +:+ basename destFile)]>
               archiveLinks)
      end
  end.

Definition commitNote (session : Session.t)
    (folderMap existingCache : gmap string string)
    (entry : string * Note.t) : M unit :=
  let '(slug, note) := entry in
  match folderMap !! slug with
  | None => throw (TypeError "The path argument must be of type string")
  | Some folder =>
      let destDir := path_join (postsRoot E) folder in
      do ensurePostDir folder then
      let* archiveLinks :=
        copyArchives session folder destDir
          (fst <$> map_to_list (Deps.archives (Note.dependencies note))) ∅ in
      let* body := convertWikiLinks (Note.body note) session slug folderMap
                     existingCache in
      let* body := convertExternalLinks body note archiveLinks in
      let meta :=
        Meta.set_slug_date (Note.slug note) (Note.date note) (Note.meta note) in
      let* tags := normalizeTags E (Meta.tags meta) in
      let meta := Meta.set_tags (TagsMany tags) meta in
      let content :=
        if Str.ends_with (String "010" "") body then body
        else body +:+ String "010" "" in
      let output := fm_stringify E meta content in
      writeFile (path_join destDir "index.md") output
  end.

Definition folderMapOf (session : Session.t) : gmap string string :=
  foldl (λ folderMap note,
           <[Note.slug note :=
               folderFromDateSlug (Note.date note) (Note.slug note)]>
             folderMap)
        ∅ (snd <$> map_to_list (Session.notes session)).

Definition commitSession (sessionId : string) : M Commit.t :=
  let* session := loadSession sessionId in
  do assertReady session then
  let* existingCache := buildExistingCache in
  let folderMap := folderMapOf session in
  do for_each (map_to_list (Session.notes session))
       (commitNote session folderMap existingCache) then
  do removeSessionDir sessionId then
  ret {| Commit.success := true;
         Commit.folders := snd <$> map_to_list folderMap |}.
End Operations.

(** ** Error kinds of the specification *)

Inductive ErrorKind := NotFound | ValidationError | PreconditionFailed | IOError.

(** The kind the specification (section 7) gives to what the module
    throws; [None] for an exception outside the four kinds. *)
Definition spec_errorKind (e : Exn) : option ErrorKind :=
  match e with
  | Error msg =>
      if bool_decide (msg = "Session not found") then Some NotFound
      else if bool_decide (msg = "Filename and content required")
              || bool_decide (msg = "Archive upload requires url, filename and data")
              || bool_decide (msg = "Archive was not requested")
      then Some ValidationError
      else if bool_decide (msg = "Cannot commit: missing linked notes")
              || bool_decide (msg = "Cannot commit: missing archive uploads")
              || bool_decide (msg = "No main note uploaded")
      then Some PreconditionFailed
      else None
  | SystemError _ => Some IOError
  | ReferenceError _ => None
  | TypeError _ => None
  end.

(** ** Readiness, in the words of the specification *)

(** Every reference is satisfied: no note is awaited and every archive of
    the registry is resolved. *)
Definition dependencies_satisfied (s : Session.t) : Prop :=
  Session.pendingNotes s = ∅
  ∧ ∀ k a, Session.archives s !! k = Some a → Archive.resolved a = true.

(** [mainSlug] holds an identifier ([null] and the empty string do not). *)
Definition mainSlug_set (s : Session.t) : Prop :=
  Str.truthy_opt (Session.mainSlug s) = true.

(** Invariant 4: commit-eligible. *)
Definition spec_ready (s : Session.t) : Prop :=
  dependencies_satisfied s ∧ mainSlug_set s.

(** ** Sequences of operations on a world *)

Inductive Op :=
| OpCreateSession
| OpAddNote (req : AddNote.t)
| OpAddArchive (req : AddArchive.t)
| OpGetSession (id : string).

(** The world an operation leaves behind, whether it returns or throws. *)
Definition exec (E : Env) (o : Op) (w : World) : World :=
  match o with
  | OpCreateSession => (createSession E w).2
  | OpAddNote req => (addNote E req w).2
  | OpAddArchive req => (addArchive E req w).2
  | OpGetSession id => (getSession id w).2
  end.

Definition run (E : Env) (ops : list Op) (w : World) : World :=
  foldl (λ w o, exec E o w) w ops.

(** Worlds the operations build from storage holding no session. *)
Definition reachable (E : Env) (w : World) : Prop :=
  ∃ w0 ops, sessions w0 = ∅ ∧ w = run E ops w0.

(** ** A concrete environment, to run the model on examples *)

Module Sample.

Definition is_control (c : ascii) : bool := nat_of_ascii c <? 32.

Definition is_special (c : ascii) : bool :=
  Str.is_space c ||
  match c with
  | "~" | "`" | "!" | "@" | "#" | "$" | "%" | "^" | "&" | "*" | "(" | ")"
  | "-" | "_" | "+" | "=" | "[" | "]" | "{" | "}" | "|" | "\" | ";" | ":"
  | "034" | "'" | "<" | ">" | "," | "." | "?" | "/" => true
  | _ => false
  end%char.

Definition lower (c : ascii) : ascii :=
  let n := nat_of_ascii c in
  if (65 <=? n) && (n <=? 90) then ascii_of_nat (n + 32) else c.

(** Separator runs become one dash; a leading run is dropped. *)
Fixpoint dashes (after_separator : bool) (s : string) : string :=
  match s with
  | "" => ""
  | String c r =>
      if is_control c then dashes after_separator r
      else if is_special c
           then if after_separator then dashes true r
                else String "-" (dashes true r)
           else String (lower c) (dashes false r)
  end.

Definition strip_trailing_dash (s : string) : string :=
  match String.rev s with
  | String "-" r => String.rev r
  | _ => s
  end.

(** hexo-util's [slugize(str, { transform: 1 })] on ASCII input: control
    characters removed, runs of separators replaced by one dash, dashes
    at both ends removed, lower case. *)
Definition ascii_slugize (s : string) : string :=
  strip_trailing_dash (dashes true s).

Definition hex_char (n : N) : ascii :=
  if (n <? 10)%N then ascii_of_N (48 + n) else ascii_of_N (87 + n).

Fixpoint hex_digits (k : nat) (n : N) : string :=
  match k with
  | 0 => ""
  | S k' => hex_digits k' (n / 16)%N +:+ String (hex_char (n mod 16)%N) ""
  end.

Fixpoint char_sum (s : string) : N :=
  match s with
  | "" => 0%N
  | String c r => (N_of_ascii c + 31 * char_sum r)%N
  end.

(** A stand-in for the md5 digest; the theorems hold for every digest. *)
Definition digest (s : string) : string :=
  String.rev (hex_digits 32 (char_sum s)).

(** A stand-in for the random source: the draws differ from each other. *)
Definition draw (n : nat) : string := hex_digits 16 (N.of_nat n).

Definition DEFAULT_TAG : string := "uncategorised".

Fixpoint dedup (seen l : list string) : list string :=
  match l with
  | [] => []
  | x :: r => if bool_decide (x ∈ seen) then dedup seen r
              else x :: dedup (x :: seen) r
  end.

(** [normalizeTags] as server.js defines it. *)
Definition server_normalizeTags (tags : TagsValue) : list string :=
  let list :=
    match tags with
    | TagsAbsent => None
    | TagsOne t => if Str.truthy t then Some [t] else None
    | TagsMany l => Some l
    end in
  match list with
  | None => [DEFAULT_TAG]
  | Some l =>
      let cleaned := dedup [] (filter (λ t, Str.truthy t) (Str.trim <$> l)) in
      match cleaned with
      | [] => [DEFAULT_TAG]
      | _ => cleaned
      end
  end.

(** A document without front matter: everything is body. *)
Definition plain (raw : string) : FrontMatter.t :=
  {| FrontMatter.title := None; FrontMatter.date := None;
     FrontMatter.slug := None; FrontMatter.tags := TagsAbsent;
     FrontMatter._content := Some raw; FrontMatter.extra := ∅ |}.

Definition env (scope : option (TagsValue → list string)) : Env :=
  {| slugize := ascii_slugize;
     md5_hex := digest;
     random_hex := draw;
     fm_parse := plain;
     fm_stringify := λ _ content, content;
     date_iso := λ v, Some v;
     base64_decode := λ d, d;
     encodeURI := λ u, u;
     projectRoot := "/srv/blog";
     scope_normalizeTags := scope |}.

(** The environment of uploadSessions.js as it stands: [normalizeTags]
    is unbound. *)
Definition moduleEnv : Env := env None.

(** The same with [normalizeTags] bound to the function of server.js. *)
Definition serverEnv : Env := env (Some server_normalizeTags).

Definition emptyWorld : World :=
  {| sessions := ∅; files := ∅; posts := [];
     draws := 0; now := "2024-05-06T07:08:09.000Z" |}.

(** The session of the examples: the first one created in
    [emptyWorld]. *)
Definition sid : string := draw 0.

Definition noteA : AddNote.t :=
  {| AddNote.sessionId := sid; AddNote.filename := "A.md";
     AddNote.content := "see [[B]] and [Example](http://example.com)";
     AddNote.isMain := true |}.

Definition archiveExample : AddArchive.t :=
  {| AddArchive.sessionId := sid;
     AddArchive.sourceUrl := "http://example.com";
     AddArchive.filename := "example.html";
     AddArchive.data := "data:text/html;base64,PGh0bWw+" |}.

Definition worldA : World :=
  run serverEnv [OpCreateSession; OpAddNote noteA] emptyWorld.

Definition sessionA : Session.t :=
  Eval vm_compute in
    default (defaultSession "" "") (sessions worldA !! sid).

Definition archiveA : Archive.t :=
  Eval vm_compute in
    default {| Archive.id := ""; Archive.url := ""; Archive.resolved := false;
               Archive.filename := None; Archive.filePath := None;
               Archive.referencedBy := [] |}
            (Session.archives sessionA
               !! archiveIdFromUrl serverEnv "http://example.com").

(** [A.md] uploaded again, its links removed. *)
Definition noteA2 : AddNote.t :=
  {| AddNote.sessionId := sid; AddNote.filename := "A.md";
     AddNote.content := "no link any more"; AddNote.isMain := false |}.

(** [B.md] uploaded as a second entry document. *)
Definition noteBmain : AddNote.t :=
  {| AddNote.sessionId := sid; AddNote.filename := "B.md";
     AddNote.content := "back to [[A]]"; AddNote.isMain := true |}.

Definition worldAA : World :=
  run serverEnv [OpCreateSession; OpAddNote noteA; OpAddNote noteA2]
    emptyWorld.

Definition sessionAA : Session.t :=
  Eval vm_compute in
    default (defaultSession "" "") (sessions worldAA !! sid).

Definition worldAB : World :=
  run serverEnv [OpCreateSession; OpAddNote noteA; OpAddNote noteBmain]
    emptyWorld.

Definition sessionAB : Session.t :=
  Eval vm_compute in
    default (defaultSession "" "") (sessions worldAB !! sid).

(** [D.md] links to the page [A.md] links to. *)
Definition noteD : AddNote.t :=
  {| AddNote.sessionId := sid; AddNote.filename := "D.md";
     AddNote.content := "also [Ex](http://example.com)";
     AddNote.isMain := false |}.

Definition world0 : World := run serverEnv [OpCreateSession] emptyWorld.

Definition worldAD : World :=
  run serverEnv [OpCreateSession; OpAddNote noteA; OpAddNote noteD]
    emptyWorld.

Definition sessionAD : Session.t :=
  Eval vm_compute in
    default (defaultSession "" "") (sessions worldAD !! sid).

(** A main note without links: its session is ready at once. *)
Definition noteE : AddNote.t :=
  {| AddNote.sessionId := sid; AddNote.filename := "E.md";
     AddNote.content := "plain text"; AddNote.isMain := true |}.

Definition worldE : World :=
  run serverEnv [OpCreateSession; OpAddNote noteE] emptyWorld.

Definition sessionE : Session.t :=
  Eval vm_compute in
    default (defaultSession "" "") (sessions worldE !! sid).

(** [C.md]: a main note whose only reference is the example page. *)
Definition noteC : AddNote.t :=
  {| AddNote.sessionId := sid; AddNote.filename := "C.md";
     AddNote.content := "read [Example](http://example.com)";
     AddNote.isMain := true |}.

End Sample.

(** ** Vocabulary of the proofs *)

Ltac unfold_M :=
  unfold bind, ret, throw, get_world, modify_world in *.

(** [m] returns, reads nothing of the world but the clock and the position
    of the random source, and changes nothing but that position. *)
Definition draws_only {A} (m : M A) : Prop :=
  ∀ w, ∃ r d,
    draws w ≤ d
    ∧ ∀ w2, draws w2 = draws w → now w2 = now w →
            m w2 = (Ok r, set_draws d w2).

(** The world after the note file is written and the links are scanned. *)
Definition afterNoteFile (E : Env) (req : AddNote.t) (slug : string)
    (d : nat) (w : World) : World :=
  set_draws d
    (set_files (<[notePath E (AddNote.sessionId req) slug
                  := AddNote.content req]> (files w)) w).

(** What holds of a session the operations build, against the cache [c]
    of the published posts. *)
Record session_inv (E : Env) (c : gmap string string) (s : Session.t)
    : Prop := {
  inv_note_slug :
    ∀ k n, Session.notes s !! k = Some n → Note.slug n = k;
  inv_archive_id :
    ∀ k a, Session.archives s !! k = Some a →
           Archive.id a = k ∧ k = archiveIdFromUrl E (Archive.url a);
  inv_archive_nodup :
    ∀ k a, Session.archives s !! k = Some a → NoDup (Archive.referencedBy a);
  inv_dep_archive :
    ∀ k n i, Session.notes s !! k = Some n →
             is_Some (Deps.archives (Note.dependencies n) !! i) →
             is_Some (Session.archives s !! i);
  inv_pending_absent :
    ∀ t p, Session.pendingNotes s !! t = Some p →
           Session.notes s !! t = None ∧ findExistingFolder c t = None;
  inv_pending_refs :
    ∀ t p, Session.pendingNotes s !! t = Some p →
           Pending.referencedBy p ≠ []
           ∧ NoDup (Pending.referencedBy p)
           ∧ ∀ r, r ∈ Pending.referencedBy p → is_Some (Session.notes s !! r);
  inv_dep_pending :
    ∀ k n t, Session.notes s !! k = Some n →
             is_Some (Deps.notes (Note.dependencies n) !! t) →
             Session.notes s !! t = None →
             findExistingFolder c t = None →
             is_Some (Session.pendingNotes s !! t);
  inv_main_note :
    ∀ m, Session.mainSlug s = Some m → is_Some (Session.notes s !! m);
  inv_isMain_main :
    ∀ k n, Session.notes s !! k = Some n → Note.isMain n = true →
           is_Some (Session.mainSlug s)
}.

(** The file of every resolved archive of [s] is in storage. *)
Definition archive_files (w : World) (s : Session.t) : Prop :=
  ∀ k a, Session.archives s !! k = Some a → Archive.resolved a = true →
         ∃ f p, Archive.filename a = Some f ∧ Archive.filePath a = Some p
                ∧ is_Some (files w !! p).

Definition world_inv (E : Env) (w : World) : Prop :=
  ∀ sid s, sessions w !! sid = Some s →
           Session.id s = sid
           ∧ session_inv E (cacheOfFolders (posts w)) s
           ∧ archive_files w s.

(** The pending entry [ensureNoteDependency] writes. *)
Definition pendingEntry (pending : gmap string Pending.t) (src : string)
    (dep : WikiLink.t) : Pending.t :=
  let info :=
    match pending !! WikiLink.targetSlug dep with
    | Some info => info
    | None => {| Pending.targetTitle := WikiLink.targetTitle dep;
                 Pending.referencedBy := [] |}
    end in
  if bool_decide (src ∈ Pending.referencedBy info) then info
  else Pending.push_referencedBy src info.

(** The archive entry [registerArchive] writes. *)
Definition archiveEntry (archives : gmap string Archive.t)
    (archiveId url noteSlug : string) : Archive.t :=
  let archive :=
    match archives !! archiveId with
    | Some a => a
    | None => {| Archive.id := archiveId; Archive.url := url;
                 Archive.resolved := false; Archive.filename := None;
                 Archive.filePath := None; Archive.referencedBy := [] |}
    end in
  if bool_decide (noteSlug ∈ Archive.referencedBy archive) then archive
  else Archive.push_referencedBy noteSlug archive.

(** The session of [registerNote] when the dependency tracker starts. *)
Definition noteRegistered (s : Session.t) (slug : string) (meta : Meta.t)
    (body fileTarget : string) (isMain : bool) : Session.t :=
  {| Session.id := Session.id s;
     Session.createdAt := Session.createdAt s;
     Session.notes :=
       <[slug := {| Note.slug := slug; Note.title := Meta.title meta;
                    Note.date := Meta.date meta; Note.meta := meta;
                    Note.body := body; Note.file := fileTarget;
                    Note.isMain := isMain;
                    Note.dependencies := Deps.empty |}]>
         (Session.notes s);
     Session.archives := Session.archives s;
     Session.pendingNotes := delete slug (Session.pendingNotes s);
     Session.mainSlug := if isMain then Some slug else Session.mainSlug s |}.

(** The loops of [updateNoteDependencies], each on the one dictionary it
    writes. *)
Definition noteDepsAfter (wikiLinks : list WikiLink.t)
    (d : gmap string NoteDep.t) : gmap string NoteDep.t :=
  foldl (λ d dep,
           <[WikiLink.targetSlug dep
             := {| NoteDep.alias := WikiLink.alias dep;
                   NoteDep.targetTitle := WikiLink.targetTitle dep |}]> d)
        d wikiLinks.

Definition archiveDepsAfter (E : Env) (externalLinks : list ExternalLink.t)
    (d : gmap string string) : gmap string string :=
  foldl (λ d link,
           <[archiveIdFromUrl E (ExternalLink.url link)
             := ExternalLink.text link]> d)
        d externalLinks.

Definition depsAfter (E : Env) (wikiLinks : list WikiLink.t)
    (externalLinks : list ExternalLink.t) (d : Deps.t) : Deps.t :=
  {| Deps.notes := noteDepsAfter wikiLinks (Deps.notes d);
     Deps.archives := archiveDepsAfter E externalLinks (Deps.archives d) |}.

Definition archivesAfter (E : Env) (src : string)
    (externalLinks : list ExternalLink.t) (m : gmap string Archive.t)
    : gmap string Archive.t :=
  foldl (λ m link,
           let i := archiveIdFromUrl E (ExternalLink.url link) in
           <[i := archiveEntry m i (ExternalLink.url link) src]> m)
        m externalLinks.

Definition pendingAfter (notes : gmap string Note.t)
    (c : gmap string string) (src : string) (wikiLinks : list WikiLink.t)
    (pending : gmap string Pending.t) : gmap string Pending.t :=
  foldl (λ pending dep,
           match notes !! WikiLink.targetSlug dep,
                 findExistingFolder c (WikiLink.targetSlug dep) with
           | None, None =>
               <[WikiLink.targetSlug dep := pendingEntry pending src dep]>
                 pending
           | _, _ => pending
           end)
        pending wikiLinks.

(** The note [addNote] stores for a document, once its links are
    recorded. *)
Definition noteOf (E : Env) (slug : string) (meta : Meta.t)
    (body fileTarget : string) (isMain : bool) (wikiLinks : list WikiLink.t)
    (externalLinks : list ExternalLink.t) : Note.t :=
  {| Note.slug := slug; Note.title := Meta.title meta;
     Note.date := Meta.date meta; Note.meta := meta;
     Note.body := body; Note.file := fileTarget;
     Note.isMain := isMain;
     Note.dependencies := depsAfter E wikiLinks externalLinks Deps.empty |}.

(** How the archive registry [m'] after the upload of note [x] relates to
    the registry [m] before it. *)
Definition archives_grow (x : string) (m m' : gmap string Archive.t) : Prop :=
  ∀ k,
    match m !! k with
    | Some a =>
        ∃ a', m' !! k = Some a'
              ∧ Archive.id a' = Archive.id a
              ∧ Archive.url a' = Archive.url a
              ∧ Archive.resolved a' = Archive.resolved a
              ∧ Archive.filename a' = Archive.filename a
              ∧ Archive.filePath a' = Archive.filePath a
              ∧ (Archive.referencedBy a' = Archive.referencedBy a
                 ∨ ((x ∉ Archive.referencedBy a)
                    ∧ Archive.referencedBy a' = Archive.referencedBy a ++ [x]))
    | None =>
        ∀ a', m' !! k = Some a' →
              Archive.id a' = k
              ∧ Archive.resolved a' = false
              ∧ Archive.filename a' = None
              ∧ Archive.filePath a' = None
              ∧ Archive.referencedBy a' = [x]
    end.

(** A wiki-link target that is neither a note of the session nor a
    published post. *)
Definition targetMissing (notes : gmap string Note.t)
    (c : gmap string string) (t : string) : bool :=
  match notes !! t, findExistingFolder c t with
  | None, None => true
  | _, _ => false
  end.

Definition missingTargets (notes : gmap string Note.t)
    (c : gmap string string) (wl : list WikiLink.t) : list string :=
  filter (λ t, targetMissing notes c t) (WikiLink.targetSlug <$> wl).

(** ** The claims on pending notes and on the entry document, as stated *)

(** Invariant 2 of the specification. *)
Definition pending_iff_referenced (c : gmap string string) (s : Session.t)
    : Prop :=
  ∀ S,
    is_Some (Session.pendingNotes s !! S)
    ↔ (∃ k n, Session.notes s !! k = Some n
              ∧ is_Some (Deps.notes (Note.dependencies n) !! S))
      ∧ Session.notes s !! S = None
      ∧ findExistingFolder c S = None.

(** At most one note is marked as entry document, and [mainSlug], when
    set, names a note so marked. *)
Definition single_main (s : Session.t) : Prop :=
  (∀ k1 n1 k2 n2,
     Session.notes s !! k1 = Some n1 → Session.notes s !! k2 = Some n2 →
     Note.isMain n1 = true → Note.isMain n2 = true → k1 = k2)
  ∧ (∀ m, Session.mainSlug s = Some m →
          ∃ n, Session.notes s !! m = Some n ∧ Note.isMain n = true).

(** How many times [x] occurs in [l]. *)
Definition occurrences (x : string) (l : list string) : nat :=
  length (filter (λ y, y = x) l).

(** The negation of readiness, condition by condition, as the claim on
    [commitSession] words it. *)
Definition not_ready (s : Session.t) : Prop :=
  Session.pendingNotes s ≠ ∅
  ∨ (∃ k a, Session.archives s !! k = Some a ∧ Archive.resolved a = false)
  ∨ ¬ mainSlug_set s.

(** The destination folder of a note. *)
Definition folderOf (n : Note.t) : string :=
  folderFromDateSlug (Note.date n) (Note.slug n).

(** [w'] has every file of [w]. *)
Definition keeps_files (w w' : World) : Prop :=
  ∀ p, is_Some (files w !! p) → is_Some (files w' !! p).

(** A session holds a note only where [normalizeTags] is bound. *)
Definition notes_need_scope (E : Env) (w : World) : Prop :=
  ∀ sid s k n,
    sessions w !! sid = Some s → Session.notes s !! k = Some n →
    is_Some (scope_normalizeTags E).

(** What [addNote] reads off a document: the parsed front matter and
    body, the wiki-links, and the position of the random source afterwards.
    It depends on the world through that position and the clock only, so
    it is computed on a world that holds nothing else. *)
Definition probe (d : nat) (t : string) : World :=
  {| sessions := ∅; files := ∅; posts := []; draws := d; now := t |}.

Definition analysed (E : Env) (req : AddNote.t) (d : nat) (t : string)
    : option (Meta.t * string * list WikiLink.t * nat) :=
  match parseMarkdown E (AddNote.content req) (AddNote.filename req)
          (probe d t) with
  | (Ok (meta, body), wp) =>
      match extractWikiLinks E body wp with
      | (Ok wl, ws) => Some (meta, body, wl, draws ws)
      | (Throw _, _) => None
      end
  | (Throw _, _) => None
  end.

(** The session [addNote] saves for an analysed document. *)
Definition sessionAfterNote (E : Env) (nt : TagsValue → list string)
    (req : AddNote.t) (c : gmap string string) (s : Session.t)
    (meta : Meta.t) (body : string) (wl : list WikiLink.t) : Session.t :=
  registerNote E s (Meta.slug meta)
    (Meta.set_tags (TagsMany (nt (Meta.tags meta))) meta) body
    (notePath E (AddNote.sessionId req) (Meta.slug meta))
    (AddNote.isMain req) wl (extractExternalLinks body) c.

(** The [ready] flag a client reads after a sequence of operations. *)
Definition readyAfter (E : Env) (sid : string) (ops : list Op) (w : World)
    : option bool :=
  match (getSession sid (run E ops w)).1 with
  | Ok sum => Some (Summary.ready sum)
  | Throw _ => None
  end.

(** ** Vocabulary of the further properties *)

(** Every character of [s] satisfies [p]. *)
Fixpoint str_forall (p : ascii → bool) (s : string) : bool :=
  match s with
  | "" => true
  | String c r => p c && str_forall p r
  end.

Definition is_not_dash (c : ascii) : bool := negb (Ascii.eqb c "-").
Definition is_not_lbracket (c : ascii) : bool := negb (Ascii.eqb c "[").
Definition is_not_comma (c : ascii) : bool := negb (Ascii.eqb c ",").

(** A date string that starts like an ISO date: four, two and two
    characters other than the dash, with a dash between them. *)
Definition dashed_date (d : string) : bool :=
  match d with
  | String y1 (String y2 (String y3 (String y4 (String s1
      (String m1 (String m2 (String s2 (String d1 (String d2 _))))))))) =>
      Ascii.eqb s1 "-" && Ascii.eqb s2 "-"
      && str_forall is_not_dash
           (String y1 (String y2 (String y3 (String y4
              (String m1 (String m2 (String d1 (String d2 ""))))))))
  | _ => false
  end.

(** One attempt of the external-link pattern, as [extractExternalLinks]
    uses it. *)
Definition external_attempt (s : string) : option (ExternalLink.t * string) :=
  match match_external s with
  | Some (text, url, rest) =>
      Some ({| ExternalLink.text := text; ExternalLink.url := url |}, rest)
  | None => None
  end.


(** One attempt of the external-link pattern with the callback of
    [convertExternalLinks]. *)
Definition convert_external_attempt (E : Env)
    (archiveMap : gmap string string) (s : string)
    : option (M string * string) :=
  match match_external s with
  | Some (text, url, rest) =>
      Some (let archiveId := archiveIdFromUrl E url in
            match archiveMap !! archiveId with
            | Some newUrl =>
                if Str.truthy newUrl
                then ret ("[" +:+ text +:+ "](" +:+ newUrl +:+ ")")
                else ret ("[" +:+ text +:+ "](" +:+ url +:+ ")")
            | None => ret ("[" +:+ text +:+ "](" +:+ url +:+ ")")
            end, rest)
  | None => None
  end.

Module SampleNotes.
(** A stored note to call the converters with. *)
Definition storedC : Note.t :=
  noteOf Sample.serverEnv "c"
    {| Meta.title := "C"; Meta.date := "2024-05-06T07:08:09.000Z";
       Meta.slug := "c"; Meta.tags := TagsAbsent; Meta.extra := ∅ |}
    "read [Example](http://example.com)." "" true []
    (extractExternalLinks "read [Example](http://example.com).").
End SampleNotes.

(** The markup of a wiki-link: [[[target]]] or [[[target|alias]]]. *)
Definition wiki_markup (target : string) (alias : option string) : string :=
  "[[" +:+ target
  +:+ match alias with Some a => "|" +:+ a | None => "" end
  +:+ "]]".

(** One attempt of the wiki-link pattern with the callback of
    [convertWikiLinks]. *)
Definition convert_wiki_attempt (E : Env) (session : Session.t)
    (folderMap existingCache : gmap string string) (s : string)
    : option (M string * string) :=
  match match_wiki s with
  | Some (target, alias, rest) =>
      Some (let* targetSlug := slugFromTitle E (Str.trim target) in
            let display := Str.trim (default target alias) in
            match resolveNoteUrl session targetSlug folderMap
                    existingCache with
            | Some url => ret ("[" +:+ display +:+ "](" +:+ url +:+ ")")
            | None => ret display
            end, rest)
  | None => None
  end.

(** Nothing a session holds is lost from [s] to [s']: the notes stay,
    the archives keep their URL, stay resolved once they are, and keep
    the notes that reference them, an entry document stays chosen. *)
Definition session_grows (s s' : Session.t) : Prop :=
  Session.id s' = Session.id s
  ∧ (∀ k, is_Some (Session.notes s !! k) → is_Some (Session.notes s' !! k))
  ∧ (∀ k a, Session.archives s !! k = Some a →
            ∃ a', Session.archives s' !! k = Some a'
                  ∧ Archive.url a' = Archive.url a
                  ∧ (Archive.resolved a = true → Archive.resolved a' = true)
                  ∧ Archive.referencedBy a `prefix_of` Archive.referencedBy a')
  ∧ (is_Some (Session.mainSlug s) → is_Some (Session.mainSlug s')).

Definition is_create (o : Op) : bool :=
  match o with OpCreateSession => true | _ => false end.

(** The Status Summary of a session that holds nothing. *)
Definition emptySummary (id : string) : Summary.t :=
  {| Summary.sessionId := id; Summary.mainSlug := None;
     Summary.notes := []; Summary.pendingNotes := [];
     Summary.pendingArchives := []; Summary.ready := true |}.

(** ** Vocabulary of the commit *)

(** [p] is a path below the directory [dir]. *)
Definition under (dir p : string) : bool := String.prefix (dir +:+ "/") p.

(** The file a post is published in. *)
Definition indexPath (E : Env) (folder : string) : string :=
  path_join (path_join (postsRoot E) folder) "index.md".

(** [p] is below the destination folder of a note of [s]. *)
Definition destination (E : Env) (s : Session.t) (p : string) : Prop :=
  ∃ k n, Session.notes s !! k = Some n
         ∧ under (path_join (postsRoot E) (folderOf n)) p = true.

(** The post of [folder] is in storage. *)
Definition published (E : Env) (folder : string) (w : World) : Prop :=
  folder ∈ posts w ∧ is_Some (files w !! indexPath E folder).

(** What the loop of [commitSession] over the notes of [s] may change
    from [w] to [w']: posts are added, files are written below the
    destination folders. *)
Definition commit_step (E : Env) (s : Session.t) (w w' : World) : Prop :=
  sessions w' = sessions w
  ∧ (∀ f, f ∈ posts w → f ∈ posts w')
  ∧ keeps_files w w'
  ∧ (∀ p, ¬ destination E s p → files w' !! p = files w !! p)
  ∧ (∀ f, f ∈ posts w' →
          f ∈ posts w ∨ ∃ k n, Session.notes s !! k = Some n ∧ f = folderOf n).

(** The world once the directory of session [sid] is removed. *)
Definition sessionRemoved (E : Env) (sid : string) (w : World) : World :=
  set_files
    (filter (λ kv, negb (String.prefix (sessionPath E sid +:+ "/") kv.1))
            (files w))
    (set_sessions (delete sid (sessions w)) w).

(** ** The module as it stands *)

(** A session that holds nothing: no note, no archive, no pending note,
    no entry document. *)
Definition untouched (s : Session.t) : Prop :=
  Session.notes s = ∅ ∧ Session.archives s = ∅
  ∧ Session.pendingNotes s = ∅ ∧ Session.mainSlug s = None.

Definition all_untouched (w : World) : Prop :=
  ∀ id s, sessions w !! id = Some s → untouched s.

(** A call of one of the five exported functions. *)
Inductive Call :=
| CallOp (o : Op)
| CallCommitSession (id : string).

(** The world a call leaves behind, whether it returns or throws. *)
Definition serve (E : Env) (c : Call) (w : World) : World :=
  match c with
  | CallOp o => exec E o w
  | CallCommitSession id => (commitSession E id w).2
  end.

Definition serve_all (E : Env) (calls : list Call) (w : World) : World :=
  foldl (λ w c, serve E c w) w calls.

(** Worlds the exported functions build from storage holding no
    session. *)
Definition served (E : Env) (w : World) : Prop :=
  ∃ w0 calls, sessions w0 = ∅ ∧ w = serve_all E calls w0.

(** An exception that is not one of the three refusals of
    [assertReady]. *)
Definition past_readiness (e : Exn) : Prop :=
  spec_errorKind e ≠ Some PreconditionFailed.

(** Storage that holds one session, ready for commit: a main note
    without links, nothing pending. *)
Definition readyWorld : World :=
  set_sessions {[ Sample.sid := Sample.sessionE ]} Sample.emptyWorld.

(** ** Names and paths the embedding keeps apart *)

(** The member names a plain object inherits from [Object.prototype].
    The dictionaries of the module are plain objects: for a key that is
    none of these names [obj[key]] is the entry of the object or
    [undefined], as a lookup [m !! key] has it; under one of these names
    an object without an entry of its own answers with the inherited
    member, and an assignment to [__proto__] adds no entry.  The
    properties that depend on a lookup name the keys they are stated
    for. *)
Definition inherited_names : list string :=
  ["constructor"; "__proto__"; "hasOwnProperty"; "isPrototypeOf";
   "propertyIsEnumerable"; "toLocaleString"; "toString"; "valueOf";
   "__defineGetter__"; "__defineSetter__"; "__lookupGetter__";
   "__lookupSetter__"].

(** A closed string is none of the inherited names. *)
Ltac not_inherited :=
  let H := fresh in
  intros H; unfold inherited_names in H;
  repeat (apply elem_of_cons in H as [H|H]; [discriminate H|]);
  by apply elem_of_nil in H.

Definition is_not_slash (c : ascii) : bool := negb (Ascii.eqb c "/").

(** A name [path.join] appends as it is, as one more segment: it is not
    empty, holds no slash and is neither [.] nor [..].  [path_join] is
    [path.join] on such names; on others [path.join] normalises the
    result, which may then name a place the text of the path does not
    show. *)
Definition plain_segment (s : string) : bool :=
  Str.truthy s && str_forall is_not_slash s
  && negb (String.eqb s ".") && negb (String.eqb s "..").

(** A path whose segments after the first are plain. *)
Definition plain_path (p : string) : bool :=
  match Str.split "/" p with
  | [] => true
  | _ :: segments => forallb plain_segment segments
  end.

(** An upload whose file lands in the directory of its session: the file
    name of an archive holds no slash, so that [archivePath] is a file of
    the [archives] directory and cannot be the [session.json] of any
    session. *)
Definition plain_op (o : Op) : bool :=
  match o with
  | OpAddArchive req => str_forall is_not_slash (AddArchive.filename req)
  | _ => true
  end.

(** Worlds the operations build from storage holding no session, by
    uploads whose files land in the directory of their session. *)
Definition reachable_plain (E : Env) (w : World) : Prop :=
  ∃ w0 ops, sessions w0 = ∅ ∧ forallb plain_op ops = true ∧ w = run E ops w0.

(** Every stored session is stored under its own identifier. *)
Definition ids_agree (w : World) : Prop :=
  ∀ sid s, sessions w !! sid = Some s → Session.id s = sid.

(** A session whose commit stays within the posts directory and resolves
    its links among the notes and the published posts: no note is stored
    under [__proto__], the destination folder of every note is one plain
    segment, and no note depends on a target that is a member name of
    [Object.prototype]. *)
Definition publishable (s : Session.t) : Prop :=
  ∀ k n, Session.notes s !! k = Some n →
         k ≠ "__proto__"
         ∧ plain_segment (folderOf n) = true
         ∧ ∀ t, is_Some (Deps.notes (Note.dependencies n) !! t) →
                t ∉ inherited_names.

(** The front matter of the document carries a date [new Date] accepts,
    so that [normalizeDate] does not read the clock. *)
Definition dated (E : Env) (req : AddNote.t) : Prop :=
  ∃ v, FrontMatter.date (fm_parse E (AddNote.content req)) = Some v
       ∧ v ≠ "" ∧ is_Some (date_iso E v).

(** The environment of the examples with a front-matter parser that
    reads a date off every document. *)
Definition datedEnv : Env :=
  {| slugize := slugize Sample.serverEnv;
     md5_hex := md5_hex Sample.serverEnv;
     random_hex := random_hex Sample.serverEnv;
     fm_parse := λ raw,
       {| FrontMatter.title := None;
          FrontMatter.date := Some "2024-05-06T07:08:09.000Z";
          FrontMatter.slug := None; FrontMatter.tags := TagsAbsent;
          FrontMatter._content := Some raw; FrontMatter.extra := ∅ |};
     fm_stringify := fm_stringify Sample.serverEnv;
     date_iso := date_iso Sample.serverEnv;
     base64_decode := base64_decode Sample.serverEnv;
     encodeURI := encodeURI Sample.serverEnv;
     projectRoot := projectRoot Sample.serverEnv;
     scope_normalizeTags := scope_normalizeTags Sample.serverEnv |}.

(** * Properties *)

(** ** Strings *)

Lemma str_truthy_true s : Str.truthy s = true ↔ s ≠ "".
Proof. by destruct s. Qed.

Lemma str_ten_chars d :
  10 ≤ String.length d →
  ∃ c0 c1 c2 c3 c4 c5 c6 c7 c8 c9 r,
    d = String c0 (String c1 (String c2 (String c3 (String c4 (String c5
          (String c6 (String c7 (String c8 (String c9 r))))))))).
Proof.
  intros H.
  do 10 (destruct d as [|? d]; [simpl in H; lia|]).
  by repeat eexists.
Qed.

(** ** Folder names and permalinks *)

(** C10. For a date string [d] of at least ten characters (every ISO date
    is one) and a non-empty slug [s]: the folder name is the first ten
    characters of [d], a dash and [s]; its first ten characters and its
    characters from index 11 on give the date prefix and the slug back;
    and the permalink parsed from the folder name is the one derived from
    [d] and [s]. *)
Theorem folder_permalink_roundtrip (d s : string) :
  10 ≤ String.length d →
  s ≠ "" →
  folderFromDateSlug d s = Str.take 10 d +:+ "-" +:+ s
  ∧ Str.slice 0 10 (folderFromDateSlug d s) = Str.take 10 d
  ∧ Str.slice_from 11 (folderFromDateSlug d s) = s
  ∧ permalinkFromFolder (folderFromDateSlug d s) = permalinkFromDateSlug d s.
Proof.
  intros Hd Hs.
  destruct (str_ten_chars d Hd)
    as (c0 & c1 & c2 & c3 & c4 & c5 & c6 & c7 & c8 & c9 & r & ->).
  destruct s as [|c s]; [done|].
  repeat split; reflexivity.
Qed.

Lemma folder_permalink_roundtrip_witness :
  let d := "2024-05-06T07:08:09.000Z" in
  let s := "hello-world" in
  10 ≤ String.length d
  ∧ s ≠ ""
  ∧ folderFromDateSlug d s = Str.take 10 d +:+ "-" +:+ s
  ∧ Str.slice 0 10 (folderFromDateSlug d s) = Str.take 10 d
  ∧ Str.slice_from 11 (folderFromDateSlug d s) = s
  ∧ permalinkFromFolder (folderFromDateSlug d s) = permalinkFromDateSlug d s.
Proof.
  intros d s.
  split; [simpl; lia|]. split; [done|].
  apply (folder_permalink_roundtrip d s); [simpl; lia|done].
Defined.

(** ** Slug derivation *)

Lemma slugFromTitle_direct E title w :
  slugize E title ≠ "" →
  slugFromTitle E title w = (Ok (slugize E title), w).
Proof.
  intros H. unfold slugFromTitle.
  by apply str_truthy_true in H as ->.
Qed.

Lemma slugFromTitle_fallback E title w :
  slugize E title = "" →
  slugFromTitle E title w
  = (Ok (slugize E (random_hex E (draws w))), set_draws (S (draws w)) w).
Proof. intros H. unfold slugFromTitle. by rewrite H. Qed.

Lemma extractWikiLinks_from_slugs E fuel s w links w' :
  extractWikiLinks_from E fuel s w = (Ok links, w') →
  ∀ l, l ∈ links →
       slugize E (WikiLink.targetTitle l) ≠ "" →
       WikiLink.targetSlug l = slugize E (WikiLink.targetTitle l).
Proof.
  revert s w links w'.
  induction fuel as [|fuel IH]; intros s w links w' Hrun l Hl Hne.
  { simpl in Hrun. unfold ret in Hrun. simplify_eq. by apply elem_of_nil in Hl. }
  simpl in Hrun. destruct s as [|c r].
  { unfold ret in Hrun. simplify_eq. by apply elem_of_nil in Hl. }
  destruct (match_wiki (String c r)) as [[[g1 g2] rest]|] eqn:Hm.
  - unfold bind in Hrun.
    destruct (slugFromTitle E (Str.trim g1) w) as [[slug|e] w1] eqn:Hs;
      [|done].
    destruct (extractWikiLinks_from E fuel rest w1) as [[tl|e] w2] eqn:Ht;
      [|done].
    unfold ret in Hrun. simplify_eq.
    apply elem_of_cons in Hl as [->|Hl]; [|by eapply IH].
    simpl in *. rewrite slugFromTitle_direct in Hs by done. by simplify_eq.
  - by eapply IH.
Qed.

(** C9 (as amended). The identifier of a title whose slugization is not
    empty is that slugization: every evaluation returns it and draws
    nothing from the random source, also for the targets of the wiki-links
    [extractWikiLinks] yields.  The random fallback is taken exactly when
    the slugization is empty, and then the identifier is the slugization
    of a fresh draw. *)
Theorem slugFromTitle_deterministic (E : Env) (title : string) :
  slugize E title ≠ "" →
  (∀ w, slugFromTitle E title w = (Ok (slugize E title), w))
  ∧ (∀ body w links w' l,
       extractWikiLinks E body w = (Ok links, w') →
       l ∈ links →
       WikiLink.targetTitle l = title →
       WikiLink.targetSlug l = slugize E title)
  ∧ (∀ t w, (slugFromTitle E t w).2 ≠ w ↔ slugize E t = "")
  ∧ (∀ t w,
       slugize E t = "" →
       slugFromTitle E t w
       = (Ok (slugize E (random_hex E (draws w))), set_draws (S (draws w)) w)).
Proof.
  intros Hne. split; [|split; [|split]].
  4:{ intros t w Hz. by apply slugFromTitle_fallback. }
  - intros w. by apply slugFromTitle_direct.
  - intros body w links w' l Hrun Hl Ht. subst title.
    by eapply extractWikiLinks_from_slugs.
  - intros t w. destruct (decide (slugize E t = "")) as [Hz|Hz].
    + rewrite slugFromTitle_fallback by done. simpl. split; [done|].
      intros _ Hw. apply (f_equal draws) in Hw. simpl in Hw. lia.
    + rewrite slugFromTitle_direct by done. simpl. naive_solver.
Qed.

Lemma slugFromTitle_deterministic_witness :
  slugize Sample.serverEnv "Hello, World!" ≠ ""
  ∧ slugFromTitle Sample.serverEnv "Hello, World!" Sample.emptyWorld
    = (Ok "hello-world", Sample.emptyWorld).
Proof.
  split; [done|].
  apply (slugFromTitle_deterministic Sample.serverEnv "Hello, World!"). done.
Defined.

(** C9 (as stated) fails: the title ["!!!"] is not empty, its slugization
    is, so the random fallback is taken and two evaluations return two
    different identifiers. *)
Lemma slugFromTitle_not_deterministic :
  ¬ (∀ (E : Env) (title : string) (w1 w2 : World),
       (slugFromTitle E title w1).1 = (slugFromTitle E title w2).1
       ∧ ((slugFromTitle E title w1).2 ≠ w1 → title = "")).
Proof.
  intros H.
  destruct (H Sample.serverEnv "!!!" Sample.emptyWorld
              (set_draws 1 Sample.emptyWorld)) as [H1 _].
  vm_compute in H1. discriminate H1.
Qed.

(** ** Readiness *)

Lemma pendingArchivesOf_nil s :
  pendingArchivesOf s = []
  ↔ ∀ k a, Session.archives s !! k = Some a → Archive.resolved a = true.
Proof.
  unfold pendingArchivesOf. split.
  - intros Hnil k a Hka.
    destruct (Archive.resolved a) eqn:Hr; [done|].
    assert (a ∈ filter (λ a, negb (Archive.resolved a))
                  (map_to_list (Session.archives s)).*2) as Hin.
    { apply list_elem_of_filter. split; [by rewrite Hr|].
      apply list_elem_of_fmap. exists (k, a). split; [done|].
      by apply elem_of_map_to_list. }
    rewrite Hnil in Hin. by apply elem_of_nil in Hin.
  - intros Hall.
    destruct (filter _ _) as [|a l] eqn:Hf; [done|].
    assert (a ∈ a :: l) as Hin by apply list_elem_of_here.
    rewrite <- Hf in Hin. apply list_elem_of_filter in Hin as [Hp Hin].
    apply list_elem_of_fmap in Hin as [[k a'] [-> Hin]].
    apply elem_of_map_to_list in Hin. simpl in Hp.
    by rewrite (Hall k a') in Hp.
Qed.

Lemma summarizeSession_spec s w :
  ∃ sum,
    summarizeSession s w = (Ok sum, w)
    ∧ Summary.sessionId sum = Session.id s
    ∧ Summary.mainSlug sum = Session.mainSlug s
    ∧ length (Summary.notes sum) = size (Session.notes s)
    ∧ length (Summary.pendingNotes sum) = size (Session.pendingNotes s)
    ∧ length (Summary.pendingArchives sum) = length (pendingArchivesOf s)
    ∧ (Summary.ready sum = true ↔ dependencies_satisfied s).
Proof.
  eexists. split; [reflexivity|]. simpl.
  rewrite !length_fmap, !length_map_to_list.
  do 5 (split; [done|]). split.
  - intros [H1 H2]%andb_true_iff.
    apply Nat.eqb_eq in H1, H2.
    apply map_size_empty_iff in H1.
    apply nil_length_inv in H2.
    split; [done|]. by apply pendingArchivesOf_nil.
  - intros [H1 H2]. apply andb_true_iff.
    apply map_size_empty_iff in H1.
    apply pendingArchivesOf_nil in H2.
    rewrite H1, H2. done.
Qed.

Lemma assertReady_ok s w :
  spec_ready s → assertReady s w = (Ok tt, w).
Proof.
  intros [[Hp Ha] Hm]. unfold assertReady.
  apply map_size_empty_iff in Hp. apply pendingArchivesOf_nil in Ha.
  rewrite Hp, Ha. simpl. unfold mainSlug_set in Hm. by rewrite Hm.
Qed.

Lemma assertReady_throw s w :
  ¬ spec_ready s →
  ∃ e, assertReady s w = (Throw e, w)
       ∧ spec_errorKind e = Some PreconditionFailed.
Proof.
  intros Hn. unfold assertReady.
  destruct (0 <? size (Session.pendingNotes s)) eqn:Hp; [by eexists|].
  destruct (0 <? length (pendingArchivesOf s)) eqn:Ha; [by eexists|].
  destruct (Str.truthy_opt (Session.mainSlug s)) eqn:Hm; [|by eexists].
  exfalso. apply Hn.
  apply Nat.ltb_ge in Hp, Ha.
  split; [split|done].
  - apply map_size_empty_iff. lia.
  - apply pendingArchivesOf_nil. apply nil_length_inv. lia.
Qed.

Lemma spec_ready_dec s : spec_ready s ∨ ¬ spec_ready s.
Proof.
  destruct (assertReady s Sample.emptyWorld) as [[[]|e] w] eqn:H.
  - left. unfold assertReady in H.
    destruct (0 <? size (Session.pendingNotes s)) eqn:Hp; [done|].
    destruct (0 <? length (pendingArchivesOf s)) eqn:Ha; [done|].
    destruct (Str.truthy_opt (Session.mainSlug s)) eqn:Hm; [|done].
    apply Nat.ltb_ge in Hp, Ha.
    split; [split|done].
    + apply map_size_empty_iff. lia.
    + apply pendingArchivesOf_nil. apply nil_length_inv. lia.
  - right. intros Hr. by rewrite (assertReady_ok s _ Hr) in H.
Qed.

(** C1. On the session [createSession] stores (no note, no archive,
    [mainSlug] unset) [summarizeSession] leaves the world as it is and
    reports [ready = true], while [assertReady] rejects the same session
    with "No main note uploaded": [ready] is the conjunction of the two
    dependency conditions only. *)
Theorem summarizeSession_ready_without_main (id : string) (w : World) :
  let s := defaultSession id (now w) in
  ∃ sum,
    summarizeSession s w = (Ok sum, w)
    ∧ Summary.ready sum = true
    ∧ Summary.mainSlug sum = None
    ∧ ¬ spec_ready s
    ∧ assertReady s w = (Throw (Error "No main note uploaded"), w).
Proof.
  intros s. eexists. split; [reflexivity|].
  repeat split; try done.
  intros [_ Hm]. by vm_compute in Hm.
Qed.

(** ** Computations that only draw random identifiers *)

Lemma set_draws_id w : set_draws (draws w) w = w.
Proof. by destruct w. Qed.

Lemma draws_only_ret {A} (a : A) : draws_only (ret a).
Proof.
  intros w. exists a, (draws w). split; [done|].
  intros w2 Hd _. unfold ret. by rewrite <- Hd, set_draws_id.
Qed.

Lemma draws_only_bind {A B} (m : M A) (k : A → M B) :
  draws_only m → (∀ a, draws_only (k a)) → draws_only (bind m k).
Proof.
  intros Hm Hk w.
  destruct (Hm w) as (a & d & Hle & Hrun).
  destruct (Hk a (set_draws d w)) as (b & d' & Hle' & Hrun').
  exists b, d'. simpl in Hle'. split; [lia|].
  intros w2 Hd Hn. unfold bind. rewrite (Hrun w2 Hd Hn).
  by rewrite (Hrun' (set_draws d w2)).
Qed.

Lemma draws_only_randomId E : draws_only (randomId E).
Proof.
  intros w. exists (random_hex E (draws w)), (S (draws w)).
  split; [lia|]. intros w2 Hd _. unfold randomId. by rewrite Hd.
Qed.

Lemma draws_only_slugFromTitle E title : draws_only (slugFromTitle E title).
Proof.
  unfold slugFromTitle. destruct (Str.truthy _).
  - apply draws_only_ret.
  - apply draws_only_bind; [apply draws_only_randomId|].
    intros r. apply draws_only_ret.
Qed.

Lemma draws_only_normalizeDate E value : draws_only (normalizeDate E value).
Proof.
  intros w.
  assert (∃ r, ∀ w2, now w2 = now w → normalizeDate E value w2 = (Ok r, w2))
    as [r Hr].
  { unfold normalizeDate. unfold_M.
    destruct value as [v|]; [destruct (Str.truthy v);
      [destruct (date_iso E v)|]|]; eexists; intros w2 Hn;
      rewrite ?Hn; reflexivity. }
  exists r, (draws w). split; [done|].
  intros w2 Hd Hn. rewrite (Hr w2 Hn). by rewrite <- Hd, set_draws_id.
Qed.

Lemma draws_only_parseMarkdown E raw filename :
  draws_only (parseMarkdown E raw filename).
Proof.
  unfold parseMarkdown.
  apply draws_only_bind; [apply draws_only_normalizeDate|]. intros date.
  apply draws_only_bind; [|intros slug; apply draws_only_ret].
  destruct (FrontMatter.slug _) as [s|];
    [destruct (Str.truthy s)|];
    auto using draws_only_ret, draws_only_slugFromTitle.
Qed.

Lemma draws_only_extractWikiLinks_from E fuel s :
  draws_only (extractWikiLinks_from E fuel s).
Proof.
  revert s. induction fuel as [|fuel IH]; intros s; simpl.
  { apply draws_only_ret. }
  destruct s as [|c r]; [apply draws_only_ret|].
  destruct (match_wiki _) as [[[g1 g2] rest]|]; [|apply IH].
  apply draws_only_bind; [apply draws_only_slugFromTitle|]. intros slug.
  apply draws_only_bind; [apply IH|]. intros results.
  apply draws_only_ret.
Qed.

Lemma draws_only_extractWikiLinks E body :
  draws_only (extractWikiLinks E body).
Proof. apply draws_only_extractWikiLinks_from. Qed.

(** ** What one call of [addNote] and of [addArchive] does *)

Lemma addNote_invalid E req w :
  AddNote.filename req = "" ∨ AddNote.content req = "" →
  addNote E req w = (Throw (Error "Filename and content required"), w).
Proof.
  intros H. unfold addNote.
  destruct H as [-> | ->]; [done|].
  by rewrite orb_true_r.
Qed.

Lemma addNote_no_session E req w :
  AddNote.filename req ≠ "" →
  AddNote.content req ≠ "" →
  sessions w !! AddNote.sessionId req = None →
  addNote E req w = (Throw (Error "Session not found"), w).
Proof.
  intros Hf%str_truthy_true Hc%str_truthy_true Hs. unfold addNote.
  rewrite Hf, Hc. simpl. unfold loadSession. unfold_M. by rewrite Hs.
Qed.

Lemma addNote_run E req w s :
  AddNote.filename req ≠ "" →
  AddNote.content req ≠ "" →
  sessions w !! AddNote.sessionId req = Some s →
  ∃ meta body wikiLinks d1 d2,
    draws w ≤ d1 ∧ d1 ≤ d2
    ∧ (∀ w2, draws w2 = draws w → now w2 = now w →
             parseMarkdown E (AddNote.content req) (AddNote.filename req) w2
             = (Ok (meta, body), set_draws d1 w2))
    ∧ (∀ w2, draws w2 = d1 → now w2 = now w →
             extractWikiLinks E body w2 = (Ok wikiLinks, set_draws d2 w2))
    ∧ let wf := afterNoteFile E req (Meta.slug meta) d2 w in
      match scope_normalizeTags E with
      | None => addNote E req w = (Throw (ReferenceError "normalizeTags"), wf)
      | Some nt =>
          let s' :=
            registerNote E s (Meta.slug meta)
              (Meta.set_tags (TagsMany (nt (Meta.tags meta))) meta) body
              (notePath E (AddNote.sessionId req) (Meta.slug meta))
              (AddNote.isMain req) wikiLinks (extractExternalLinks body)
              (cacheOfFolders (posts w)) in
          let w' := set_sessions (<[Session.id s' := s']> (sessions w)) wf in
          ∃ sum, addNote E req w = (Ok sum, w')
                 ∧ summarizeSession s' w' = (Ok sum, w')
      end.
Proof.
  intros Hf%str_truthy_true Hc%str_truthy_true Hs.
  destruct (draws_only_parseMarkdown E (AddNote.content req)
              (AddNote.filename req) w) as ([meta body] & d1 & Hd1 & Hparse).
  destruct (draws_only_extractWikiLinks E body (set_draws d1 w))
    as (wikiLinks & d2 & Hd2 & Hscan).
  simpl in Hd2.
  exists meta, body, wikiLinks, d1, d2.
  split; [done|]. split; [done|]. split; [done|].
  split; [intros w2 ??; by apply Hscan|].
  unfold addNote. rewrite Hf, Hc. simpl.
  unfold loadSession, buildExistingCache, writeFile, normalizeTags,
    saveSession.
  unfold_M. rewrite Hs. rewrite (Hparse w) by done.
  simpl. rewrite Hscan by done. simpl.
  destruct (scope_normalizeTags E) as [nt|]; [|done].
  eexists. split; reflexivity.
Qed.

Lemma addNote_unbound_normalizeTags E req w s :
  scope_normalizeTags E = None →
  AddNote.filename req ≠ "" →
  AddNote.content req ≠ "" →
  sessions w !! AddNote.sessionId req = Some s →
  ∃ w', addNote E req w = (Throw (ReferenceError "normalizeTags"), w')
        ∧ sessions w' = sessions w.
Proof.
  intros Hscope Hf Hc Hs.
  destruct (addNote_run E req w s Hf Hc Hs)
    as (meta & body & wl & d1 & d2 & _ & _ & _ & _ & Hrun).
  simpl in Hrun. rewrite Hscope in Hrun.
  eexists. split; [exact Hrun|done].
Qed.

Lemma addNote_bound_normalizeTags E req w s nt :
  scope_normalizeTags E = Some nt →
  AddNote.filename req ≠ "" →
  AddNote.content req ≠ "" →
  sessions w !! AddNote.sessionId req = Some s →
  ∃ sum w', addNote E req w = (Ok sum, w').
Proof.
  intros Hscope Hf Hc Hs.
  destruct (addNote_run E req w s Hf Hc Hs)
    as (meta & body & wl & d1 & d2 & _ & _ & _ & _ & Hrun).
  simpl in Hrun. rewrite Hscope in Hrun.
  destruct Hrun as (sum & Hrun & _). eauto.
Qed.

(** C3. With [normalizeTags] unbound, as uploadSessions.js leaves it, a
    call of [addNote] with a file name, a content and an existing session
    writes the note file and then throws [ReferenceError]: it returns no
    Status Summary, the session is not saved, and the exception is none of
    the four kinds. *)
Theorem addNote_throws_ReferenceError :
  let w1 := (createSession Sample.moduleEnv Sample.emptyWorld).2 in
  let req := Sample.noteA in
  is_Some (sessions w1 !! AddNote.sessionId req)
  ∧ (addNote Sample.moduleEnv req w1).1 = Throw (ReferenceError "normalizeTags")
  ∧ spec_errorKind (ReferenceError "normalizeTags") = None
  ∧ sessions (addNote Sample.moduleEnv req w1).2 = sessions w1
  ∧ files (addNote Sample.moduleEnv req w1).2
      !! notePath Sample.moduleEnv Sample.sid "a"
    = Some (AddNote.content req).
Proof.
  intros w1 req. split; [vm_compute; by eexists|].
  split; [vm_compute; reflexivity|]. split; [reflexivity|].
  split; vm_compute; reflexivity.
Qed.

Lemma addArchive_invalid E req w :
  AddArchive.sourceUrl req = "" ∨ AddArchive.filename req = ""
  ∨ AddArchive.data req = "" →
  addArchive E req w
  = (Throw (Error "Archive upload requires url, filename and data"), w).
Proof.
  intros H. unfold addArchive.
  destruct H as [-> | [-> | ->]]; [done| |].
  - by rewrite orb_true_r.
  - by rewrite orb_true_r.
Qed.

(** The three cases of [addArchive] on a request: a missing field, an
    archive the session does not expect, an archive it expects. *)
Lemma addArchive_cases (E : Env) (req : AddArchive.t) (w : World) :
  let sessionId := AddArchive.sessionId req in
  let archiveId := archiveIdFromUrl E (AddArchive.sourceUrl req) in
  let fileTarget := archivePath E sessionId archiveId (AddArchive.filename req) in
  (AddArchive.sourceUrl req = "" ∨ AddArchive.filename req = ""
   ∨ AddArchive.data req = "" →
   ∃ e, addArchive E req w = (Throw e, w)
        ∧ spec_errorKind e = Some ValidationError)
  ∧ (∀ s,
       AddArchive.sourceUrl req ≠ "" → AddArchive.filename req ≠ "" →
       AddArchive.data req ≠ "" →
       sessions w !! sessionId = Some s →
       Session.archives s !! archiveId = None →
       addArchive E req w = (Throw (Error "Archive was not requested"), w)
       ∧ spec_errorKind (Error "Archive was not requested")
         = Some ValidationError)
  ∧ (∀ s a,
       AddArchive.sourceUrl req ≠ "" → AddArchive.filename req ≠ "" →
       AddArchive.data req ≠ "" →
       sessions w !! sessionId = Some s →
       Session.archives s !! archiveId = Some a →
       let a' := Archive.resolve (AddArchive.filename req) fileTarget a in
       let s' := Session.set_archives
                   (<[archiveId := a']> (Session.archives s)) s in
       let w' :=
         set_sessions (<[Session.id s' := s']> (sessions w))
           (set_files
              (<[fileTarget
                 := base64_decode E (stripDataUri (AddArchive.data req))]>
                 (files w)) w) in
       Archive.resolved a' = true
       ∧ Archive.filename a' = Some (AddArchive.filename req)
       ∧ Archive.filePath a' = Some fileTarget
       ∧ ∃ sum, addArchive E req w = (Ok sum, w')
                ∧ summarizeSession s' w' = (Ok sum, w')).
Proof.
  intros sessionId archiveId fileTarget. split; [|split].
  - intros H. eexists. split; [by apply addArchive_invalid|done].
  - intros s Hu%str_truthy_true Hf%str_truthy_true Hd%str_truthy_true Hs Ha.
    unfold addArchive. rewrite Hu, Hf, Hd. simpl.
    unfold loadSession. unfold_M.
    fold sessionId. rewrite Hs. fold archiveId. by rewrite Ha.
  - intros s a Hu%str_truthy_true Hf%str_truthy_true Hd%str_truthy_true Hs Ha.
    unfold addArchive. rewrite Hu, Hf, Hd. simpl.
    unfold loadSession, writeFile, saveSession. unfold_M.
    fold sessionId. rewrite Hs. fold archiveId. rewrite Ha.
    simpl. do 3 (split; [done|]).
    eexists. fold fileTarget.
    assert (alter (Archive.resolve (AddArchive.filename req) fileTarget)
              archiveId (Session.archives s)
            = <[archiveId := Archive.resolve (AddArchive.filename req)
                               fileTarget a]> (Session.archives s)) as ->.
    { apply map_eq. intros k. rewrite lookup_alter, lookup_insert.
      case_decide; [subst; by rewrite Ha|done]. }
    split; reflexivity.
Qed.

(** C7. [addArchive] throws the validation error "Archive upload requires
    url, filename and data" when one of the three fields is missing, and,
    for an existing session, "Archive was not requested" when the session
    has no archive under the hash of [sourceUrl]; in both cases the world
    (persisted sessions and files) is left as it was.  Otherwise the
    decoded payload is written under the archive path, the archive is
    stored with [resolved = true], [filename] and [filePath] set, the
    session is saved, and the Status Summary of the saved session is
    returned. *)
Theorem addArchive_spec (E : Env) (req : AddArchive.t) (w : World) :
  let sessionId := AddArchive.sessionId req in
  let archiveId := archiveIdFromUrl E (AddArchive.sourceUrl req) in
  let fileTarget := archivePath E sessionId archiveId (AddArchive.filename req) in
  (AddArchive.sourceUrl req = "" ∨ AddArchive.filename req = ""
   ∨ AddArchive.data req = "" →
   ∃ e, addArchive E req w = (Throw e, w)
        ∧ spec_errorKind e = Some ValidationError)
  ∧ (∀ s,
       AddArchive.sourceUrl req ≠ "" → AddArchive.filename req ≠ "" →
       AddArchive.data req ≠ "" →
       sessions w !! sessionId = Some s →
       Session.archives s !! archiveId = None →
       addArchive E req w = (Throw (Error "Archive was not requested"), w)
       ∧ spec_errorKind (Error "Archive was not requested")
         = Some ValidationError)
  ∧ (∀ s a,
       AddArchive.sourceUrl req ≠ "" → AddArchive.filename req ≠ "" →
       AddArchive.data req ≠ "" →
       sessions w !! sessionId = Some s →
       Session.archives s !! archiveId = Some a →
       let a' := Archive.resolve (AddArchive.filename req) fileTarget a in
       let s' := Session.set_archives
                   (<[archiveId := a']> (Session.archives s)) s in
       let w' :=
         set_sessions (<[Session.id s' := s']> (sessions w))
           (set_files
              (<[fileTarget
                 := base64_decode E (stripDataUri (AddArchive.data req))]>
                 (files w)) w) in
       Archive.resolved a' = true
       ∧ Archive.filename a' = Some (AddArchive.filename req)
       ∧ Archive.filePath a' = Some fileTarget
       ∧ ∃ sum, addArchive E req w = (Ok sum, w')
                ∧ summarizeSession s' w' = (Ok sum, w')).
Proof.
  exact (addArchive_cases E req w).
Qed.

Lemma addArchive_spec_witness :
  let E := Sample.serverEnv in
  let w := Sample.worldA in
  let req := Sample.archiveExample in
  AddArchive.sourceUrl req ≠ ""
  ∧ AddArchive.filename req ≠ ""
  ∧ AddArchive.data req ≠ ""
  ∧ sessions w !! AddArchive.sessionId req = Some Sample.sessionA
  ∧ Session.archives Sample.sessionA
      !! archiveIdFromUrl E (AddArchive.sourceUrl req) = Some Sample.archiveA
  ∧ ∃ sum w', addArchive E req w = (Ok sum, w').
Proof.
  cbv zeta.
  do 3 (split; [done|]).
  split; [vm_compute; exact eq_refl|].
  split; [vm_compute; exact eq_refl|].
  destruct (addArchive_spec Sample.serverEnv Sample.archiveExample
              Sample.worldA) as (_ & _ & H).
  destruct (H Sample.sessionA Sample.archiveA)
    as (_ & _ & _ & sum & Hrun & _);
    [done|done|done|vm_compute; exact eq_refl|vm_compute; exact eq_refl|].
  eexists _, _. exact Hrun.
Defined.

(** ** The dependency tracker keeps the session invariant *)

Lemma foldl_preserves {A B} (P : A → Prop) (f : A → B → A) (l : list B) a :
  P a → (∀ a b, P a → b ∈ l → P (f a b)) → P (foldl f a l).
Proof.
  revert a. induction l as [|b l IH]; intros a Ha Hstep; [done|].
  simpl. apply IH.
  - apply Hstep; [done|apply list_elem_of_here].
  - intros a' b' Ha' Hb'. apply Hstep; [done|by apply list_elem_of_further].
Qed.

Lemma recordNoteDep_lookup key dep s k :
  Session.notes (recordNoteDep key dep s) !! k
  = if decide (key = k)
    then Note.map_dependencies
           (Deps.set_note (WikiLink.targetSlug dep)
              {| NoteDep.alias := WikiLink.alias dep;
                 NoteDep.targetTitle := WikiLink.targetTitle dep |})
         <$> Session.notes s !! k
    else Session.notes s !! k.
Proof.
  unfold recordNoteDep. simpl. rewrite lookup_alter.
  by case_decide; subst.
Qed.

Lemma recordNoteDep_lookup_None key dep s k :
  Session.notes (recordNoteDep key dep s) !! k = None
  ↔ Session.notes s !! k = None.
Proof.
  rewrite recordNoteDep_lookup. case_decide; [|done].
  by rewrite fmap_None.
Qed.

Lemma recordArchiveDep_lookup key i text s k :
  Session.notes (recordArchiveDep key i text s) !! k
  = if decide (key = k)
    then Note.map_dependencies (Deps.set_archive i text)
         <$> Session.notes s !! k
    else Session.notes s !! k.
Proof.
  unfold recordArchiveDep. simpl. rewrite lookup_alter.
  by case_decide; subst.
Qed.

Lemma ensureNoteDependency_notes s c src dep :
  Session.notes (ensureNoteDependency s c src dep) = Session.notes s.
Proof.
  unfold ensureNoteDependency.
  destruct (Session.notes s !! _); [done|].
  by destruct (findExistingFolder _ _).
Qed.

Lemma ensureNoteDependency_archives s c src dep :
  Session.archives (ensureNoteDependency s c src dep) = Session.archives s.
Proof.
  unfold ensureNoteDependency.
  destruct (Session.notes s !! _); [done|].
  by destruct (findExistingFolder _ _).
Qed.

Lemma ensureNoteDependency_mainSlug s c src dep :
  Session.mainSlug (ensureNoteDependency s c src dep) = Session.mainSlug s.
Proof.
  unfold ensureNoteDependency.
  destruct (Session.notes s !! _); [done|].
  by destruct (findExistingFolder _ _).
Qed.

Lemma ensureNoteDependency_pending s c src dep :
  Session.pendingNotes (ensureNoteDependency s c src dep)
  = match Session.notes s !! WikiLink.targetSlug dep,
          findExistingFolder c (WikiLink.targetSlug dep) with
    | None, None =>
        <[WikiLink.targetSlug dep := pendingEntry (Session.pendingNotes s) src dep]>
          (Session.pendingNotes s)
    | _, _ => Session.pendingNotes s
    end.
Proof.
  unfold ensureNoteDependency.
  destruct (Session.notes s !! _); [done|].
  by destruct (findExistingFolder _ _).
Qed.

Lemma pendingEntry_refs s src dep :
  src ∈ Pending.referencedBy (pendingEntry (Session.pendingNotes s) src dep)
  ∧ (∀ r, r ∈ Pending.referencedBy (pendingEntry (Session.pendingNotes s) src dep) →
          r = src
          ∨ ∃ p, Session.pendingNotes s !! WikiLink.targetSlug dep = Some p
                 ∧ r ∈ Pending.referencedBy p)
  ∧ ((∀ p, Session.pendingNotes s !! WikiLink.targetSlug dep = Some p →
           NoDup (Pending.referencedBy p)) →
     NoDup (Pending.referencedBy (pendingEntry (Session.pendingNotes s) src dep))).
Proof.
  unfold pendingEntry.
  destruct (Session.pendingNotes s !! _) as [p|] eqn:Hp; simpl.
  - case_bool_decide as Hin; simpl.
    + split; [done|]. split; [|by auto]. intros r Hr. right. eauto.
    + split; [apply elem_of_app; right; apply list_elem_of_here|].
      split.
      * intros r [Hr|Hr%list_elem_of_singleton]%elem_of_app; [|by left].
        right. eauto.
      * intros Hnd. apply NoDup_app. split; [by auto|].
        split; [|apply NoDup_singleton].
        intros x Hx ->%list_elem_of_singleton. done.
  - split; [apply list_elem_of_here|]. split.
    + intros r ->%list_elem_of_singleton. by left.
    + intros _. apply NoDup_singleton.
Qed.

Lemma wiki_step_notes_inv key dep s c k n :
  Session.notes (ensureNoteDependency (recordNoteDep key dep s) c key dep) !! k
    = Some n →
  ∃ n0, Session.notes s !! k = Some n0
        ∧ Note.slug n = Note.slug n0
        ∧ Note.isMain n = Note.isMain n0
        ∧ Deps.archives (Note.dependencies n)
          = Deps.archives (Note.dependencies n0)
        ∧ Deps.notes (Note.dependencies n)
          = if decide (key = k)
            then <[WikiLink.targetSlug dep
                   := {| NoteDep.alias := WikiLink.alias dep;
                         NoteDep.targetTitle := WikiLink.targetTitle dep |}]>
                   (Deps.notes (Note.dependencies n0))
            else Deps.notes (Note.dependencies n0).
Proof.
  rewrite ensureNoteDependency_notes, recordNoteDep_lookup.
  case_decide as Hk.
  - intros (n0 & Hn0 & ->)%fmap_Some. by exists n0.
  - intros Hn. by exists n.
Qed.

Lemma wiki_step_notes_is_Some key dep s c k :
  is_Some (Session.notes
             (ensureNoteDependency (recordNoteDep key dep s) c key dep) !! k)
  ↔ is_Some (Session.notes s !! k).
Proof.
  rewrite ensureNoteDependency_notes, recordNoteDep_lookup.
  case_decide; [|done]. by rewrite fmap_is_Some.
Qed.

Lemma wiki_step_notes_None key dep s c k :
  Session.notes (ensureNoteDependency (recordNoteDep key dep s) c key dep) !! k
    = None
  ↔ Session.notes s !! k = None.
Proof.
  rewrite !eq_None_not_Some. by rewrite wiki_step_notes_is_Some.
Qed.

Lemma wiki_step_pending key dep s c t p :
  Session.pendingNotes
    (ensureNoteDependency (recordNoteDep key dep s) c key dep) !! t = Some p →
  Session.pendingNotes s !! t = Some p
  ∨ (t = WikiLink.targetSlug dep
     ∧ Session.notes s !! t = None
     ∧ findExistingFolder c t = None
     ∧ p = pendingEntry (Session.pendingNotes s) key dep).
Proof.
  rewrite ensureNoteDependency_pending.
  destruct (Session.notes (recordNoteDep key dep s) !! _) as [n|] eqn:Hn;
    [by left|].
  apply recordNoteDep_lookup_None in Hn.
  destruct (findExistingFolder c _) eqn:Hc; [by left|].
  rewrite lookup_insert. case_decide as Ht; [|by left].
  intros [= <-]. right. subst t. done.
Qed.

Lemma wiki_step_pending_mono key dep s c t :
  is_Some (Session.pendingNotes s !! t) →
  is_Some (Session.pendingNotes
             (ensureNoteDependency (recordNoteDep key dep s) c key dep) !! t).
Proof.
  intros Hp. rewrite ensureNoteDependency_pending.
  destruct (Session.notes (recordNoteDep key dep s) !! _); [done|].
  destruct (findExistingFolder c _); [done|].
  rewrite lookup_insert. by case_decide.
Qed.

Lemma wiki_step_inv E c key dep s :
  session_inv E c s →
  is_Some (Session.notes s !! key) →
  session_inv E c (ensureNoteDependency (recordNoteDep key dep s) c key dep).
Proof.
  intros Hinv Hkey. split.
  - intros k n (n0 & Hn0 & -> & _)%wiki_step_notes_inv.
    by eapply inv_note_slug.
  - intros k a. rewrite ensureNoteDependency_archives. simpl.
    by eapply inv_archive_id.
  - intros k a. rewrite ensureNoteDependency_archives. simpl.
    by eapply inv_archive_nodup.
  - intros k n i (n0 & Hn0 & _ & _ & -> & _)%wiki_step_notes_inv.
    rewrite ensureNoteDependency_archives. simpl.
    by eapply inv_dep_archive.
  - intros t p Hp. rewrite wiki_step_notes_None.
    apply wiki_step_pending in Hp as [Hp|(-> & Hn & Hc & _)]; [|done].
    by eapply inv_pending_absent.
  - intros t p Hp.
    apply wiki_step_pending in Hp as [Hp|(-> & Hn & Hc & ->)].
    + destruct (inv_pending_refs _ _ _ Hinv t p Hp) as (H1 & H2 & H3).
      do 2 (split; [done|]). intros r Hr.
      apply wiki_step_notes_is_Some. by apply H3.
    + destruct (pendingEntry_refs s key dep) as (Hin & Hsub & Hnd).
      split; [by intros Heq; rewrite Heq in Hin; apply elem_of_nil in Hin|].
      split.
      * apply Hnd. intros p Hp.
        by destruct (inv_pending_refs _ _ _ Hinv _ p Hp) as (_ & ? & _).
      * intros r Hr. apply wiki_step_notes_is_Some.
        destruct (Hsub r Hr) as [->|(p & Hp & Hrp)]; [done|].
        destruct (inv_pending_refs _ _ _ Hinv _ p Hp) as (_ & _ & H3).
        by apply H3.
  - intros k n t (n0 & Hn0 & _ & _ & _ & Hdeps)%wiki_step_notes_inv.
    rewrite Hdeps. rewrite wiki_step_notes_None. intros Ht Hnone Hc.
    assert (t = WikiLink.targetSlug dep ∧ key = k
            ∨ is_Some (Deps.notes (Note.dependencies n0) !! t)) as [[-> ->]|Hold].
    { case_decide; [|by right].
      rewrite lookup_insert in Ht. case_decide; [left; by subst|by right]. }
    + rewrite ensureNoteDependency_pending.
      rewrite (proj2 (recordNoteDep_lookup_None _ _ _ _) Hnone), Hc.
      rewrite lookup_insert_eq. by eexists.
    + apply wiki_step_pending_mono. by eapply inv_dep_pending.
  - intros m. rewrite ensureNoteDependency_mainSlug. simpl.
    intros Hm. apply wiki_step_notes_is_Some. by eapply inv_main_note.
  - intros k n (n0 & Hn0 & _ & -> & _)%wiki_step_notes_inv.
    rewrite ensureNoteDependency_mainSlug. simpl.
    by eapply inv_isMain_main.
Qed.

Lemma archiveEntry_spec s i url src :
  let a' := archiveEntry (Session.archives s) i url src in
  src ∈ Archive.referencedBy a'
  ∧ match Session.archives s !! i with
    | Some a =>
        Archive.id a' = Archive.id a ∧ Archive.url a' = Archive.url a
        ∧ Archive.resolved a' = Archive.resolved a
        ∧ Archive.filename a' = Archive.filename a
        ∧ Archive.filePath a' = Archive.filePath a
        ∧ (NoDup (Archive.referencedBy a) → NoDup (Archive.referencedBy a'))
        ∧ (∀ r, r ∈ Archive.referencedBy a → r ∈ Archive.referencedBy a')
        ∧ (∀ r, r ∈ Archive.referencedBy a' →
                r = src ∨ r ∈ Archive.referencedBy a)
    | None =>
        a' = {| Archive.id := i; Archive.url := url;
                Archive.resolved := false; Archive.filename := None;
                Archive.filePath := None; Archive.referencedBy := [src] |}
    end.
Proof.
  unfold archiveEntry.
  destruct (Session.archives s !! i) as [a|]; simpl.
  - case_bool_decide as Hin; simpl.
    + split; [done|]. repeat split; auto.
    + split; [apply elem_of_app; right; apply list_elem_of_here|].
      do 5 (split; [done|]). split; [|split].
      * intros Hnd. apply NoDup_app. split; [done|].
        split; [|apply NoDup_singleton].
        by intros x Hx ->%list_elem_of_singleton.
      * intros r Hr. apply elem_of_app. by left.
      * intros r [Hr|Hr%list_elem_of_singleton]%elem_of_app; auto.
  - split; [apply list_elem_of_here|done].
Qed.

Lemma ext_step_notes_inv key i url text s k n :
  Session.notes (recordArchiveDep key i text (registerArchive i url key s)) !! k
    = Some n →
  ∃ n0, Session.notes s !! k = Some n0
        ∧ Note.slug n = Note.slug n0
        ∧ Note.isMain n = Note.isMain n0
        ∧ Deps.notes (Note.dependencies n) = Deps.notes (Note.dependencies n0)
        ∧ Deps.archives (Note.dependencies n)
          = if decide (key = k)
            then <[i := text]> (Deps.archives (Note.dependencies n0))
            else Deps.archives (Note.dependencies n0).
Proof.
  rewrite recordArchiveDep_lookup. simpl.
  case_decide as Hk.
  - intros (n0 & Hn0 & ->)%fmap_Some. by exists n0.
  - intros Hn. by exists n.
Qed.

Lemma ext_step_notes_is_Some key i url text s k :
  is_Some (Session.notes
             (recordArchiveDep key i text (registerArchive i url key s)) !! k)
  ↔ is_Some (Session.notes s !! k).
Proof.
  rewrite recordArchiveDep_lookup. simpl.
  case_decide; [|done]. by rewrite fmap_is_Some.
Qed.

Lemma ext_step_notes_None key i url text s k :
  Session.notes (recordArchiveDep key i text (registerArchive i url key s)) !! k
    = None
  ↔ Session.notes s !! k = None.
Proof.
  rewrite !eq_None_not_Some. by rewrite ext_step_notes_is_Some.
Qed.

Lemma ext_step_archives key i url text s :
  Session.archives (recordArchiveDep key i text (registerArchive i url key s))
  = <[i := archiveEntry (Session.archives s) i url key]> (Session.archives s).
Proof. done. Qed.

Lemma ext_step_inv E c key link s :
  let i := archiveIdFromUrl E (ExternalLink.url link) in
  session_inv E c s →
  is_Some (Session.notes s !! key) →
  session_inv E c
    (recordArchiveDep key i (ExternalLink.text link)
       (registerArchive i (ExternalLink.url link) key s)).
Proof.
  intros i Hinv Hkey.
  pose proof (archiveEntry_spec s i (ExternalLink.url link) key) as Hentry.
  simpl in Hentry. destruct Hentry as [Hsrc Hentry].
  split.
  - intros k n (n0 & Hn0 & -> & _)%ext_step_notes_inv.
    by eapply inv_note_slug.
  - intros k a. rewrite ext_step_archives, lookup_insert.
    case_decide as Hk; [|by eapply inv_archive_id].
    intros [= <-]. subst k.
    destruct (Session.archives s !! i) as [a0|] eqn:Ha0.
    + destruct Hentry as (-> & -> & _). by eapply inv_archive_id.
    + by rewrite Hentry.
  - intros k a. rewrite ext_step_archives, lookup_insert.
    case_decide as Hk; [|by eapply inv_archive_nodup].
    intros [= <-]. subst k.
    destruct (Session.archives s !! i) as [a0|] eqn:Ha0.
    + destruct Hentry as (_ & _ & _ & _ & _ & Hnd & _).
      apply Hnd. by eapply inv_archive_nodup.
    + rewrite Hentry. apply NoDup_singleton.
  - intros k n j (n0 & Hn0 & _ & _ & _ & Hdeps)%ext_step_notes_inv.
    rewrite Hdeps, ext_step_archives. intros Hj.
    destruct (decide (i = j)) as [<-|Hij]; [rewrite lookup_insert_eq; by eexists|].
    rewrite lookup_insert_ne by done.
    eapply inv_dep_archive; [done..|].
    case_decide; [|done]. by rewrite lookup_insert_ne in Hj.
  - intros t p Hp. rewrite ext_step_notes_None.
    by eapply inv_pending_absent.
  - intros t p Hp.
    destruct (inv_pending_refs _ _ _ Hinv t p Hp) as (H1 & H2 & H3).
    do 2 (split; [done|]). intros r Hr.
    apply ext_step_notes_is_Some. by apply H3.
  - intros k n t (n0 & Hn0 & _ & _ & -> & _)%ext_step_notes_inv.
    rewrite ext_step_notes_None. simpl.
    by eapply inv_dep_pending.
  - intros m Hm. apply ext_step_notes_is_Some. by eapply inv_main_note.
  - intros k n (n0 & Hn0 & _ & -> & _)%ext_step_notes_inv.
    simpl. intros Hmain. by eapply inv_isMain_main.
Qed.

Lemma updateNoteDependencies_inv E c key wikiLinks externalLinks s :
  session_inv E c s →
  is_Some (Session.notes s !! key) →
  session_inv E c
    (updateNoteDependencies E s key wikiLinks externalLinks c)
  ∧ is_Some (Session.notes
               (updateNoteDependencies E s key wikiLinks externalLinks c)
             !! key).
Proof.
  intros Hinv [n Hn]. unfold updateNoteDependencies.
  rewrite Hn. rewrite (inv_note_slug _ _ _ Hinv key n Hn).
  apply (foldl_preserves
           (λ s, session_inv E c s ∧ is_Some (Session.notes s !! key))).
  - apply (foldl_preserves
             (λ s, session_inv E c s ∧ is_Some (Session.notes s !! key)));
      [by eauto|].
    intros s' dep [Hs' Hk'] _. split.
    + by apply wiki_step_inv.
    + by apply wiki_step_notes_is_Some.
  - intros s' link [Hs' Hk'] _. split.
    + by apply ext_step_inv.
    + by apply ext_step_notes_is_Some.
Qed.

Lemma registerNote_unfold E s slug meta body fileTarget isMain wl el c :
  registerNote E s slug meta body fileTarget isMain wl el c
  = updateNoteDependencies E (noteRegistered s slug meta body fileTarget isMain)
      slug wl el c.
Proof. unfold registerNote, noteRegistered. by destruct isMain. Qed.

Lemma noteRegistered_inv E c s slug meta body fileTarget isMain :
  session_inv E c s →
  session_inv E c (noteRegistered s slug meta body fileTarget isMain).
Proof.
  intros Hinv. split; simpl.
  - intros k n. rewrite lookup_insert. case_decide as Hk.
    + intros [= <-]. by subst.
    + by eapply inv_note_slug.
  - by eapply inv_archive_id.
  - by eapply inv_archive_nodup.
  - intros k n i. rewrite lookup_insert. case_decide as Hk.
    + intros [= <-]. simpl. rewrite lookup_empty. by intros [? ?].
    + by eapply inv_dep_archive.
  - intros t p. rewrite lookup_delete. case_decide as Ht; [done|].
    rewrite lookup_insert_ne by done.
    by eapply inv_pending_absent.
  - intros t p. rewrite lookup_delete. case_decide as Ht; [done|].
    intros Hp.
    destruct (inv_pending_refs _ _ _ Hinv t p Hp) as (H1 & H2 & H3).
    do 2 (split; [done|]). intros r Hr.
    rewrite lookup_insert. case_decide; [by eexists|]. by apply H3.
  - intros k n t. rewrite lookup_insert. case_decide as Hk.
    + intros [= <-]. simpl. rewrite lookup_empty. by intros [? ?].
    + intros Hn Ht. rewrite lookup_insert. case_decide as Hts; [done|].
      intros Hnone Hc. rewrite lookup_delete_ne by done.
      by eapply inv_dep_pending.
  - intros m Hm. rewrite lookup_insert. case_decide as Hk; [by eexists|].
    destruct isMain; [by simplify_eq|].
    by eapply inv_main_note.
  - intros k n. rewrite lookup_insert. case_decide as Hk.
    + intros [= <-]. simpl. intros ->. by eexists.
    + intros Hn Hmain. destruct isMain; [by eexists|].
      by eapply inv_isMain_main.
Qed.

Lemma registerNote_inv E c s slug meta body fileTarget isMain wl el :
  session_inv E c s →
  session_inv E c (registerNote E s slug meta body fileTarget isMain wl el c).
Proof.
  intros Hinv. rewrite registerNote_unfold.
  apply updateNoteDependencies_inv.
  - by apply noteRegistered_inv.
  - simpl. rewrite lookup_insert_eq. by eexists.
Qed.

(** ** The dependency tracker, dictionary by dictionary *)

Lemma pendingAfter_ext notes1 notes2 c src wl pending :
  (∀ k, notes1 !! k = None ↔ notes2 !! k = None) →
  pendingAfter notes1 c src wl pending = pendingAfter notes2 c src wl pending.
Proof.
  intros Hdom. unfold pendingAfter. revert pending.
  induction wl as [|dep wl IH]; intros pending; [done|].
  simpl. rewrite <- IH. f_equal.
  destruct (notes1 !! _) as [n1|] eqn:H1, (notes2 !! _) as [n2|] eqn:H2;
    try done.
  - apply Hdom in H2. congruence.
  - apply Hdom in H1. congruence.
Qed.

Lemma alter_alter_notes (f g : Note.t → Note.t) key (m : gmap string Note.t) :
  alter g key (alter f key m) = alter (g ∘ f) key m.
Proof.
  apply map_eq. intros k. destruct (decide (key = k)) as [<-|Hne].
  - rewrite !lookup_alter_eq. by destruct (m !! key).
  - by rewrite !lookup_alter_ne.
Qed.

Lemma wiki_fold_eq c key wl s :
  foldl (λ session dep,
           ensureNoteDependency (recordNoteDep key dep session) c key dep)
        s wl
  = {| Session.id := Session.id s;
       Session.createdAt := Session.createdAt s;
       Session.notes :=
         alter (Note.map_dependencies
                  (λ d, {| Deps.notes := noteDepsAfter wl (Deps.notes d);
                           Deps.archives := Deps.archives d |}))
               key (Session.notes s);
       Session.archives := Session.archives s;
       Session.pendingNotes :=
         pendingAfter (Session.notes s) c key wl (Session.pendingNotes s);
       Session.mainSlug := Session.mainSlug s |}.
Proof.
  revert s. induction wl as [|dep wl IH]; intros s.
  { simpl. destruct s as [i t notes ar pn ms]. simpl. f_equal.
    symmetry. apply map_eq. intros k.
    destruct (decide (key = k)) as [<-|Hne]; [|by rewrite lookup_alter_ne].
    rewrite lookup_alter_eq.
    destruct (notes !! key) as [[? ? ? ? ? ? ? []]|]; done. }
  simpl. rewrite IH. clear IH.
  set (s1 := ensureNoteDependency (recordNoteDep key dep s) c key dep).
  assert (Session.id s1 = Session.id s ∧ Session.createdAt s1 = Session.createdAt s)
    as [-> ->].
  { unfold s1, ensureNoteDependency.
    destruct (Session.notes _ !! _); [done|].
    by destruct (findExistingFolder _ _). }
  assert (Session.archives s1 = Session.archives s) as ->
    by (unfold s1; by rewrite ensureNoteDependency_archives).
  assert (Session.mainSlug s1 = Session.mainSlug s) as ->
    by (unfold s1; by rewrite ensureNoteDependency_mainSlug).
  assert (Session.notes s1
          = alter (Note.map_dependencies
                     (Deps.set_note (WikiLink.targetSlug dep)
                        {| NoteDep.alias := WikiLink.alias dep;
                           NoteDep.targetTitle := WikiLink.targetTitle dep |}))
                  key (Session.notes s)) as Hnotes.
  { unfold s1. by rewrite ensureNoteDependency_notes. }
  f_equal.
  - rewrite Hnotes, alter_alter_notes.
    apply map_eq. intros k.
    destruct (decide (key = k)) as [<-|Hne]; [|by rewrite !lookup_alter_ne].
    rewrite !lookup_alter_eq.
    by destruct (Session.notes s !! key) as [[]|].
  - rewrite (pendingAfter_ext (Session.notes s1) (Session.notes s)).
    + unfold s1. rewrite ensureNoteDependency_pending.
      destruct (Session.notes (recordNoteDep key dep s) !! _) as [n|] eqn:Hn.
      * apply mk_is_Some, not_eq_None_Some in Hn.
        rewrite recordNoteDep_lookup_None in Hn.
        destruct (Session.notes s !! WikiLink.targetSlug dep); done.
      * apply recordNoteDep_lookup_None in Hn. by rewrite Hn.
    + intros k. rewrite Hnotes.
      destruct (decide (key = k)) as [<-|Hne];
        [|by rewrite lookup_alter_ne].
      by rewrite lookup_alter_eq, fmap_None.
Qed.

Lemma ext_fold_eq E key el s :
  foldl (λ session link,
           let archiveId := archiveIdFromUrl E (ExternalLink.url link) in
           recordArchiveDep key archiveId (ExternalLink.text link)
             (registerArchive archiveId (ExternalLink.url link) key session))
        s el
  = {| Session.id := Session.id s;
       Session.createdAt := Session.createdAt s;
       Session.notes :=
         alter (Note.map_dependencies
                  (λ d, {| Deps.notes := Deps.notes d;
                           Deps.archives :=
                             archiveDepsAfter E el (Deps.archives d) |}))
               key (Session.notes s);
       Session.archives := archivesAfter E key el (Session.archives s);
       Session.pendingNotes := Session.pendingNotes s;
       Session.mainSlug := Session.mainSlug s |}.
Proof.
  revert s. induction el as [|link el IH]; intros s.
  { simpl. destruct s as [i t notes ar pn ms]. simpl. f_equal.
    symmetry. apply map_eq. intros k.
    destruct (decide (key = k)) as [<-|Hne]; [|by rewrite lookup_alter_ne].
    rewrite lookup_alter_eq.
    destruct (notes !! key) as [[? ? ? ? ? ? ? []]|]; done. }
  simpl. rewrite IH. clear IH. simpl. f_equal.
  rewrite alter_alter_notes.
  apply map_eq. intros k.
  destruct (decide (key = k)) as [<-|Hne]; [|by rewrite !lookup_alter_ne].
  rewrite !lookup_alter_eq.
  by destruct (Session.notes s !! key) as [[]|].
Qed.

Lemma registerNote_eq E s slug meta body fileTarget isMain wl el c :
  registerNote E s slug meta body fileTarget isMain wl el c
  = {| Session.id := Session.id s;
       Session.createdAt := Session.createdAt s;
       Session.notes :=
         <[slug := noteOf E slug meta body fileTarget isMain wl el]>
           (Session.notes s);
       Session.archives := archivesAfter E slug el (Session.archives s);
       Session.pendingNotes :=
         pendingAfter
           (<[slug := noteOf E slug meta body fileTarget isMain wl el]>
              (Session.notes s))
           c slug wl (delete slug (Session.pendingNotes s));
       Session.mainSlug :=
         if isMain then Some slug else Session.mainSlug s |}.
Proof.
  rewrite registerNote_unfold. unfold updateNoteDependencies.
  simpl. rewrite lookup_insert_eq. simpl.
  rewrite wiki_fold_eq, ext_fold_eq. simpl. f_equal.
  - rewrite alter_alter_notes.
    apply map_eq. intros k.
    destruct (decide (slug = k)) as [<-|Hne].
    + by rewrite lookup_alter_eq, !lookup_insert_eq.
    + by rewrite lookup_alter_ne, !lookup_insert_ne.
  - apply pendingAfter_ext. intros k.
    destruct (decide (slug = k)) as [<-|Hne].
    + by rewrite !lookup_insert_eq.
    + by rewrite !lookup_insert_ne.
Qed.

Lemma archives_grow_refl x m : archives_grow x m m.
Proof.
  intros k. destruct (m !! k) as [a|] eqn:Ha; [|done].
  exists a. repeat split; auto.
Qed.

Lemma archives_grow_trans x m1 m2 m3 :
  archives_grow x m1 m2 → archives_grow x m2 m3 → archives_grow x m1 m3.
Proof.
  intros H12 H23 k. specialize (H12 k). specialize (H23 k).
  destruct (m1 !! k) as [a1|] eqn:H1.
  - destruct H12 as (a2 & H2 & Hid & Hurl & Hres & Hfn & Hfp & Href).
    rewrite H2 in H23.
    destruct H23 as (a3 & H3 & Hid' & Hurl' & Hres' & Hfn' & Hfp' & Href').
    exists a3. split; [done|].
    do 5 (split; [congruence|]).
    destruct Href as [Href|[Hx Href]], Href' as [Href'|[Hx' Href']].
    + left. congruence.
    + right. split; congruence.
    + right. split; congruence.
    + exfalso. apply Hx'. rewrite Href. apply elem_of_app. right.
      apply list_elem_of_here.
  - destruct (m2 !! k) as [a2|] eqn:H2.
    + destruct (H12 a2 eq_refl) as (Hid & Hres & Hfn & Hfp & Href).
      destruct H23 as (a3 & H3 & Hid' & Hurl' & Hres' & Hfn' & Hfp' & Href').
      intros a3' Ha3'. simplify_eq.
      do 4 (split; [congruence|]).
      destruct Href' as [Href'|[Hx' Href']]; [congruence|].
      exfalso. apply Hx'. rewrite Href. apply list_elem_of_here.
    + done.
Qed.

Lemma archives_grow_step x m i url :
  archives_grow x m (<[i := archiveEntry m i url x]> m).
Proof.
  intros k. destruct (decide (i = k)) as [<-|Hne].
  - rewrite lookup_insert_eq. unfold archiveEntry.
    destruct (m !! i) as [a|] eqn:Ha; simpl.
    + eexists. split; [done|]. case_bool_decide as Hin; simpl.
      * repeat split; auto.
      * do 5 (split; [done|]). by right.
    + intros a' [= <-]. done.
  - rewrite lookup_insert_ne by done.
    destruct (m !! k) as [a|] eqn:Ha; [|done].
    exists a. repeat split; auto.
Qed.

Lemma archivesAfter_grow E x el m :
  archives_grow x m (archivesAfter E x el m).
Proof.
  revert m. induction el as [|link el IH]; intros m.
  { apply archives_grow_refl. }
  simpl. eapply archives_grow_trans; [|apply IH].
  apply archives_grow_step.
Qed.

Lemma archiveEntry_has_src m i url x :
  x ∈ Archive.referencedBy (archiveEntry m i url x).
Proof.
  unfold archiveEntry. destruct (m !! i) as [a|]; simpl.
  - case_bool_decide; simpl; [done|].
    apply elem_of_app. right. apply list_elem_of_here.
  - apply list_elem_of_here.
Qed.

Lemma archives_grow_keeps_src x m m' k a :
  archives_grow x m m' →
  m !! k = Some a →
  x ∈ Archive.referencedBy a →
  ∃ a', m' !! k = Some a' ∧ x ∈ Archive.referencedBy a'.
Proof.
  intros Hg Ha Hx. specialize (Hg k). rewrite Ha in Hg.
  destruct Hg as (a' & Ha' & _ & _ & _ & _ & _ & Href).
  exists a'. split; [done|].
  destruct Href as [->|[_ ->]]; [done|].
  apply elem_of_app. by left.
Qed.

Lemma archivesAfter_link E x el m link :
  link ∈ el →
  ∃ a', archivesAfter E x el m !! archiveIdFromUrl E (ExternalLink.url link)
        = Some a'
        ∧ x ∈ Archive.referencedBy a'.
Proof.
  revert m. induction el as [|l el IH]; intros m Hin.
  { by apply elem_of_nil in Hin. }
  apply elem_of_cons in Hin as [->|Hin]; [|by apply IH].
  simpl. eapply archives_grow_keeps_src.
  - apply archivesAfter_grow.
  - apply lookup_insert_eq.
  - apply archiveEntry_has_src.
Qed.

(** ** Worlds the operations build *)

Lemma registerNote_id E s slug meta body fileTarget isMain wl el c :
  Session.id (registerNote E s slug meta body fileTarget isMain wl el c)
  = Session.id s.
Proof. by rewrite registerNote_eq. Qed.

Lemma addNote_ok E req w sum w' :
  addNote E req w = (Ok sum, w') →
  ∃ s meta body wl d1 d2 nt,
    AddNote.filename req ≠ ""
    ∧ AddNote.content req ≠ ""
    ∧ sessions w !! AddNote.sessionId req = Some s
    ∧ scope_normalizeTags E = Some nt
    ∧ draws w ≤ d1 ∧ d1 ≤ d2
    ∧ (∀ w2, draws w2 = draws w → now w2 = now w →
             parseMarkdown E (AddNote.content req) (AddNote.filename req) w2
             = (Ok (meta, body), set_draws d1 w2))
    ∧ (∀ w2, draws w2 = d1 → now w2 = now w →
             extractWikiLinks E body w2 = (Ok wl, set_draws d2 w2))
    ∧ let s' :=
        registerNote E s (Meta.slug meta)
          (Meta.set_tags (TagsMany (nt (Meta.tags meta))) meta) body
          (notePath E (AddNote.sessionId req) (Meta.slug meta))
          (AddNote.isMain req) wl (extractExternalLinks body)
          (cacheOfFolders (posts w)) in
      w' = set_sessions (<[Session.id s := s']> (sessions w))
             (afterNoteFile E req (Meta.slug meta) d2 w)
      ∧ summarizeSession s' w' = (Ok sum, w').
Proof.
  intros Hrun.
  destruct (decide (AddNote.filename req = "")) as [Hf|Hf].
  { rewrite addNote_invalid in Hrun by auto. done. }
  destruct (decide (AddNote.content req = "")) as [Hc|Hc].
  { rewrite addNote_invalid in Hrun by auto. done. }
  destruct (sessions w !! AddNote.sessionId req) as [s|] eqn:Hs.
  2:{ rewrite addNote_no_session in Hrun by done. done. }
  destruct (addNote_run E req w s Hf Hc Hs)
    as (meta & body & wl & d1 & d2 & Hd1 & Hd2 & Hparse & Hscan & Hres).
  simpl in Hres.
  destruct (scope_normalizeTags E) as [nt|] eqn:Hscope.
  2:{ rewrite Hres in Hrun. done. }
  destruct Hres as (sum' & Hrun' & Hsum).
  rewrite Hrun' in Hrun. injection Hrun as <- <-.
  exists s, meta, body, wl, d1, d2, nt.
  do 8 (split; [done|]).
  simpl. rewrite registerNote_id in Hsum |- *. done.
Qed.

Lemma addNote_world E req w :
  let w' := (addNote E req w).2 in
  posts w' = posts w
  ∧ (∀ p, is_Some (files w !! p) → is_Some (files w' !! p))
  ∧ (sessions w' = sessions w
     ∨ ∃ sum, addNote E req w = (Ok sum, w')).
Proof.
  simpl.
  destruct (decide (AddNote.filename req = "")) as [Hf|Hf].
  { rewrite addNote_invalid by auto. auto. }
  destruct (decide (AddNote.content req = "")) as [Hc|Hc].
  { rewrite addNote_invalid by auto. auto. }
  destruct (sessions w !! AddNote.sessionId req) as [s|] eqn:Hs.
  2:{ rewrite addNote_no_session by done. auto. }
  destruct (addNote_run E req w s Hf Hc Hs)
    as (meta & body & wl & d1 & d2 & Hd1 & Hd2 & Hparse & Hscan & Hres).
  simpl in Hres.
  assert (∀ p, is_Some (files w !! p) →
               is_Some (<[notePath E (AddNote.sessionId req) (Meta.slug meta)
                          := AddNote.content req]> (files w) !! p)) as Hfiles.
  { intros p Hp. rewrite lookup_insert. by case_decide. }
  destruct (scope_normalizeTags E) as [nt|] eqn:Hscope.
  - destruct Hres as (sum & Hrun & _). rewrite Hrun. simpl.
    split; [done|]. split; [done|]. right. by exists sum.
  - rewrite Hres. simpl. auto.
Qed.

Lemma getSession_world id w : (getSession id w).2 = w.
Proof.
  unfold getSession, loadSession. unfold_M.
  destruct (sessions w !! id) as [s|]; [|done].
  by destruct (summarizeSession_spec s w) as (sum & -> & _).
Qed.

Lemma addArchive_no_session E req w :
  sessions w !! AddArchive.sessionId req = None →
  ∃ e, addArchive E req w = (Throw e, w).
Proof.
  intros Hs. unfold addArchive.
  destruct (_ || _); [by eexists|].
  unfold loadSession. unfold_M. rewrite Hs. by eexists.
Qed.

Lemma archive_files_mono w w' s :
  (∀ p, is_Some (files w !! p) → is_Some (files w' !! p)) →
  archive_files w s → archive_files w' s.
Proof.
  intros Hfiles Hinv k a Ha Hr.
  destruct (Hinv k a Ha Hr) as (f & p & Hf & Hp & Hex).
  exists f, p. auto.
Qed.

Lemma defaultSession_inv E c id t : session_inv E c (defaultSession id t).
Proof. split; simpl; intros *; by rewrite ?lookup_empty. Qed.

Lemma resolve_inv E c s i f p a :
  session_inv E c s →
  Session.archives s !! i = Some a →
  session_inv E c
    (Session.set_archives (<[i := Archive.resolve f p a]> (Session.archives s)) s).
Proof.
  intros Hinv Ha. split; simpl.
  - by eapply inv_note_slug.
  - intros k a'. rewrite lookup_insert. case_decide as Hk.
    + intros [= <-]. subst k. simpl. by eapply inv_archive_id.
    + by eapply inv_archive_id.
  - intros k a'. rewrite lookup_insert. case_decide as Hk.
    + intros [= <-]. simpl. by eapply inv_archive_nodup.
    + by eapply inv_archive_nodup.
  - intros k n j Hn Hj.
    destruct (decide (i = j)) as [<-|Hij].
    + rewrite lookup_insert_eq. by eexists.
    + rewrite lookup_insert_ne by done. by eapply inv_dep_archive.
  - by eapply inv_pending_absent.
  - by eapply inv_pending_refs.
  - by eapply inv_dep_pending.
  - by eapply inv_main_note.
  - by eapply inv_isMain_main.
Qed.

Lemma createSession_world_inv E w :
  world_inv E w → world_inv E (createSession E w).2.
Proof.
  intros Hinv sid s. unfold createSession, randomId, saveSession. unfold_M.
  simpl. rewrite lookup_insert. case_decide as Hk.
  - intros [= <-]. split; [done|]. split; [apply defaultSession_inv|].
    intros k a. simpl. by rewrite lookup_empty.
  - intros Hs. destruct (Hinv sid s Hs) as (Hid & Hs' & Hf). done.
Qed.

Lemma addNote_world_inv E req w :
  world_inv E w → world_inv E (addNote E req w).2.
Proof.
  intros Hinv.
  destruct (addNote_world E req w) as (Hposts & Hfiles & Hsess).
  simpl in *.
  destruct Hsess as [Hsess|[sum Hrun]].
  - intros sid s. rewrite Hsess, Hposts. intros Hs.
    destruct (Hinv sid s Hs) as (Hid & Hs' & Hf).
    split; [done|]. split; [done|]. by eapply archive_files_mono.
  - destruct (addNote_ok E req w sum _ Hrun)
      as (s0 & meta & body & wl & d1 & d2 & nt & _ & _ & Hs0 & _ & _ & _
          & _ & _ & Hw' & _).
    simpl in Hw'. rewrite Hrun in Hfiles, Hposts |- *. simpl in *.
    destruct (Hinv _ s0 Hs0) as (Hid0 & Hinv0 & Hf0).
    intros sid s. rewrite Hposts. rewrite Hw' at 1. simpl.
    rewrite lookup_insert. case_decide as Hk.
    + intros [= <-]. rewrite registerNote_id.
      split; [done|]. split; [by apply registerNote_inv|].
      eapply archive_files_mono; [done|].
      rewrite registerNote_eq.
      intros k a. simpl. intros Ha Hr.
      pose proof (archivesAfter_grow E (Meta.slug meta)
                    (extractExternalLinks body) (Session.archives s0) k) as Hg.
      destruct (Session.archives s0 !! k) as [a0|] eqn:Ha0.
      * destruct Hg as (a' & Ha' & _ & _ & Hres & Hfn & Hfp & _).
        simplify_eq. rewrite Hfn, Hfp.
        eapply Hf0; [done|congruence].
      * destruct (Hg a Ha) as (_ & Hres & _). congruence.
    + intros Hs. destruct (Hinv sid s Hs) as (Hid & Hs' & Hf).
      split; [done|]. split; [done|]. by eapply archive_files_mono.
Qed.

Lemma addArchive_world_inv E req w :
  world_inv E w → world_inv E (addArchive E req w).2.
Proof.
  intros Hinv.
  destruct (sessions w !! AddArchive.sessionId req) as [s0|] eqn:Hs0.
  2:{ by destruct (addArchive_no_session E req w Hs0) as [e ->]. }
  destruct (addArchive_cases E req w) as (Hbad & Hnone & Hsome).
  destruct (decide (AddArchive.sourceUrl req = "")) as [Hu|Hu].
  { destruct Hbad as (e & -> & _); auto. }
  destruct (decide (AddArchive.filename req = "")) as [Hf|Hf].
  { destruct Hbad as (e & -> & _); auto. }
  destruct (decide (AddArchive.data req = "")) as [Hd|Hd].
  { destruct Hbad as (e & -> & _); auto. }
  destruct (Session.archives s0
              !! archiveIdFromUrl E (AddArchive.sourceUrl req))
    as [a|] eqn:Ha.
  2:{ by destruct (Hnone s0 Hu Hf Hd Hs0 Ha) as [-> _]. }
  destruct (Hsome s0 a Hu Hf Hd Hs0 Ha) as (_ & _ & _ & sum & -> & _).
  simpl. clear Hbad Hnone Hsome.
  destruct (Hinv _ s0 Hs0) as (Hid0 & Hinv0 & Hf0).
  intros sid s. simpl. rewrite lookup_insert. case_decide as Hk.
  - intros [= <-]. split; [done|]. split; [by apply resolve_inv|].
    intros k a'. simpl. rewrite lookup_insert. case_decide as Hka.
    + intros [= <-] _. simpl. eexists _, _. split; [done|]. split; [done|].
      rewrite lookup_insert_eq. by eexists.
    + intros Ha' Hr. destruct (Hf0 k a' Ha' Hr) as (f & p & ? & ? & Hex).
      exists f, p. split; [done|]. split; [done|].
      rewrite lookup_insert. by case_decide.
  - intros Hs. destruct (Hinv sid s Hs) as (Hid & Hs' & Hfl).
    split; [done|]. split; [done|].
    eapply archive_files_mono; [|done].
    intros p Hp. simpl. rewrite lookup_insert. by case_decide.
Qed.

Lemma exec_world_inv E o w : world_inv E w → world_inv E (exec E o w).
Proof.
  destruct o; simpl.
  - apply createSession_world_inv.
  - apply addNote_world_inv.
  - apply addArchive_world_inv.
  - by rewrite getSession_world.
Qed.

Lemma run_world_inv E ops w : world_inv E w → world_inv E (run E ops w).
Proof.
  revert w. induction ops as [|o ops IH]; intros w Hinv; [done|].
  simpl. apply IH. by apply exec_world_inv.
Qed.

Lemma reachable_world_inv E w : reachable E w → world_inv E w.
Proof.
  intros (w0 & ops & Hempty & ->). apply run_world_inv.
  intros sid s. by rewrite Hempty, lookup_empty.
Qed.


Lemma reachable_exec E o w : reachable E w → reachable E (exec E o w).
Proof.
  intros (w0 & ops & Hempty & ->). exists w0, (ops ++ [o]).
  split; [done|]. unfold run. by rewrite foldl_app.
Qed.

Lemma sample_reachable ops :
  reachable Sample.serverEnv (run Sample.serverEnv ops Sample.emptyWorld).
Proof. by exists Sample.emptyWorld, ops. Qed.

(** ** What [registerNote] stores *)

Lemma registerNote_mainSlug E s slug meta body fileTarget isMain wl el c :
  Session.mainSlug (registerNote E s slug meta body fileTarget isMain wl el c)
  = if isMain then Some slug else Session.mainSlug s.
Proof. by rewrite registerNote_eq. Qed.

Lemma registerNote_note E s slug meta body fileTarget isMain wl el c :
  Session.notes (registerNote E s slug meta body fileTarget isMain wl el c)
    !! slug
  = Some (noteOf E slug meta body fileTarget isMain wl el).
Proof. rewrite registerNote_eq. simpl. apply lookup_insert_eq. Qed.

(** ** A note upload on a stored session *)

Lemma occurrences_NoDup x l : NoDup l → x ∈ l → occurrences x l = 1.
Proof.
  unfold occurrences. induction 1 as [|y l Hy Hnd IH]; intros Hx.
  { by apply elem_of_nil in Hx. }
  rewrite filter_cons. case_decide as Hyx.
  - subst y. simpl. f_equal. apply length_zero_iff_nil.
    destruct (filter _ l) as [|z l'] eqn:Hf; [done|].
    assert (z ∈ filter (λ y, y = x) l) as Hz
      by (rewrite Hf; apply list_elem_of_here).
    apply list_elem_of_filter in Hz as [-> Hz]. done.
  - apply elem_of_cons in Hx as [->|Hx]; [done|]. by apply IH.
Qed.

Lemma addNote_ok_session E w sid req sum w' meta body wp :
  world_inv E w →
  AddNote.sessionId req = sid →
  addNote E req w = (Ok sum, w') →
  parseMarkdown E (AddNote.content req) (AddNote.filename req) w
  = (Ok (meta, body), wp) →
  ∃ s nt wl fileTarget,
    sessions w !! sid = Some s
    ∧ scope_normalizeTags E = Some nt
    ∧ sessions w'
      = <[sid := registerNote E s (Meta.slug meta)
                   (Meta.set_tags (TagsMany (nt (Meta.tags meta))) meta)
                   body fileTarget (AddNote.isMain req) wl
                   (extractExternalLinks body) (cacheOfFolders (posts w))]>
          (sessions w)
    ∧ posts w' = posts w
    ∧ summarizeSession
        (registerNote E s (Meta.slug meta)
           (Meta.set_tags (TagsMany (nt (Meta.tags meta))) meta)
           body fileTarget (AddNote.isMain req) wl
           (extractExternalLinks body) (cacheOfFolders (posts w))) w'
      = (Ok sum, w').
Proof.
  intros Hinv Hsid Hrun Hparse.
  destruct (addNote_ok E req w sum w' Hrun)
    as (s & meta' & body' & wl & d1 & d2 & nt & _ & _ & Hs & Hscope & _ & _
        & Hparse' & _ & Hw' & Hsum).
  rewrite (Hparse' w) in Hparse by done. injection Hparse as -> -> _.
  simpl in Hw', Hsum. rewrite Hsid in Hs.
  destruct (Hinv sid s Hs) as (Hid & _).
  exists s, nt, wl, (notePath E (AddNote.sessionId req) (Meta.slug meta)).
  split; [done|]. split; [done|].
  rewrite Hid in Hw'. rewrite Hw' at 1 2. done.
Qed.

(** ** Commit *)

Lemma addArchive_world E req w :
  (addArchive E req w).2 = w
  ∨ ∃ s a sum fileTarget data,
      sessions w !! AddArchive.sessionId req = Some s
      ∧ Session.archives s !! archiveIdFromUrl E (AddArchive.sourceUrl req)
        = Some a
      ∧ addArchive E req w
        = (Ok sum,
           set_sessions
             (<[Session.id s
                := Session.set_archives
                     (<[archiveIdFromUrl E (AddArchive.sourceUrl req)
                        := Archive.resolve (AddArchive.filename req)
                             fileTarget a]> (Session.archives s)) s]>
                (sessions w))
             (set_files (<[fileTarget := data]> (files w)) w)).
Proof.
  destruct (sessions w !! AddArchive.sessionId req) as [s0|] eqn:Hs0.
  2:{ left. by destruct (addArchive_no_session E req w Hs0) as [e ->]. }
  destruct (addArchive_cases E req w) as (Hbad & Hnone & Hsome).
  destruct (decide (AddArchive.sourceUrl req = "")) as [Hu|Hu].
  { left. destruct Hbad as (e & -> & _); auto. }
  destruct (decide (AddArchive.filename req = "")) as [Hf|Hf].
  { left. destruct Hbad as (e & -> & _); auto. }
  destruct (decide (AddArchive.data req = "")) as [Hd|Hd].
  { left. destruct Hbad as (e & -> & _); auto. }
  destruct (Session.archives s0
              !! archiveIdFromUrl E (AddArchive.sourceUrl req))
    as [a|] eqn:Ha.
  2:{ left. by destruct (Hnone s0 Hu Hf Hd Hs0 Ha) as [-> _]. }
  right. destruct (Hsome s0 a Hu Hf Hd Hs0 Ha) as (_ & _ & _ & sum & Hrun & _).
  exists s0, a, sum. eexists _, _. split; [done|]. split; [done|].
  exact Hrun.
Qed.

Lemma exec_notes_need_scope E o w :
  notes_need_scope E w → notes_need_scope E (exec E o w).
Proof.
  intros Hinv. destruct o; simpl.
  - intros sid s k n. unfold createSession, randomId, saveSession. unfold_M.
    simpl. rewrite lookup_insert. case_decide.
    + intros [= <-]. simpl. by rewrite lookup_empty.
    + by apply Hinv.
  - destruct (addNote_world E req w) as (_ & _ & [Hsess|[sum Hrun]]).
    + intros sid s k n. simpl in Hsess. rewrite Hsess. by apply Hinv.
    + destruct (addNote_ok E req w sum _ Hrun)
        as (s0 & meta & body & wl & d1 & d2 & nt & _ & _ & _ & Hscope & _).
      intros sid s k n _ _. rewrite Hscope. by eexists.
  - destruct (addArchive_world E req w)
      as [->|(s0 & a & sum & ft & data & Hs0 & Ha & ->)]; [done|].
    intros sid s k n. simpl. rewrite lookup_insert. case_decide.
    + intros [= <-]. simpl. by eapply Hinv.
    + by apply Hinv.
  - by rewrite getSession_world.
Qed.

Lemma run_preserves E (P : World → Prop) ops w :
  (∀ o w, P w → P (exec E o w)) → P w → P (run E ops w).
Proof.
  intros Hstep. revert w. induction ops as [|o ops IH]; intros w Hw; [done|].
  simpl. apply IH. by apply Hstep.
Qed.

Lemma reachable_notes_need_scope E w : reachable E w → notes_need_scope E w.
Proof.
  intros (w0 & ops & Hempty & ->).
  apply run_preserves; [apply exec_notes_need_scope|].
  intros sid s k n. by rewrite Hempty, lookup_empty.
Qed.

Lemma foldl_insert_lookup {A B} (key : A → string) (f : A → B)
    (l : list (string * A)) (acc : gmap string B) k :
  NoDup l.*1 →
  (∀ kv, kv ∈ l → key kv.2 = kv.1) →
  foldl (λ fm n, <[key n := f n]> fm) acc l.*2 !! k
  = match (list_to_map l : gmap string A) !! k with
    | Some n => Some (f n)
    | None => acc !! k
    end.
Proof.
  revert acc. induction l as [|[k0 n0] l IH]; intros acc Hnd Hkey.
  { simpl. by rewrite lookup_empty. }
  simpl in *. apply NoDup_cons in Hnd as [Hk0 Hnd].
  rewrite IH; [|done|intros kv Hkv; apply Hkey; by apply list_elem_of_further].
  assert (key n0 = k0) as -> by apply (Hkey (k0, n0)), list_elem_of_here.
  destruct (decide (k0 = k)) as [<-|Hne].
  - rewrite lookup_insert_eq.
    by rewrite (not_elem_of_list_to_map_1 _ _ Hk0), lookup_insert_eq.
  - rewrite (lookup_insert_ne (list_to_map l)) by done.
    destruct (list_to_map l !! k); [done|].
    by rewrite lookup_insert_ne.
Qed.

Lemma folderMapOf_eq s :
  (∀ k n, Session.notes s !! k = Some n → Note.slug n = k) →
  folderMapOf s = folderOf <$> Session.notes s.
Proof.
  intros Hslug. apply map_eq. intros k. unfold folderMapOf.
  rewrite (foldl_insert_lookup Note.slug folderOf).
  - rewrite list_to_map_to_list, lookup_fmap.
    by destruct (Session.notes s !! k).
  - apply NoDup_fst_map_to_list.
  - intros [k' n'] Hin%elem_of_map_to_list. by apply Hslug.
Qed.

Lemma keeps_files_refl w : keeps_files w w.
Proof. by intros p. Qed.

Lemma keeps_files_trans w1 w2 w3 :
  keeps_files w1 w2 → keeps_files w2 w3 → keeps_files w1 w3.
Proof. intros H12 H23 p Hp. by apply H23, H12. Qed.

Lemma keeps_files_write w path data :
  keeps_files w (set_files (<[path := data]> (files w)) w).
Proof. intros p Hp. simpl. rewrite lookup_insert. by case_decide. Qed.

Lemma draws_only_replaceAll attempt fuel s :
  (∀ s cb rest, attempt s = Some (cb, rest) → draws_only cb) →
  draws_only (replaceAll attempt fuel s).
Proof.
  intros Hcb. revert s. induction fuel as [|fuel IH]; intros s; simpl.
  { apply draws_only_ret. }
  destruct s as [|c r]; [apply draws_only_ret|].
  destruct (attempt (String c r)) as [[cb rest]|] eqn:Hm.
  - apply draws_only_bind; [by eapply Hcb|]. intros replacement.
    apply draws_only_bind; [apply IH|]. intros tail. apply draws_only_ret.
  - apply draws_only_bind; [apply IH|]. intros tail. apply draws_only_ret.
Qed.

Lemma draws_only_convertWikiLinks E body session slug folderMap cache :
  draws_only (convertWikiLinks E body session slug folderMap cache).
Proof.
  apply draws_only_replaceAll. intros s cb rest Hm.
  destruct (match_wiki s) as [[[target alias] rest']|]; [|done].
  injection Hm as <- <-.
  apply draws_only_bind; [apply draws_only_slugFromTitle|]. intros targetSlug.
  destruct (resolveNoteUrl _ _ _ _); apply draws_only_ret.
Qed.

Lemma draws_only_convertExternalLinks E body note archiveMap :
  draws_only (convertExternalLinks E body note archiveMap).
Proof.
  apply draws_only_replaceAll. intros s cb rest Hm.
  destruct (match_external s) as [[[text url] rest']|]; [|done].
  injection Hm as <- <-.
  destruct (archiveMap !! _) as [newUrl|]; [|apply draws_only_ret].
  destruct (Str.truthy newUrl); apply draws_only_ret.
Qed.

Lemma draws_only_run {A} (m : M A) w :
  draws_only m → ∃ r d, m w = (Ok r, set_draws d w).
Proof.
  intros Hm. destruct (Hm w) as (r & d & _ & Hrun).
  exists r, d. by apply Hrun.
Qed.

Lemma not_ready_iff s : not_ready s ↔ ¬ spec_ready s.
Proof.
  split.
  - intros [Hp|[(k & a & Ha & Hr)|Hm]] [[Hp' Ha'] Hm']; [done| |done].
    rewrite (Ha' k a Ha) in Hr. done.
  - intros Hn.
    destruct (decide (size (Session.pendingNotes s) = 0)) as [Hp|Hp].
    2:{ left. intros Hempty. by rewrite Hempty, map_size_empty in Hp. }
    apply map_size_empty_iff in Hp.
    destruct (pendingArchivesOf s) as [|a l] eqn:Hpa.
    2:{ right. left.
        assert (a ∈ pendingArchivesOf s) as Hin
          by (rewrite Hpa; apply list_elem_of_here).
        apply list_elem_of_filter in Hin as [Hr Hin].
        apply list_elem_of_fmap in Hin as [[k a'] [-> Hin]].
        apply elem_of_map_to_list in Hin.
        exists k, a'. split; [done|].
        simpl in Hr. by destruct (Archive.resolved a'). }
    pose proof (proj1 (pendingArchivesOf_nil s) Hpa) as Hres.
    right. right. intros Hm. by apply Hn.
Qed.

Lemma commitSession_not_ready E sid w s :
  sessions w !! sid = Some s →
  not_ready s →
  ∃ e, commitSession E sid w = (Throw e, w)
       ∧ spec_errorKind e = Some PreconditionFailed.
Proof.
  intros Hs Hn%not_ready_iff.
  destruct (assertReady_throw s w Hn) as (e & He & Hkind).
  exists e. split; [|done].
  unfold commitSession, loadSession. unfold_M. by rewrite Hs, He.
Qed.

(** ** What an upload that returns has done *)

Lemma pendingAfter_is_Some notes c src wl pm t :
  is_Some (pendingAfter notes c src wl pm !! t)
  ↔ is_Some (pm !! t)
    ∨ (t ∈ WikiLink.targetSlug <$> wl
       ∧ notes !! t = None ∧ findExistingFolder c t = None).
Proof.
  unfold pendingAfter. revert pm.
  induction wl as [|dep wl IH]; intros pm; simpl.
  { split; [by left|]. intros [?|[Hin _]]; [done|].
    by apply elem_of_nil in Hin. }
  rewrite IH. clear IH. rewrite elem_of_cons.
  destruct (notes !! WikiLink.targetSlug dep) as [n|] eqn:Hn.
  { split; [intros [?|(? & ? & ?)]; eauto|].
    intros [?|([->|?] & Hnone & ?)]; eauto. congruence. }
  destruct (findExistingFolder c (WikiLink.targetSlug dep)) as [f|] eqn:Hc.
  { split; [intros [?|(? & ? & ?)]; eauto|].
    intros [?|([->|?] & ? & Hnone)]; eauto. congruence. }
  rewrite lookup_insert_is_Some'.
  split.
  - intros [[<-|?]|(? & ? & ?)]; eauto 10.
  - intros [?|([->|?] & ? & ?)]; eauto 10.
Qed.

Lemma registerNote_pending_is_Some E s slug meta body ft isMain wl el c t :
  is_Some (Session.pendingNotes
             (registerNote E s slug meta body ft isMain wl el c) !! t)
  ↔ t ≠ slug
    ∧ (is_Some (Session.pendingNotes s !! t)
       ∨ (t ∈ WikiLink.targetSlug <$> wl
          ∧ Session.notes s !! t = None ∧ findExistingFolder c t = None)).
Proof.
  rewrite registerNote_eq. simpl. rewrite pendingAfter_is_Some.
  destruct (decide (t = slug)) as [->|Hne].
  - rewrite lookup_delete_eq, lookup_insert_eq. split.
    + intros [[? ?]|(_ & ? & _)]; done.
    + by intros [? _].
  - rewrite lookup_delete_ne, lookup_insert_ne by done. tauto.
Qed.

Lemma addNote_analysed E req w s nt :
  AddNote.filename req ≠ "" →
  AddNote.content req ≠ "" →
  sessions w !! AddNote.sessionId req = Some s →
  scope_normalizeTags E = Some nt →
  ∃ meta body wl d2,
    analysed E req (draws w) (now w) = Some (meta, body, wl, d2)
    ∧ draws w ≤ d2
    ∧ (parseMarkdown E (AddNote.content req) (AddNote.filename req) w).1
      = Ok (meta, body)
    ∧ let s' :=
        sessionAfterNote E nt req (cacheOfFolders (posts w)) s meta body wl in
      let w' :=
        set_sessions (<[Session.id s := s']> (sessions w))
          (afterNoteFile E req (Meta.slug meta) d2 w) in
      ∃ sum, addNote E req w = (Ok sum, w')
             ∧ summarizeSession s' w' = (Ok sum, w').
Proof.
  intros Hf Hc Hs Hscope.
  destruct (addNote_run E req w s Hf Hc Hs)
    as (meta & body & wl & d1 & d2 & Hd1 & Hd2 & Hparse & Hscan & Hres).
  simpl in Hres. rewrite Hscope in Hres.
  destruct Hres as (sum & Hrun & Hsum).
  exists meta, body, wl, d2. split; [|split; [lia|split]].
  - unfold analysed. rewrite (Hparse (probe (draws w) (now w))) by done.
    by rewrite (Hscan (set_draws d1 (probe (draws w) (now w)))).
  - by rewrite (Hparse w).
  - simpl. exists sum. unfold sessionAfterNote.
    rewrite registerNote_id in Hrun, Hsum. done.
Qed.

Lemma addNote_ok_analysed E req w sum w' :
  world_inv E w →
  addNote E req w = (Ok sum, w') →
  ∃ s nt meta body wl d2,
    AddNote.filename req ≠ ""
    ∧ AddNote.content req ≠ ""
    ∧ sessions w !! AddNote.sessionId req = Some s
    ∧ scope_normalizeTags E = Some nt
    ∧ analysed E req (draws w) (now w) = Some (meta, body, wl, d2)
    ∧ draws w ≤ d2
    ∧ (parseMarkdown E (AddNote.content req) (AddNote.filename req) w).1
      = Ok (meta, body)
    ∧ let s' :=
        sessionAfterNote E nt req (cacheOfFolders (posts w)) s meta body wl in
      w' = set_sessions (<[AddNote.sessionId req := s']> (sessions w))
             (afterNoteFile E req (Meta.slug meta) d2 w)
      ∧ summarizeSession s' w' = (Ok sum, w').
Proof.
  intros Hinv Hrun.
  destruct (addNote_ok E req w sum w' Hrun)
    as (s & _ & _ & _ & _ & _ & nt & Hf & Hc & Hs & Hscope & _).
  destruct (addNote_analysed E req w s nt Hf Hc Hs Hscope)
    as (meta & body & wl & d2 & Han & Hle & Hparse & sum' & Hrun' & Hsum).
  simpl in Hrun', Hsum.
  destruct (Hinv _ s Hs) as (Hid & _). rewrite Hid in Hrun', Hsum.
  rewrite Hrun in Hrun'. injection Hrun' as <- ->.
  exists s, nt, meta, body, wl, d2. do 7 (split; [done|]). done.
Qed.

Lemma addArchive_ok E req w sum w' :
  addArchive E req w = (Ok sum, w') →
  AddArchive.sourceUrl req ≠ ""
  ∧ AddArchive.filename req ≠ ""
  ∧ AddArchive.data req ≠ ""
  ∧ ∃ s a,
      sessions w !! AddArchive.sessionId req = Some s
      ∧ Session.archives s !! archiveIdFromUrl E (AddArchive.sourceUrl req)
        = Some a.
Proof.
  intros Hrun.
  destruct (addArchive_cases E req w) as (Hbad & Hnone & Hsome).
  destruct (decide (AddArchive.sourceUrl req = "")) as [Hu|Hu].
  { destruct Hbad as (e & He & _); [auto|]. rewrite He in Hrun. done. }
  destruct (decide (AddArchive.filename req = "")) as [Hf|Hf].
  { destruct Hbad as (e & He & _); [auto|]. rewrite He in Hrun. done. }
  destruct (decide (AddArchive.data req = "")) as [Hd|Hd].
  { destruct Hbad as (e & He & _); [auto|]. rewrite He in Hrun. done. }
  do 3 (split; [done|]).
  destruct (sessions w !! AddArchive.sessionId req) as [s0|] eqn:Hs0.
  2:{ destruct (addArchive_no_session E req w Hs0) as [e He].
      rewrite He in Hrun. done. }
  destruct (Session.archives s0
              !! archiveIdFromUrl E (AddArchive.sourceUrl req))
    as [a|] eqn:Ha.
  2:{ destruct (Hnone s0 Hu Hf Hd eq_refl Ha) as [He _].
      rewrite He in Hrun. done. }
  by exists s0, a.
Qed.

(** ** The module as it stands: [normalizeTags] unbound *)

Lemma untouched_default id t : untouched (defaultSession id t).
Proof. by repeat split. Qed.

(** With [normalizeTags] unbound no call of [addNote] returns, and none
    changes a stored session. *)
Lemma addNote_unbound E req w :
  scope_normalizeTags E = None →
  (∃ e, (addNote E req w).1 = Throw e)
  ∧ sessions (addNote E req w).2 = sessions w.
Proof.
  intros Hscope.
  destruct (decide (AddNote.filename req = "")) as [Hf|Hf].
  { rewrite addNote_invalid by auto. split; [by eexists|done]. }
  destruct (decide (AddNote.content req = "")) as [Hc|Hc].
  { rewrite addNote_invalid by auto. split; [by eexists|done]. }
  destruct (sessions w !! AddNote.sessionId req) as [s|] eqn:Hs.
  2:{ rewrite addNote_no_session by done. split; [by eexists|done]. }
  destruct (addNote_unbound_normalizeTags E req w s Hscope Hf Hc Hs)
    as (w' & -> & Hw').
  split; [by eexists|done].
Qed.

Lemma addArchive_untouched E req w :
  all_untouched w →
  ∃ e, addArchive E req w = (Throw e, w).
Proof.
  intros Hall.
  destruct (sessions w !! AddArchive.sessionId req) as [s|] eqn:Hs.
  2:{ by apply addArchive_no_session. }
  destruct (addArchive_cases E req w) as (Hbad & Hnone & _).
  destruct (decide (AddArchive.sourceUrl req = "")) as [Hu|Hu].
  { destruct Hbad as (e & -> & _); [auto|]. by eexists. }
  destruct (decide (AddArchive.filename req = "")) as [Hf|Hf].
  { destruct Hbad as (e & -> & _); [auto|]. by eexists. }
  destruct (decide (AddArchive.data req = "")) as [Hd|Hd].
  { destruct Hbad as (e & -> & _); [auto|]. by eexists. }
  destruct (Hall _ _ Hs) as (_ & Ha & _).
  destruct (Hnone s Hu Hf Hd Hs) as [-> _]; [by rewrite Ha|by eexists].
Qed.

Lemma not_ready_untouched s : untouched s → not_ready s.
Proof.
  intros (_ & _ & _ & Hm). right. right. unfold mainSlug_set.
  by rewrite Hm.
Qed.

Lemma commitSession_untouched E id w :
  all_untouched w →
  ∃ e, commitSession E id w = (Throw e, w).
Proof.
  intros Hall.
  destruct (sessions w !! id) as [s|] eqn:Hs.
  2:{ unfold commitSession, loadSession. unfold_M. rewrite Hs. by eexists. }
  destruct (commitSession_not_ready E id w s Hs) as (e & -> & _);
    [|by eexists].
  apply not_ready_untouched. by eapply Hall.
Qed.

Lemma serve_untouched E c w :
  scope_normalizeTags E = None →
  all_untouched w → all_untouched (serve E c w).
Proof.
  intros Hscope Hall. destruct c as [[|req|req|id]|id]; simpl.
  - intros k s. unfold createSession, randomId, saveSession. unfold_M.
    simpl. rewrite lookup_insert. case_decide.
    + intros [= <-]. apply untouched_default.
    + apply Hall.
  - destruct (addNote_unbound E req w Hscope) as [_ Hs].
    intros k s. rewrite Hs. apply Hall.
  - by destruct (addArchive_untouched E req w Hall) as [e ->].
  - by rewrite getSession_world.
  - by destruct (commitSession_untouched E id w Hall) as [e ->].
Qed.

(** As the module stands, every session the exported functions build
    holds nothing. *)
Lemma served_untouched E w :
  scope_normalizeTags E = None → served E w → all_untouched w.
Proof.
  intros Hscope (w0 & calls & Hempty & ->).
  unfold serve_all.
  induction calls as [|c calls IH] using rev_ind; simpl.
  - intros k s. by rewrite Hempty, lookup_empty.
  - rewrite foldl_app. simpl. by apply serve_untouched.
Qed.




(** ** The commit of a ready session *)

Lemma copyArchives_past_readiness E s folder destDir ids links w e w' :
  copyArchives E s folder destDir ids links w = (Throw e, w') →
  past_readiness e.
Proof.
  revert links w. induction ids as [|i ids IH]; intros links w; simpl.
  { by unfold ret. }
  destruct (Session.archives s !! i) as [a|]; [|by intros [= <- <-]].
  unfold copyFile, writeFile. unfold_M.
  destruct (Archive.filePath a) as [p|]; [|by intros [= <- <-]].
  destruct (files w !! p) as [data|]; [|by intros [= <- <-]].
  apply IH.
Qed.

Lemma commitNote_past_readiness E s folderMap cache entry w e w' :
  commitNote E s folderMap cache entry w = (Throw e, w') →
  past_readiness e.
Proof.
  destruct entry as [k n]. unfold commitNote.
  destruct (folderMap !! k) as [folder|]; [|by intros [= <- <-]].
  unfold ensurePostDir. unfold bind at 1. unfold modify_world.
  unfold bind at 1.
  destruct (copyArchives _ _ _ _ _ _ _) as [[links|e1] w1] eqn:Hcopy.
  2:{ intros [= <- <-]. by eapply copyArchives_past_readiness. }
  unfold bind at 1.
  destruct (draws_only_run _ w1
              (draws_only_convertWikiLinks E (Note.body n) s k folderMap
                 cache)) as (body1 & d1 & ->).
  unfold bind at 1.
  destruct (draws_only_run _ (set_draws d1 w1)
              (draws_only_convertExternalLinks E body1 n links))
    as (body2 & d2 & ->).
  unfold normalizeTags, writeFile. unfold_M.
  destruct (scope_normalizeTags E) as [nt|]; [done|].
  by intros [= <- <-].
Qed.

Lemma for_each_throws {A} (P : Exn → Prop) (l : list A) (body : A → M unit)
    w e w' :
  (∀ x w1 e1 w2, body x w1 = (Throw e1, w2) → P e1) →
  for_each l body w = (Throw e, w') → P e.
Proof.
  intros Hbody. revert w. induction l as [|x l IH]; intros w; simpl.
  { by unfold ret. }
  unfold bind. destruct (body x w) as [[[]|e1] w1] eqn:Hx.
  - apply IH.
  - intros [= <- <-]. by eapply Hbody.
Qed.

(** Once [assertReady] has let a session pass, nothing [commitSession]
    throws is one of its refusals. *)
Lemma commitSession_past_readiness E sid w s e w' :
  sessions w !! sid = Some s →
  spec_ready s →
  commitSession E sid w = (Throw e, w') →
  past_readiness e.
Proof.
  intros Hs Hready.
  unfold commitSession, loadSession, buildExistingCache, removeSessionDir.
  unfold_M. rewrite Hs, (assertReady_ok s w Hready).
  destruct (for_each _ _ w) as [[[]|e1] w1] eqn:Hloop; [done|].
  intros [= <- <-].
  eapply (for_each_throws past_readiness); [|exact Hloop].
  intros x w2 e2 w3. apply commitNote_past_readiness.
Qed.

Lemma commitNote_unbound E s folderMap cache entry w :
  scope_normalizeTags E = None →
  ∃ e w', commitNote E s folderMap cache entry w = (Throw e, w').
Proof.
  intros Hscope. destruct entry as [k n]. unfold commitNote.
  destruct (folderMap !! k) as [folder|]; [|by eexists _, _].
  unfold ensurePostDir. unfold bind at 1. unfold modify_world.
  unfold bind at 1.
  destruct (copyArchives _ _ _ _ _ _ _) as [[links|e1] w1] eqn:Hcopy;
    [|by eexists _, _].
  unfold bind at 1.
  destruct (draws_only_run _ w1
              (draws_only_convertWikiLinks E (Note.body n) s k folderMap
                 cache)) as (body1 & d1 & ->).
  unfold bind at 1.
  destruct (draws_only_run _ (set_draws d1 w1)
              (draws_only_convertExternalLinks E body1 n links))
    as (body2 & d2 & ->).
  unfold normalizeTags. unfold_M. rewrite Hscope. by eexists _, _.
Qed.

Lemma for_each_first_throws {A} (l : list A) (body : A → M unit) w :
  l ≠ [] →
  (∀ x w1, ∃ e w2, body x w1 = (Throw e, w2)) →
  ∃ e w', for_each l body w = (Throw e, w').
Proof.
  intros Hl Hbody. destruct l as [|x l]; [done|]. simpl. unfold bind.
  destruct (Hbody x w) as (e & w2 & ->). by eexists _, _.
Qed.

(** With [normalizeTags] unbound, the commit of a ready session that
    holds a note does not return. *)
Lemma commitSession_unbound E sid w s :
  scope_normalizeTags E = None →
  sessions w !! sid = Some s →
  spec_ready s →
  Session.notes s ≠ ∅ →
  ∃ e w', commitSession E sid w = (Throw e, w') ∧ past_readiness e.
Proof.
  intros Hscope Hs Hready Hnotes.
  assert (∃ e w', commitSession E sid w = (Throw e, w')) as (e & w' & Hrun).
  { destruct (for_each_first_throws (map_to_list (Session.notes s))
                (commitNote E s (folderMapOf s) (cacheOfFolders (posts w))) w)
      as (e & w' & Hloop).
    - intros Hnil. apply map_to_list_empty_iff in Hnil. done.
    - intros x w1. by apply commitNote_unbound.
    - unfold commitSession, loadSession, buildExistingCache.
      unfold_M. rewrite Hs, (assertReady_ok s w Hready), Hloop.
      by eexists _, _. }
  exists e, w'. split; [done|].
  by eapply commitSession_past_readiness.
Qed.


Lemma str_take_length n s : String.length (Str.take n s) ≤ n.
Proof.
  revert s. induction n as [|n IH]; intros [|c r]; simpl; try lia.
  specialize (IH r). lia.
Qed.

(** C2. [commitSession] refuses a stored session with one of the three
    messages of [assertReady] exactly when notes are pending, an archive is
    unresolved or [mainSlug] is unset, and then leaves storage as it is;
    past that check nothing it throws is such a refusal.  But with
    [normalizeTags] unbound, as uploadSessions.js leaves it, the commit of
    a ready session that holds a note never returns, and every session
    the exported functions build is refused with "No main note uploaded".
    On a stored session that holds one main note without links, nothing
    pending, [commitSession] throws [ReferenceError], which is none of the
    four kinds, and the session stays in storage. *)
Theorem commitSession_ready_session_throws :
  (∀ (E : Env) (w : World) (sid : string) (s : Session.t),
     sessions w !! sid = Some s →
     (not_ready s →
      ∃ e, commitSession E sid w = (Throw e, w)
           ∧ spec_errorKind e = Some PreconditionFailed)
     ∧ (¬ not_ready s →
        ∀ e w', commitSession E sid w = (Throw e, w') →
                spec_errorKind e ≠ Some PreconditionFailed)
     ∧ (¬ not_ready s → Session.notes s ≠ ∅ →
        scope_normalizeTags E = None →
        ∃ e w', commitSession E sid w = (Throw e, w'))
     ∧ (scope_normalizeTags E = None → served E w →
        commitSession E sid w = (Throw (Error "No main note uploaded"), w)))
  ∧ sessions readyWorld !! Sample.sid = Some Sample.sessionE
  ∧ ¬ not_ready Sample.sessionE
  ∧ (∃ n, Session.notes Sample.sessionE = {[ "e" := n ]}
          ∧ Note.body n = "plain text" ∧ Note.isMain n = true
          ∧ Note.dependencies n = Deps.empty)
  ∧ (commitSession Sample.moduleEnv Sample.sid readyWorld).1
    = Throw (ReferenceError "normalizeTags")
  ∧ spec_errorKind (ReferenceError "normalizeTags") = None
  ∧ sessions (commitSession Sample.moduleEnv Sample.sid readyWorld).2
    = sessions readyWorld.
Proof.
  split.
  { intros E w sid s Hs. split; [|split; [|split]].
    - intros Hn. by apply (commitSession_not_ready E sid w s).
    - intros Hr e w' Hrun. rewrite not_ready_iff in Hr.
      destruct (spec_ready_dec s) as [Hready|Hno]; [|done].
      by apply (commitSession_past_readiness E sid w s e w').
    - intros Hr Hnotes Hscope. rewrite not_ready_iff in Hr.
      destruct (spec_ready_dec s) as [Hready|Hno]; [|done].
      destruct (commitSession_unbound E sid w s Hscope Hs Hready Hnotes)
        as (e & w' & Hrun & _).
      by exists e, w'.
    - intros Hscope Hserved.
      destruct (served_untouched E w Hscope Hserved sid s Hs)
        as (_ & Ha & Hp & Hm).
      unfold commitSession, loadSession. unfold_M. rewrite Hs.
      unfold assertReady, pendingArchivesOf.
      rewrite Hp, Ha, Hm, map_size_empty, map_to_list_empty. done. }
  split; [vm_compute; exact eq_refl|].
  split.
  { rewrite not_ready_iff. intros Hn. apply Hn.
    split; [split|]; [vm_compute; exact eq_refl| |vm_compute; exact eq_refl].
    apply pendingArchivesOf_nil. vm_compute. exact eq_refl. }
  split.
  { eexists. split; [vm_compute; reflexivity|]. by vm_compute. }
  split; [vm_compute; exact eq_refl|].
  split; [reflexivity|].
  vm_compute. exact eq_refl.
Qed.



(** C5. The identifier of an archive is the first ten characters of the
    digest of its URL.  But with [normalizeTags] unbound no archive is ever
    registered: each of two [addNote] calls throws and leaves every stored
    session as it was, whatever the documents are; for two documents that
    link to the same URL, uploaded to a new session in either order, both
    calls throw [ReferenceError] and the session has no archive entry
    afterwards. *)
Theorem archive_entry_never_created :
  (∀ (E : Env) (url : string),
     archiveIdFromUrl E url = Str.take 10 (md5_hex E url)
     ∧ String.length (archiveIdFromUrl E url) ≤ 10)
  ∧ (∀ (E : Env) (w : World) (reqA reqB : AddNote.t),
       scope_normalizeTags E = None →
       let wA := (addNote E reqA w).2 in
       let wAB := (addNote E reqB wA).2 in
       (∃ e, (addNote E reqA w).1 = Throw e)
       ∧ (∃ e, (addNote E reqB wA).1 = Throw e)
       ∧ sessions wAB = sessions w)
  ∧ ExternalLink.url <$> extractExternalLinks (AddNote.content Sample.noteA)
    = ["http://example.com"]
  ∧ ExternalLink.url <$> extractExternalLinks (AddNote.content Sample.noteD)
    = ["http://example.com"]
  ∧ ∀ first second,
      (first = Sample.noteA ∧ second = Sample.noteD)
      ∨ (first = Sample.noteD ∧ second = Sample.noteA) →
      let E := Sample.moduleEnv in
      let w0 := (createSession E Sample.emptyWorld).2 in
      let w1 := (addNote E first w0).2 in
      let w2 := (addNote E second w1).2 in
      (addNote E first w0).1 = Throw (ReferenceError "normalizeTags")
      ∧ (addNote E second w1).1 = Throw (ReferenceError "normalizeTags")
      ∧ ∃ s, sessions w2 !! Sample.sid = Some s ∧ Session.archives s = ∅.
Proof.
  split.
  { intros E url. unfold archiveIdFromUrl, Str.slice. simpl Str.drop.
    split; [done|]. apply str_take_length. }
  split.
  { intros E w reqA reqB Hscope. cbv zeta.
    destruct (addNote_unbound E reqA w Hscope) as [HA HsA].
    destruct (addNote_unbound E reqB (addNote E reqA w).2 Hscope)
      as [HB HsB].
    split; [done|]. split; [done|]. by rewrite HsB. }
  split; [vm_compute; exact eq_refl|].
  split; [vm_compute; exact eq_refl|].
  intros first second [[-> ->]|[-> ->]]; cbv zeta.
  - split; [vm_compute; exact eq_refl|].
    split; [vm_compute; exact eq_refl|].
    eexists. split; vm_compute; reflexivity.
  - split; [vm_compute; exact eq_refl|].
    split; [vm_compute; exact eq_refl|].
    eexists. split; vm_compute; reflexivity.
Qed.





(** ** Names and paths the embedding keeps apart *)

Lemma reachable_plain_reachable E w : reachable_plain E w → reachable E w.
Proof. intros (w0 & ops & Hempty & _ & ->). by exists w0, ops. Qed.

Lemma reachable_ids_agree E w : reachable E w → ids_agree w.
Proof.
  intros Hreach sid s Hs.
  by destruct (reachable_world_inv E w Hreach sid s Hs) as (Hid & _).
Qed.

Lemma sample_reachable_plain ops :
  forallb plain_op ops = true →
  reachable_plain Sample.serverEnv (run Sample.serverEnv ops Sample.emptyWorld).
Proof. intros H. by exists Sample.emptyWorld, ops. Qed.

Lemma sessionE_publishable : publishable Sample.sessionE.
Proof.
  assert (∃ n0, Session.notes Sample.sessionE = {[ "e" := n0 ]}
                ∧ plain_segment (folderOf n0) = true
                ∧ Deps.notes (Note.dependencies n0) = ∅)
    as (n0 & Hn0 & Hplain & Hdeps).
  { eexists. split; [vm_compute; reflexivity|].
    split; vm_compute; reflexivity. }
  intros k n Hkn. rewrite Hn0 in Hkn.
  apply lookup_singleton_Some in Hkn as [<- <-].
  split; [done|]. split; [done|].
  intros t [x Hx]. by rewrite Hdeps, lookup_empty in Hx.
Qed.

Lemma sessionE_ready : spec_ready Sample.sessionE.
Proof.
  split; [split|reflexivity].
  - vm_compute. exact eq_refl.
  - intros k a Ha.
    assert (Session.archives Sample.sessionE = ∅) as Hempty
      by (vm_compute; exact eq_refl).
    by rewrite Hempty, lookup_empty in Ha.
Qed.

Lemma worldE_reachable_plain : reachable_plain Sample.serverEnv Sample.worldE.
Proof.
  by apply (sample_reachable_plain [OpCreateSession; OpAddNote Sample.noteE]).
Qed.

(** * Further properties *)

#[local] Arguments String.append !_ _ : simpl nomatch.

(** ** More on strings *)


Lemma str_app_nil_r s : s +:+ "" = s.
Proof. induction s as [|c s IH]; [done|]. simpl. by rewrite IH. Qed.

Lemma str_app_assoc a b c : (a +:+ b) +:+ c = a +:+ (b +:+ c).
Proof. induction a as [|x a IH]; [done|]. simpl. by rewrite IH. Qed.

Lemma str_length_app a b :
  String.length (a +:+ b) = String.length a + String.length b.
Proof. induction a as [|x a IH]; [done|]. simpl. by rewrite IH. Qed.

Lemma str_prefix_app p s : String.prefix p (p +:+ s) = true.
Proof.
  induction p as [|c p IH]; [by destruct s|].
  simpl. destruct (ascii_dec c c); [done|congruence].
Qed.

Lemma str_drop_app p s : Str.drop (String.length p) (p +:+ s) = s.
Proof. induction p as [|c p IH]; [by destruct s|done]. Qed.

Lemma strip_prefix_app p s : strip_prefix p (p +:+ s) = Some s.
Proof. unfold strip_prefix. by rewrite str_prefix_app, str_drop_app. Qed.

Lemma str_prefix_split p s :
  String.prefix p s = true → s = p +:+ Str.drop (String.length p) s.
Proof.
  revert s. induction p as [|c p IH]; intros s H; [by destruct s|].
  destruct s as [|d s]; [done|]. simpl in H.
  destruct (ascii_dec c d) as [->|]; [|done].
  simpl. f_equal. by apply IH.
Qed.

Lemma strip_prefix_Some p s r : strip_prefix p s = Some r → s = p +:+ r.
Proof.
  unfold strip_prefix. destruct (String.prefix p s) eqn:H; [|done].
  intros [= <-]. by apply str_prefix_split.
Qed.

(** A greedy run stops where the first excluded character stands. *)
Lemma str_span_stop p g r :
  str_forall p g = true →
  match r with "" => True | String c _ => p c = false end →
  Str.span p (g +:+ r) = (g, r).
Proof.
  intros Hg Hr. induction g as [|c g IH]; simpl.
  - destruct r as [|c r]; [done|]. simpl. by rewrite Hr.
  - simpl in Hg. apply andb_prop in Hg as [Hc Hg].
    rewrite Hc, IH; done.
Qed.

Lemma str_span_inv p s g r :
  Str.span p s = (g, r) →
  s = g +:+ r ∧ str_forall p g = true
  ∧ match r with "" => True | String c _ => p c = false end.
Proof.
  revert g r. induction s as [|c s IH]; intros g r H; simpl in H.
  - by injection H as <- <-.
  - destruct (p c) eqn:Hc.
    + destruct (Str.span p s) as [a b] eqn:Hs.
      injection H as <- <-.
      destruct (IH a b eq_refl) as (-> & Ha & Hb).
      simpl. by rewrite Hc, Ha.
    + injection H as <- <-. simpl. by rewrite Hc.
Qed.

(** ** File names, data URIs and folder permalinks *)

Lemma has_dot_app a b : has_dot (a +:+ b) = has_dot a || has_dot b.
Proof.
  induction a as [|c a IH]; [done|]. simpl. rewrite IH. by rewrite orb_assoc.
Qed.

Lemma baseName_no_dot s : has_dot s = false → baseName s = s.
Proof.
  induction s as [|c s IH]; [done|]. simpl.
  intros [Hc Hs]%orb_false_elim. rewrite Hc. simpl. by rewrite IH.
Qed.

(** [baseName] removes the last extension and nothing else: a name
    without a dot and a name that ends with a dot are returned as they
    are, and [s.ext] gives [s] when [ext] is not empty and has no dot
    (whatever dots [s] has). *)
Theorem baseName_extension (s : string) :
  (has_dot s = false → baseName s = s)
  ∧ baseName (s +:+ ".") = s +:+ "."
  ∧ (∀ ext, ext ≠ "" → has_dot ext = false →
            baseName (s +:+ "." +:+ ext) = s).
Proof.
  split; [apply baseName_no_dot|]. split.
  - change "."%string with (String "." "").
    induction s as [|c s IH]; [done|].
    simpl. rewrite IH. rewrite has_dot_app. simpl.
    by rewrite orb_true_r, !andb_false_r.
  - intros ext Hne Hdot. change ("." +:+ ext) with (String "." ext).
    induction s as [|c s IH].
    + simpl. rewrite Hdot. by destruct ext.
    + simpl. rewrite IH, has_dot_app. simpl.
      by rewrite orb_true_r, !andb_false_r.
Qed.

Lemma baseName_extension_witness :
  has_dot "README" = false
  ∧ baseName "README" = "README"
  ∧ baseName "my.note.md" = "my.note"
  ∧ baseName ".md" = "".
Proof.
  split; [done|].
  split; [by apply (baseName_extension "README")|].
  split.
  - by apply (proj2 (proj2 (baseName_extension "my.note")) "md").
  - by apply (proj2 (proj2 (baseName_extension "")) "md").
Defined.

(** [permalinkFromFolder] on a folder name of at most 11 characters
    (no room for a date, a dash and a slug) answers [/posts/<folder>/];
    on a longer one it cuts year, month and day out of the first ten
    characters and takes what follows the eleventh as slug, whatever the
    characters are. *)
Theorem permalinkFromFolder_cases (folder : string) :
  (String.length folder ≤ 11 →
   permalinkFromFolder folder = "/posts/" +:+ folder +:+ "/")
  ∧ (11 < String.length folder →
     permalinkFromFolder folder
     = "/" +:+ Str.slice 0 4 folder +:+ "/" +:+ Str.slice 5 7 folder +:+ "/"
       +:+ Str.slice 8 10 folder +:+ "/" +:+ Str.slice_from 11 folder
       +:+ "/").
Proof.
  split; intros H.
  - unfold permalinkFromFolder.
    assert (Str.slice_from 11 folder = "") as ->; [|by rewrite orb_true_r].
    do 11 (destruct folder as [|? folder]; [done|]).
    destruct folder; [done|]. simpl in H. lia.
  - do 12 (destruct folder as [|? folder]; [simpl in H; lia|]).
    reflexivity.
Qed.

Lemma permalinkFromFolder_cases_witness :
  permalinkFromFolder "drafts" = "/posts/drafts/"
  ∧ permalinkFromFolder "2024-05-06-hello" = "/2024/05/06/hello/".
Proof.
  split.
  - apply (proj1 (permalinkFromFolder_cases "drafts")). simpl. lia.
  - apply (proj2 (permalinkFromFolder_cases "2024-05-06-hello")). simpl. lia.
Defined.

Lemma stripDataUri_prefixed mime payload :
  mime ≠ "" → str_forall is_not_comma mime = true →
  stripDataUri ("data:" +:+ mime +:+ "," +:+ payload) = payload.
Proof.
  intros Hne Hmime. unfold stripDataUri.
  rewrite strip_prefix_app.
  rewrite (str_span_stop _ mime ("," +:+ payload)); [|done|done].
  destruct mime; [done|]. simpl.
  change (String "," payload) with ("," +:+ payload).
  by rewrite strip_prefix_app.
Qed.

Lemma stripDataUri_plain data :
  String.prefix "data:" data = false → stripDataUri data = data.
Proof. intros H. unfold stripDataUri, strip_prefix. by rewrite H. Qed.

(** ** Splitting and joining *)

Lemma str_rev_app_app a b c :
  String.rev_app (String.rev_app a b) c = String.rev_app b (a +:+ c).
Proof.
  revert b c. induction a as [|x a IH]; intros b c; [done|].
  simpl. by rewrite IH.
Qed.

Lemma str_rev_app_cat b c : String.rev_app b c = String.rev b +:+ c.
Proof.
  unfold String.rev. revert c. induction b as [|x b IH]; intros c; [done|].
  simpl. rewrite (IH (String x c)), (IH (String x "")).
  by rewrite str_app_assoc.
Qed.

Lemma str_rev_involutive s : String.rev (String.rev s) = s.
Proof.
  unfold String.rev. rewrite str_rev_app_app. simpl. apply str_app_nil_r.
Qed.

Lemma split_go_nonempty c cur s : Str.split_go c cur s ≠ [].
Proof.
  revert cur. induction s as [|a s IH]; intros cur; [done|].
  simpl. destruct (Ascii.eqb a c); [done|apply IH].
Qed.

Lemma split_go_sep c cur a b :
  str_forall (λ x, negb (Ascii.eqb x c)) a = true →
  Str.split_go c cur (a +:+ String c b)
  = String.rev_app cur a :: Str.split_go c "" b.
Proof.
  revert cur. induction a as [|x a IH]; intros cur H.
  - simpl. by rewrite Ascii.eqb_refl.
  - simpl in *. apply andb_prop in H as [Hx Ha].
    apply negb_true_iff in Hx. rewrite Hx. by rewrite IH.
Qed.

Lemma join_split_go c cur s :
  Str.join (String c "") (Str.split_go c cur s) = String.rev_app cur s.
Proof.
  revert cur. induction s as [|a s IH]; intros cur; [done|].
  simpl. destruct (Ascii.eqb a c) eqn:Hac.
  - apply Ascii.eqb_eq in Hac as ->.
    pose proof (split_go_nonempty c "" s) as Hne.
    pose proof (IH "") as IH0.
    destruct (Str.split_go c "" s) as [|y l]; [done|].
    change (Str.join (String c "") (String.rev cur :: y :: l))
      with (String.rev cur +:+ String c ""
            +:+ Str.join (String c "") (y :: l)).
    rewrite IH0. simpl. by rewrite (str_rev_app_cat cur).
  - apply IH.
Qed.

(** Joining the pieces of a split with the separator gives the string
    back. *)
Lemma join_split c s : Str.join (String c "") (Str.split c s) = s.
Proof. unfold Str.split. by rewrite join_split_go. Qed.

Lemma split_length c s : 1 ≤ length (Str.split c s).
Proof.
  unfold Str.split. pose proof (split_go_nonempty c "" s).
  destruct (Str.split_go c "" s); [done|simpl; lia].
Qed.

(** ** The published-post cache *)

Lemma dashed_date_parts d s :
  dashed_date d = true →
  ∃ y m dd,
    Str.split "-" (folderFromDateSlug d s) = y :: m :: dd :: Str.split "-" s.
Proof.
  intros H. unfold dashed_date in H.
  destruct d as [|y1 d]; [done|]. destruct d as [|y2 d]; [done|].
  destruct d as [|y3 d]; [done|]. destruct d as [|y4 d]; [done|].
  destruct d as [|s1 d]; [done|]. destruct d as [|m1 d]; [done|].
  destruct d as [|m2 d]; [done|]. destruct d as [|s2 d]; [done|].
  destruct d as [|d1 d]; [done|]. destruct d as [|d2 d]; [done|].
  apply andb_prop in H as [H1 H]. apply andb_prop in H1 as [H1 H2].
  apply Ascii.eqb_eq in H1 as ->. apply Ascii.eqb_eq in H2 as ->.
  simpl in H.
  repeat match goal with
         | H : _ && _ = true |- _ => apply andb_prop in H as [? H]
         end.
  exists (String y1 (String y2 (String y3 (String y4 "")))),
         (String m1 (String m2 "")), (String d1 (String d2 "")).
  change (Str.split "-" (folderFromDateSlug _ s))
    with (Str.split_go "-" ""
            (String y1 (String y2 (String y3 (String y4 ""))) +:+ String "-"
               (String m1 (String m2 "") +:+ String "-"
                  (String d1 (String d2 "") +:+ String "-" s)))).
  rewrite split_go_sep; [|simpl; by repeat (apply andb_true_intro; split)].
  rewrite split_go_sep; [|simpl; by repeat (apply andb_true_intro; split)].
  rewrite split_go_sep; [|simpl; by repeat (apply andb_true_intro; split)].
  reflexivity.
Qed.

Lemma cacheSlug_dated d s :
  dashed_date d = true → s ≠ "" →
  cacheSlug (folderFromDateSlug d s)
    (Str.split "-" (folderFromDateSlug d s)) = s
  ∧ (length (Str.split "-" (folderFromDateSlug d s)) <? 2) = false.
Proof.
  intros Hd Hs. destruct (dashed_date_parts d s Hd) as (y & m & dd & ->).
  split.
  - unfold cacheSlug.
    change (drop 3 (y :: m :: dd :: Str.split "-" s)) with (Str.split "-" s).
    rewrite join_split.
    by rewrite (proj2 (str_truthy_true s) Hs).
  - pose proof (split_length "-" s). simpl length.
    apply Nat.ltb_ge. lia.
Qed.

Lemma cacheOfFolders_snoc l f :
  cacheOfFolders (l ++ [f])
  = if length (Str.split "-" f) <? 2 then cacheOfFolders l
    else <[cacheSlug f (Str.split "-" f) := f]> (cacheOfFolders l).
Proof. unfold cacheOfFolders. by rewrite foldl_snoc. Qed.

Lemma cacheOfFolders_sound folders slug f :
  cacheOfFolders folders !! slug = Some f →
  f ∈ folders
  ∧ 2 ≤ length (Str.split "-" f)
  ∧ cacheSlug f (Str.split "-" f) = slug.
Proof.
  revert slug f. induction folders as [|g l IH] using rev_ind; intros slug f.
  - unfold cacheOfFolders. simpl. by rewrite lookup_empty.
  - rewrite cacheOfFolders_snoc.
    destruct (length (Str.split "-" g) <? 2) eqn:Hlen.
    + intros H. destruct (IH _ _ H) as (Hin & Hrest).
      split; [apply elem_of_app; by left|done].
    + apply Nat.ltb_ge in Hlen.
      destruct (decide (cacheSlug g (Str.split "-" g) = slug)) as [<-|Hne].
      * rewrite lookup_insert_eq. intros [= <-].
        split; [apply elem_of_app; right; apply list_elem_of_here|done].
      * rewrite lookup_insert_ne by done. intros H.
        destruct (IH _ _ H) as (Hin & Hrest).
        split; [apply elem_of_app; by left|done].
Qed.

Lemma cacheOfFolders_complete folders f :
  f ∈ folders →
  2 ≤ length (Str.split "-" f) →
  is_Some (cacheOfFolders folders !! cacheSlug f (Str.split "-" f)).
Proof.
  induction folders as [|g l IH] using rev_ind; intros Hin Hlen.
  - by apply elem_of_nil in Hin.
  - rewrite cacheOfFolders_snoc.
    apply elem_of_app in Hin as [Hin|Hin].
    + destruct (length (Str.split "-" g) <? 2); [by apply IH|].
      destruct (decide (cacheSlug g (Str.split "-" g)
                        = cacheSlug f (Str.split "-" f))) as [->|Hne].
      * rewrite lookup_insert_eq. by eexists.
      * rewrite lookup_insert_ne by done. by apply IH.
    + apply list_elem_of_singleton in Hin as ->.
      apply Nat.ltb_ge in Hlen as Hlen'. rewrite Hlen'.
      rewrite lookup_insert_eq. by eexists.
Qed.

Lemma split_dash_nonempty f : 2 ≤ length (Str.split "-" f) → f ≠ "".
Proof. intros H ->. simpl in H. lia. Qed.

(** For a slug that is no member name of [Object.prototype], every entry
    of the published-post cache is a folder of the posts directory whose
    name holds a dash, filed under the slug read off that name; a folder
    name without a dash is in no entry. *)
Theorem cache_entries_are_folders (folders : list string) (slug f : string) :
  slug ∉ inherited_names →
  findExistingFolder (cacheOfFolders folders) slug = Some f →
  f ∈ folders
  ∧ f ≠ ""
  ∧ 2 ≤ length (Str.split "-" f)
  ∧ cacheSlug f (Str.split "-" f) = slug.
Proof.
  intros _. unfold findExistingFolder.
  destruct (cacheOfFolders folders !! slug) as [g|] eqn:Hg; [|done].
  destruct (Str.truthy g); [|done]. intros [= <-].
  destruct (cacheOfFolders_sound _ _ _ Hg) as (Hin & Hlen & Hslug).
  split; [done|]. split; [by apply split_dash_nonempty|done].
Qed.

Lemma cache_entries_are_folders_witness :
  let folders := ["2024-05-06-hello-world"; "drafts"] in
  ("hello-world" ∉ inherited_names)
  ∧ findExistingFolder (cacheOfFolders folders) "hello-world"
    = Some "2024-05-06-hello-world"
  ∧ "2024-05-06-hello-world" ∈ folders
  ∧ findExistingFolder (cacheOfFolders folders) "drafts" = None.
Proof.
  cbv zeta.
  assert ("hello-world" ∉ inherited_names) as Hown
    by not_inherited.
  assert (findExistingFolder
            (cacheOfFolders ["2024-05-06-hello-world"; "drafts"])
            "hello-world" = Some "2024-05-06-hello-world") as H
    by (vm_compute; exact eq_refl).
  split; [exact Hown|]. split; [exact H|].
  split; [exact (proj1 (cache_entries_are_folders _ _ _ Hown H))|].
  vm_compute; exact eq_refl.
Defined.

Lemma cacheOfFolders_dated folders d s :
  dashed_date d = true → s ≠ "" →
  folderFromDateSlug d s ∈ folders →
  ∃ f, findExistingFolder (cacheOfFolders folders) s = Some f ∧ f ∈ folders.
Proof.
  intros Hd Hs Hin. destruct (cacheSlug_dated d s Hd Hs) as [Hslug Hlen].
  destruct (cacheOfFolders_complete folders _ Hin) as [f Hf].
  { apply Nat.ltb_ge in Hlen. lia. }
  rewrite Hslug in Hf.
  destruct (cacheOfFolders_sound _ _ _ Hf) as (Hfin & Hflen & _).
  exists f. split; [|done].
  unfold findExistingFolder. rewrite Hf.
  by rewrite (proj2 (str_truthy_true f) (split_dash_nonempty f Hflen)).
Qed.

(** A folder named after a date and a slug, as [commitSession] names the
    folders it writes, is found again under that slug, [__proto__] apart
    (an assignment under that name files nothing): when the posts
    directory holds the folder, the published-post cache has an entry for
    the slug, and the entry is that folder when the directory lists it
    last. *)
Theorem cache_finds_dated_folder (folders : list string) (d s : string) :
  dashed_date d = true →
  s ≠ "" →
  s ≠ "__proto__" →
  (folderFromDateSlug d s ∈ folders →
   ∃ f, findExistingFolder (cacheOfFolders folders) s = Some f
        ∧ f ∈ folders)
  ∧ findExistingFolder (cacheOfFolders (folders ++ [folderFromDateSlug d s])) s
    = Some (folderFromDateSlug d s).
Proof.
  intros Hd Hs _. destruct (cacheSlug_dated d s Hd Hs) as [Hslug Hlen].
  split.
  - by apply cacheOfFolders_dated.
  - unfold findExistingFolder.
    rewrite cacheOfFolders_snoc, Hlen, Hslug, lookup_insert_eq.
    apply Nat.ltb_ge in Hlen.
    by rewrite (proj2 (str_truthy_true _) (split_dash_nonempty _ Hlen)).
Qed.

Lemma cache_finds_dated_folder_witness :
  let d := "2024-05-06T07:08:09.000Z" in
  dashed_date d = true
  ∧ "hello-world" ≠ ""
  ∧ "hello-world" ≠ "__proto__"
  ∧ findExistingFolder
      (cacheOfFolders (["2023-01-01-old"] ++ [folderFromDateSlug d "hello-world"]))
      "hello-world"
    = Some "2024-05-06-hello-world".
Proof.
  cbv zeta. split; [reflexivity|]. split; [done|]. split; [done|].
  by apply (cache_finds_dated_folder ["2023-01-01-old"]
              "2024-05-06T07:08:09.000Z" "hello-world").
Defined.

(** ** The link patterns *)

Lemma match_external_inv s t u rest :
  match_external s = Some (t, u, rest) →
  ∃ g,
    s = "[" +:+ t +:+ "](" +:+ u +:+ ")" +:+ rest
    ∧ t ≠ "" ∧ str_forall is_not_rbracket t = true
    ∧ g ≠ "" ∧ str_forall is_url_char g = true
    ∧ (u = "http://" +:+ g ∨ u = "https://" +:+ g).
Proof.
  unfold match_external.
  destruct (strip_prefix "[" s) as [r|] eqn:H0; [|done].
  apply strip_prefix_Some in H0 as ->.
  destruct (Str.span is_not_rbracket r) as [g1 r1] eqn:H1.
  apply str_span_inv in H1 as (-> & Hg1 & _).
  destruct (Str.truthy g1) eqn:Ht1; [|done]. simpl negb. cbv iota.
  apply str_truthy_true in Ht1.
  destruct (strip_prefix "](http" r1) as [r2|] eqn:H2; [|done].
  apply strip_prefix_Some in H2 as ->.
  destruct (strip_prefix "s" r2) as [r3|] eqn:H3.
  - apply strip_prefix_Some in H3 as ->.
    destruct (strip_prefix "://" r3) as [r4|] eqn:H4; [|done].
    apply strip_prefix_Some in H4 as ->.
    destruct (Str.span is_url_char r4) as [g r5] eqn:H5.
    apply str_span_inv in H5 as (-> & Hg & _).
    destruct (Str.truthy g) eqn:Ht; [|done]. simpl negb. cbv iota.
    apply str_truthy_true in Ht.
    destruct (strip_prefix ")" r5) as [r6|] eqn:H6; [|done].
    apply strip_prefix_Some in H6 as ->.
    intros [= <- <- <-]. exists g.
    split; [|repeat split; try done; by right].
    simpl; f_equal; by rewrite ?str_app_assoc.
  - destruct (strip_prefix "://" r2) as [r4|] eqn:H4; [|done].
    apply strip_prefix_Some in H4 as ->.
    destruct (Str.span is_url_char r4) as [g r5] eqn:H5.
    apply str_span_inv in H5 as (-> & Hg & _).
    destruct (Str.truthy g) eqn:Ht; [|done]. simpl negb. cbv iota.
    apply str_truthy_true in Ht.
    destruct (strip_prefix ")" r5) as [r6|] eqn:H6; [|done].
    apply strip_prefix_Some in H6 as ->.
    intros [= <- <- <-]. exists g.
    split; [|repeat split; try done; by left].
    simpl; f_equal; by rewrite ?str_app_assoc.
Qed.

Lemma match_external_complete t g rest (secure : bool) :
  t ≠ "" → str_forall is_not_rbracket t = true →
  g ≠ "" → str_forall is_url_char g = true →
  let scheme := if secure then "https://" else "http://" in
  match_external ("[" +:+ t +:+ "](" +:+ (scheme +:+ g) +:+ ")" +:+ rest)
  = Some (t, scheme +:+ g, rest).
Proof.
  intros Ht Hft Hg Hfg scheme. unfold match_external.
  rewrite strip_prefix_app.
  rewrite (str_span_stop _ t ("](" +:+ (scheme +:+ g) +:+ ")" +:+ rest));
    [|done|done].
  rewrite (proj2 (str_truthy_true t) Ht). simpl negb. cbv iota.
  destruct secure; subst scheme.
  - change ("](" +:+ ("https://" +:+ g) +:+ ")" +:+ rest)
      with ("](http" +:+ "s" +:+ "://" +:+ g +:+ ")" +:+ rest).
    rewrite strip_prefix_app, strip_prefix_app, strip_prefix_app.
    rewrite (str_span_stop _ g (")" +:+ rest)); [|done|done].
    rewrite (proj2 (str_truthy_true g) Hg). simpl negb. cbv iota.
    by rewrite strip_prefix_app.
  - change ("](" +:+ ("http://" +:+ g) +:+ ")" +:+ rest)
      with ("](http" +:+ "://" +:+ g +:+ ")" +:+ rest).
    rewrite strip_prefix_app.
    assert (strip_prefix "s" ("://" +:+ g +:+ ")" +:+ rest) = None) as ->.
    { reflexivity. }
    rewrite strip_prefix_app.
    rewrite (str_span_stop _ g (")" +:+ rest)); [|done|done].
    rewrite (proj2 (str_truthy_true g) Hg). simpl negb. cbv iota.
    by rewrite strip_prefix_app.
Qed.

Lemma match_external_shrinks s t u rest :
  match_external s = Some (t, u, rest) →
  String.length rest < String.length s.
Proof.
  intros (g & -> & _)%match_external_inv.
  rewrite !str_length_app. simpl. lia.
Qed.

Lemma match_external_lbracket c r :
  is_not_lbracket c = true → match_external (String c r) = None.
Proof.
  intros H. unfold match_external, strip_prefix.
  assert (String.prefix "[" (String c r) = false) as ->; [|done].
  unfold is_not_lbracket in H. apply negb_true_iff in H.
  apply Ascii.eqb_neq in H. cbn [String.prefix].
  destruct (ascii_dec "[" c); [congruence|done].
Qed.

(** ** The scanning loop *)

Section Scan.
Context {A : Type} (attempt : string → option (A * string)).
Hypothesis attempt_shrinks :
  ∀ s a r, attempt s = Some (a, r) → String.length r < String.length s.

Lemma scan_fuel fuel1 fuel2 s :
  String.length s ≤ fuel1 → String.length s ≤ fuel2 →
  scan attempt fuel1 s = scan attempt fuel2 s.
Proof.
  revert fuel2 s. induction fuel1 as [|fuel1 IH]; intros fuel2 s H1 H2.
  - destruct s; [by destruct fuel2|simpl in H1; lia].
  - destruct s as [|c r]; [by destruct fuel2|].
    destruct fuel2 as [|fuel2]; [simpl in H2; lia|].
    simpl in H1, H2. simpl.
    destruct (attempt (String c r)) as [[a rest]|] eqn:Hatt.
    + apply attempt_shrinks in Hatt. simpl in Hatt.
      f_equal. apply IH; lia.
    + apply IH; lia.
Qed.

Lemma scan_hit s a rest :
  attempt s = Some (a, rest) → s ≠ "" →
  scan attempt (String.length s) s
  = a :: scan attempt (String.length rest) rest.
Proof.
  intros Hatt Hne. destruct s as [|c r]; [done|].
  simpl. rewrite Hatt. f_equal.
  apply attempt_shrinks in Hatt. simpl in Hatt.
  apply scan_fuel; lia.
Qed.

Lemma scan_skip (p : ascii → bool) pre s :
  (∀ c r, p c = true → attempt (String c r) = None) →
  str_forall p pre = true →
  scan attempt (String.length (pre +:+ s)) (pre +:+ s)
  = scan attempt (String.length s) s.
Proof.
  intros Hp. induction pre as [|c pre IH]; intros Hpre; [done|].
  simpl in Hpre. apply andb_prop in Hpre as [Hc Hpre].
  simpl. rewrite (Hp c _ Hc). by apply IH.
Qed.

Hypothesis attempt_suffix :
  ∀ s a r, attempt s = Some (a, r) → ∃ m, s = m +:+ r.

Lemma scan_sound fuel s x :
  x ∈ scan attempt fuel s →
  ∃ pre s1 rest, s = pre +:+ s1 ∧ attempt s1 = Some (x, rest).
Proof.
  revert s. induction fuel as [|fuel IH]; intros s Hx.
  - by apply elem_of_nil in Hx.
  - destruct s as [|c r]; [by apply elem_of_nil in Hx|].
    simpl in Hx.
    destruct (attempt (String c r)) as [[a rest]|] eqn:Hatt.
    + apply elem_of_cons in Hx as [->|Hx].
      * by exists "", (String c r), rest.
      * destruct (IH _ Hx) as (pre & s1 & rest' & Hrest & Hs1).
        destruct (attempt_suffix _ _ _ Hatt) as [m Hm].
        exists (m +:+ pre), s1, rest'. split; [|done].
        by rewrite Hm, Hrest, str_app_assoc.
    + destruct (IH _ Hx) as (pre & s1 & rest' & -> & Hs1).
      by exists (String c pre), s1, rest'.
Qed.
End Scan.

(** ** What [extractExternalLinks] finds *)

Lemma external_attempt_shrinks s a r :
  external_attempt s = Some (a, r) → String.length r < String.length s.
Proof.
  unfold external_attempt.
  destruct (match_external s) as [[[t u] rest]|] eqn:H; [|done].
  intros [= <- <-]. by eapply match_external_shrinks.
Qed.

Lemma external_attempt_suffix s a r :
  external_attempt s = Some (a, r) → ∃ m, s = m +:+ r.
Proof.
  unfold external_attempt.
  destruct (match_external s) as [[[t u] rest]|] eqn:H; [|done].
  intros [= <- <-]. apply match_external_inv in H as (g & -> & _).
  exists ("[" +:+ t +:+ "](" +:+ u +:+ ")").
  by rewrite !str_app_assoc.
Qed.

(** Every link [extractExternalLinks] returns stands in the body as
    [[text](url)]: the text is not empty and has no closing bracket, the
    URL is [http://] or [https://] followed by at least one character,
    none of them a closing parenthesis or white space. *)
Theorem extractExternalLinks_sound (body : string) (l : ExternalLink.t) :
  l ∈ extractExternalLinks body →
  ∃ pre post g,
    body = pre +:+ "[" +:+ ExternalLink.text l +:+ "]("
           +:+ ExternalLink.url l +:+ ")" +:+ post
    ∧ ExternalLink.text l ≠ ""
    ∧ str_forall is_not_rbracket (ExternalLink.text l) = true
    ∧ g ≠ ""
    ∧ str_forall is_url_char g = true
    ∧ (ExternalLink.url l = "http://" +:+ g
       ∨ ExternalLink.url l = "https://" +:+ g).
Proof.
  unfold extractExternalLinks. intros Hl.
  apply (scan_sound external_attempt external_attempt_suffix) in Hl
    as (pre & s1 & rest & -> & Hs1).
  unfold external_attempt in Hs1.
  destruct (match_external s1) as [[[t u] rest']|] eqn:H; [|done].
  injection Hs1 as <- <-. simpl.
  apply match_external_inv in H as (g & -> & Hrest).
  by exists pre, rest', g.
Qed.

Lemma extractExternalLinks_sound_witness :
  let body := "see [[B]] and [Example](http://example.com)" in
  let l := {| ExternalLink.text := "Example";
              ExternalLink.url := "http://example.com" |} in
  l ∈ extractExternalLinks body
  ∧ ∃ pre post,
      body = pre +:+ "[" +:+ ExternalLink.text l +:+ "]("
             +:+ ExternalLink.url l +:+ ")" +:+ post.
Proof.
  cbv zeta.
  assert ({| ExternalLink.text := "Example";
             ExternalLink.url := "http://example.com" |}
          ∈ extractExternalLinks "see [[B]] and [Example](http://example.com)")
    as H by (vm_compute; apply list_elem_of_here).
  split; [exact H|].
  destruct (extractExternalLinks_sound _ _ H) as (pre & post & g & Hb & _).
  by exists pre, post.
Defined.

(** A link [[text](url)] that follows text without an opening bracket is
    the first link found, and the scan goes on after its closing
    parenthesis. *)
Theorem extractExternalLinks_cons (pre t g post : string) (secure : bool) :
  str_forall is_not_lbracket pre = true →
  t ≠ "" → str_forall is_not_rbracket t = true →
  g ≠ "" → str_forall is_url_char g = true →
  let url := (if secure then "https://" else "http://") +:+ g in
  extractExternalLinks (pre +:+ "[" +:+ t +:+ "](" +:+ url +:+ ")" +:+ post)
  = {| ExternalLink.text := t; ExternalLink.url := url |}
    :: extractExternalLinks post.
Proof.
  intros Hpre Ht Hft Hg Hfg url. subst url. unfold extractExternalLinks.
  fold external_attempt.
  rewrite (scan_skip external_attempt is_not_lbracket pre); [|..|done].
  2:{ intros c r Hc. unfold external_attempt.
      by rewrite match_external_lbracket. }
  apply (scan_hit external_attempt external_attempt_shrinks); [|done].
  unfold external_attempt.
  by rewrite (match_external_complete t g post secure).
Qed.

Lemma extractExternalLinks_cons_witness :
  extractExternalLinks "read [Example](http://example.com) and [B](https://b.org)."
  = {| ExternalLink.text := "Example";
       ExternalLink.url := "http://example.com" |}
    :: extractExternalLinks " and [B](https://b.org).".
Proof.
  by apply (extractExternalLinks_cons "read " "Example" "example.com"
              " and [B](https://b.org)." false).
Defined.

(** ** The replacing loop *)

Lemma bind_ret_r {A} (m : M A) w : bind m (λ a, ret a) w = m w.
Proof. unfold bind, ret. by destruct (m w) as [[a|e] w']. Qed.

Section ReplaceAll.
Context (attempt : string → option (M string * string)).
Hypothesis attempt_shrinks :
  ∀ s cb r, attempt s = Some (cb, r) → String.length r < String.length s.

Lemma replaceAll_fuel fuel1 fuel2 s w :
  String.length s ≤ fuel1 → String.length s ≤ fuel2 →
  replaceAll attempt fuel1 s w = replaceAll attempt fuel2 s w.
Proof.
  revert fuel2 s w. induction fuel1 as [|fuel1 IH]; intros fuel2 s w H1 H2.
  - destruct s; [by destruct fuel2|simpl in H1; lia].
  - destruct s as [|c r]; [by destruct fuel2|].
    destruct fuel2 as [|fuel2]; [simpl in H2; lia|].
    simpl in H1, H2. simpl.
    destruct (attempt (String c r)) as [[cb rest]|] eqn:Hatt.
    + apply attempt_shrinks in Hatt. simpl in Hatt.
      unfold bind. destruct (cb w) as [[repl|e] w1]; [|done].
      rewrite (IH fuel2 rest w1) by lia. done.
    + unfold bind. rewrite (IH fuel2 r w) by lia. done.
Qed.

Lemma replaceAll_hit s cb rest w :
  attempt s = Some (cb, rest) → s ≠ "" →
  replaceAll attempt (String.length s) s w
  = bind cb (λ replacement,
       bind (replaceAll attempt (String.length rest) rest)
            (λ tail, ret (replacement +:+ tail))) w.
Proof.
  intros Hatt Hne. destruct s as [|c r]; [done|].
  simpl. rewrite Hatt.
  apply attempt_shrinks in Hatt. simpl in Hatt.
  unfold bind. destruct (cb w) as [[repl|e] w1]; [|done].
  rewrite (replaceAll_fuel _ (String.length rest)) by lia. done.
Qed.

Lemma replaceAll_skip (p : ascii → bool) pre s w :
  (∀ c r, p c = true → attempt (String c r) = None) →
  str_forall p pre = true →
  replaceAll attempt (String.length (pre +:+ s)) (pre +:+ s) w
  = bind (replaceAll attempt (String.length s) s)
         (λ tail, ret (pre +:+ tail)) w.
Proof.
  intros Hp. revert w. induction pre as [|c pre IH]; intros w Hpre.
  - simpl. by rewrite bind_ret_r.
  - simpl in Hpre. apply andb_prop in Hpre as [Hc Hpre].
    simpl. rewrite (Hp c _ Hc).
    unfold bind at 1. rewrite (IH w Hpre).
    unfold bind, ret.
    by destruct (replaceAll attempt (String.length s) s w) as [[t|e] w1].
Qed.
End ReplaceAll.

(** ** What [convertExternalLinks] rewrites *)

Lemma convert_attempt_shrinks E (archiveMap : gmap string string) s cb r :
  convert_external_attempt E archiveMap s = Some (cb, r) →
  String.length r < String.length s.
Proof.
  unfold convert_external_attempt.
  destruct (match_external s) as [[[t u] rest]|] eqn:H; [|done].
  intros [= <- <-]. by eapply match_external_shrinks.
Qed.

Lemma convertExternalLinks_unfold E body note archiveMap :
  convertExternalLinks E body note archiveMap
  = replaceAll (convert_external_attempt E archiveMap)
      (String.length body) body.
Proof. reflexivity. Qed.

Lemma convertExternalLinks_pure_from E (archiveMap : gmap string string)
    fuel s w :
  ∃ r, replaceAll (convert_external_attempt E archiveMap) fuel s w
       = (Ok r, w).
Proof.
  revert s w. induction fuel as [|fuel IH]; intros s w; [by eexists|].
  destruct s as [|c r]; [by eexists|].
  simpl. unfold convert_external_attempt at 1.
  destruct (match_external (String c r)) as [[[t u] rest]|] eqn:H.
  - destruct (IH rest w) as [tail Htail].
    unfold bind.
    destruct (archiveMap !! archiveIdFromUrl E u) as [newUrl|];
      [destruct (Str.truthy newUrl)|];
      unfold ret; rewrite Htail; by eexists.
  - destruct (IH r w) as [tail Htail].
    unfold bind, ret. rewrite Htail. by eexists.
Qed.

Lemma convertExternalLinks_same_from E (archiveMap : gmap string string)
    fuel s w :
  (∀ l, l ∈ scan external_attempt fuel s →
        Str.truthy_opt
          (archiveMap !! archiveIdFromUrl E (ExternalLink.url l)) = false) →
  replaceAll (convert_external_attempt E archiveMap) fuel s w = (Ok s, w).
Proof.
  revert s w. induction fuel as [|fuel IH]; intros s w Hl; [done|].
  destruct s as [|c r]; [done|].
  simpl in *. unfold convert_external_attempt at 1.
  unfold external_attempt at 1 in Hl.
  destruct (match_external (String c r)) as [[[t u] rest]|] eqn:H.
  - pose proof (Hl _ (list_elem_of_here _ _)) as Hu. simpl in Hu.
    apply match_external_inv in H as (g & Hs & _).
    unfold bind.
    assert ((match archiveMap !! archiveIdFromUrl E u with
             | Some newUrl =>
                 if Str.truthy newUrl
                 then ret ("[" +:+ t +:+ "](" +:+ newUrl +:+ ")")
                 else ret ("[" +:+ t +:+ "](" +:+ u +:+ ")")
             | None => ret ("[" +:+ t +:+ "](" +:+ u +:+ ")")
             end) w = (Ok ("[" +:+ t +:+ "](" +:+ u +:+ ")"), w)) as ->.
    { destruct (archiveMap !! archiveIdFromUrl E u) as [newUrl|];
        [|done]. simpl in Hu. by rewrite Hu. }
    rewrite (IH rest w)
      by (intros l Hin; apply Hl; by apply list_elem_of_further).
    unfold ret. f_equal. f_equal.
    rewrite Hs. by rewrite !str_app_assoc.
  - unfold bind, ret. by rewrite (IH r w).
Qed.

(** [convertExternalLinks] returns the body as it is when the archive map
    has no (non-empty) entry for any of its external links. *)
Theorem convertExternalLinks_unmapped (E : Env) (body : string)
    (note : Note.t) (archiveMap : gmap string string) (w : World) :
  (∀ l, l ∈ extractExternalLinks body →
        Str.truthy_opt
          (archiveMap !! archiveIdFromUrl E (ExternalLink.url l)) = false) →
  convertExternalLinks E body note archiveMap w = (Ok body, w).
Proof.
  intros H. rewrite convertExternalLinks_unfold.
  by apply convertExternalLinks_same_from.
Qed.

Lemma convertExternalLinks_unmapped_witness :
  convertExternalLinks Sample.serverEnv "read [Example](http://example.com)"
    SampleNotes.storedC
    ∅ Sample.emptyWorld
  = (Ok "read [Example](http://example.com)", Sample.emptyWorld).
Proof.
  apply (convertExternalLinks_unmapped Sample.serverEnv).
  intros l _. by rewrite lookup_empty.
Defined.

(** A link [[text](url)] that follows text without an opening bracket is
    rewritten to the address the archive map gives the hash of its URL,
    the text kept, and left as it is when the map has none; the rest of the
    body is converted in the same way.  Nothing is read from or written to
    the world. *)
Theorem convertExternalLinks_cons (E : Env) (pre t g post : string)
    (secure : bool) (note : Note.t) (archiveMap : gmap string string)
    (w : World) :
  str_forall is_not_lbracket pre = true →
  t ≠ "" → str_forall is_not_rbracket t = true →
  g ≠ "" → str_forall is_url_char g = true →
  let url := (if secure then "https://" else "http://") +:+ g in
  let target :=
    match archiveMap !! archiveIdFromUrl E url with
    | Some newUrl => if Str.truthy newUrl then newUrl else url
    | None => url
    end in
  ∃ post',
    convertExternalLinks E post note archiveMap w = (Ok post', w)
    ∧ convertExternalLinks E
        (pre +:+ "[" +:+ t +:+ "](" +:+ url +:+ ")" +:+ post) note archiveMap w
      = (Ok (pre +:+ "[" +:+ t +:+ "](" +:+ target +:+ ")" +:+ post'), w).
Proof.
  intros Hpre Ht Hft Hg Hfg url target.
  destruct (convertExternalLinks_pure_from E archiveMap
              (String.length post) post w) as [post' Hpost].
  exists post'. split; [done|].
  rewrite convertExternalLinks_unfold.
  rewrite (replaceAll_skip _ is_not_lbracket pre); [|..|done].
  2:{ intros c r Hc. unfold convert_external_attempt.
      by rewrite match_external_lbracket. }
  unfold bind at 1.
  erewrite (replaceAll_hit _ (convert_attempt_shrinks E archiveMap));
    [| |done].
  2:{ unfold convert_external_attempt. subst url.
      by rewrite (match_external_complete t g post secure). }
  unfold bind. fold url.
  assert ((match archiveMap !! archiveIdFromUrl E url with
           | Some newUrl =>
               if Str.truthy newUrl
               then ret ("[" +:+ t +:+ "](" +:+ newUrl +:+ ")")
               else ret ("[" +:+ t +:+ "](" +:+ url +:+ ")")
           | None => ret ("[" +:+ t +:+ "](" +:+ url +:+ ")")
           end) w = (Ok ("[" +:+ t +:+ "](" +:+ target +:+ ")"), w)) as ->.
  { subst target. destruct (archiveMap !! archiveIdFromUrl E url) as [n|];
      [by destruct (Str.truthy n)|done]. }
  rewrite Hpost. unfold ret. f_equal. f_equal. f_equal.
  by rewrite !str_app_assoc.
Qed.

Lemma convertExternalLinks_cons_witness :
  let E := Sample.serverEnv in
  let m : gmap string string :=
    {[ archiveIdFromUrl E "http://example.com"
       := "/posts/2024-05-06-c/archives/example.html" ]} in
  ∃ post',
    convertExternalLinks E "." SampleNotes.storedC m Sample.emptyWorld
    = (Ok post', Sample.emptyWorld)
    ∧ convertExternalLinks E "read [Example](http://example.com)."
        SampleNotes.storedC m Sample.emptyWorld
      = (Ok ("read [Example](/posts/2024-05-06-c/archives/example.html)"
             +:+ post'), Sample.emptyWorld).
Proof.
  cbv zeta.
  destruct (convertExternalLinks_cons Sample.serverEnv "read " "Example"
              "example.com" "." false SampleNotes.storedC
              {[ archiveIdFromUrl Sample.serverEnv "http://example.com"
                 := "/posts/2024-05-06-c/archives/example.html" ]}
              Sample.emptyWorld) as (post' & H1 & H2); [done..|].
  exists post'. split; [exact H1|].
  etrans; [exact H2|]. f_equal.
Defined.

(** ** Wiki-links *)

Lemma match_wiki_inv s g1 g2 rest :
  match_wiki s = Some (g1, g2, rest) →
  s = wiki_markup g1 g2 +:+ rest
  ∧ g1 ≠ "" ∧ str_forall is_wiki_target_char g1 = true
  ∧ ∀ a, g2 = Some a → a ≠ "" ∧ str_forall is_not_rbracket a = true.
Proof.
  unfold match_wiki, wiki_markup.
  destruct (strip_prefix "[[" s) as [r|] eqn:H0; [|done].
  apply strip_prefix_Some in H0 as ->.
  destruct (Str.span is_wiki_target_char r) as [t r1] eqn:H1.
  apply str_span_inv in H1 as (-> & Ht & _).
  destruct (Str.truthy t) eqn:Htt; [|done]. simpl negb. cbv iota.
  apply str_truthy_true in Htt.
  destruct (strip_prefix "]]" r1) as [r2|] eqn:H2.
  - apply strip_prefix_Some in H2 as ->.
    intros [= <- <- <-].
    split; [|by split; [|split]].
    by rewrite !str_app_assoc.
  - destruct (strip_prefix "|" r1) as [r2|] eqn:H3; [|done].
    apply strip_prefix_Some in H3 as ->.
    destruct (Str.span is_not_rbracket r2) as [a r3] eqn:H4.
    apply str_span_inv in H4 as (-> & Ha & _).
    destruct (Str.truthy a) eqn:Hta; [|done]. simpl negb. cbv iota.
    apply str_truthy_true in Hta.
    destruct (strip_prefix "]]" r3) as [r4|] eqn:H5; [|done].
    apply strip_prefix_Some in H5 as ->.
    intros [= <- <- <-].
    split; [|split; [done|split; [done|by intros ? [= <-]]]].
    by rewrite !str_app_assoc.
Qed.

Lemma match_wiki_complete t alias rest :
  t ≠ "" → str_forall is_wiki_target_char t = true →
  (∀ a, alias = Some a → a ≠ "" ∧ str_forall is_not_rbracket a = true) →
  match_wiki (wiki_markup t alias +:+ rest) = Some (t, alias, rest).
Proof.
  intros Ht Hft Ha. unfold match_wiki, wiki_markup.
  rewrite !str_app_assoc, strip_prefix_app.
  destruct alias as [a|].
  - destruct (Ha a eq_refl) as [Hane Hfa].
    rewrite !str_app_assoc.
    rewrite (str_span_stop _ t ("|" +:+ a +:+ "]]" +:+ rest)); [|done|done].
    rewrite (proj2 (str_truthy_true t) Ht). simpl negb. cbv iota.
    assert (strip_prefix "]]" ("|" +:+ a +:+ "]]" +:+ rest) = None) as ->
      by reflexivity.
    rewrite strip_prefix_app.
    rewrite (str_span_stop _ a ("]]" +:+ rest)); [|done|done].
    rewrite (proj2 (str_truthy_true a) Hane). simpl negb. cbv iota.
    by rewrite strip_prefix_app.
  - change ("" +:+ "]]" +:+ rest) with ("]]" +:+ rest).
    rewrite (str_span_stop _ t ("]]" +:+ rest)); [|done|done].
    rewrite (proj2 (str_truthy_true t) Ht). simpl negb. cbv iota.
    by rewrite strip_prefix_app.
Qed.

Lemma match_wiki_shrinks s g1 g2 rest :
  match_wiki s = Some (g1, g2, rest) →
  String.length rest < String.length s.
Proof.
  intros (-> & _)%match_wiki_inv. unfold wiki_markup.
  rewrite !str_length_app. simpl. lia.
Qed.

Lemma match_wiki_lbracket c r :
  is_not_lbracket c = true → match_wiki (String c r) = None.
Proof.
  intros H. unfold match_wiki, strip_prefix.
  assert (String.prefix "[[" (String c r) = false) as ->; [|done].
  unfold is_not_lbracket in H. apply negb_true_iff in H.
  apply Ascii.eqb_neq in H. cbn [String.prefix].
  destruct (ascii_dec "[" c); [congruence|done].
Qed.

Lemma extractWikiLinks_fuel E fuel1 fuel2 s w :
  String.length s ≤ fuel1 → String.length s ≤ fuel2 →
  extractWikiLinks_from E fuel1 s w = extractWikiLinks_from E fuel2 s w.
Proof.
  revert fuel2 s w. induction fuel1 as [|fuel1 IH]; intros fuel2 s w H1 H2.
  - destruct s; [by destruct fuel2|simpl in H1; lia].
  - destruct s as [|c r]; [by destruct fuel2|].
    destruct fuel2 as [|fuel2]; [simpl in H2; lia|].
    simpl in H1, H2. simpl.
    destruct (match_wiki (String c r)) as [[[g1 g2] rest]|] eqn:Hm.
    + apply match_wiki_shrinks in Hm. simpl in Hm.
      unfold bind.
      destruct (slugFromTitle E (Str.trim g1) w) as [[slug|e] w1]; [|done].
      by rewrite (IH fuel2 rest w1) by lia.
    + apply IH; lia.
Qed.

Lemma extractWikiLinks_skip E pre s w :
  str_forall is_not_lbracket pre = true →
  extractWikiLinks_from E (String.length (pre +:+ s)) (pre +:+ s) w
  = extractWikiLinks_from E (String.length s) s w.
Proof.
  induction pre as [|c pre IH]; intros Hpre; [done|].
  simpl in Hpre. apply andb_prop in Hpre as [Hc Hpre].
  simpl. rewrite (match_wiki_lbracket c _ Hc). by apply IH.
Qed.

Lemma extractWikiLinks_hit E s g1 g2 rest w :
  match_wiki s = Some (g1, g2, rest) →
  extractWikiLinks_from E (String.length s) s w
  = bind (slugFromTitle E (Str.trim g1))
      (λ targetSlug,
         bind (extractWikiLinks_from E (String.length rest) rest)
           (λ results,
              ret ({| WikiLink.targetTitle := Str.trim g1;
                      WikiLink.alias := Str.trim (default g1 g2);
                      WikiLink.targetSlug := targetSlug |} :: results))) w.
Proof.
  intros Hm. destruct s as [|c r]; [done|].
  simpl. rewrite Hm.
  apply match_wiki_shrinks in Hm. simpl in Hm.
  unfold bind.
  destruct (slugFromTitle E (Str.trim g1) w) as [[slug|e] w1]; [|done].
  by rewrite (extractWikiLinks_fuel E _ (String.length rest)) by lia.
Qed.

(** A wiki-link that follows text without an opening bracket is the
    first one [extractWikiLinks] records: the title is the trimmed target,
    the alias the trimmed text after the bar (the target when there is
    none), the slug what [slugFromTitle] gives the title; the scan goes on
    after the closing brackets. *)
Theorem extractWikiLinks_cons (E : Env) (pre t post : string)
    (alias : option string) (w : World) :
  str_forall is_not_lbracket pre = true →
  t ≠ "" → str_forall is_wiki_target_char t = true →
  (∀ a, alias = Some a → a ≠ "" ∧ str_forall is_not_rbracket a = true) →
  ∃ slug w1 links w2,
    slugFromTitle E (Str.trim t) w = (Ok slug, w1)
    ∧ extractWikiLinks E post w1 = (Ok links, w2)
    ∧ extractWikiLinks E (pre +:+ wiki_markup t alias +:+ post) w
      = (Ok ({| WikiLink.targetTitle := Str.trim t;
                WikiLink.alias := Str.trim (default t alias);
                WikiLink.targetSlug := slug |} :: links), w2).
Proof.
  intros Hpre Ht Hft Ha.
  destruct (draws_only_run _ w (draws_only_slugFromTitle E (Str.trim t)))
    as (slug & d1 & Hslug).
  destruct (draws_only_run _ (set_draws d1 w)
              (draws_only_extractWikiLinks E post)) as (links & d2 & Hlinks).
  exists slug, (set_draws d1 w), links, (set_draws d2 (set_draws d1 w)).
  split; [done|]. split; [done|].
  unfold extractWikiLinks in *.
  rewrite extractWikiLinks_skip by done.
  rewrite (extractWikiLinks_hit E _ t alias post)
    by (by apply match_wiki_complete).
  unfold bind. rewrite Hslug, Hlinks. done.
Qed.

Lemma extractWikiLinks_cons_witness :
  ∃ links w2,
    extractWikiLinks Sample.serverEnv "see [[Second Note|the other]] now"
      Sample.emptyWorld
    = (Ok ({| WikiLink.targetTitle := "Second Note";
              WikiLink.alias := "the other";
              WikiLink.targetSlug := "second-note" |} :: links), w2).
Proof.
  destruct (extractWikiLinks_cons Sample.serverEnv "see " "Second Note"
              " now" (Some "the other") Sample.emptyWorld)
    as (slug & w1 & links & w2 & Hslug & _ & H); [done|done|done| |].
  { intros a [= <-]. done. }
  exists links, w2.
  assert (slug = "second-note") as <-.
  { vm_compute in Hslug. by injection Hslug as <- _. }
  exact H.
Defined.

Lemma convert_wiki_attempt_shrinks E session fm cache s cb r :
  convert_wiki_attempt E session fm cache s = Some (cb, r) →
  String.length r < String.length s.
Proof.
  unfold convert_wiki_attempt.
  destruct (match_wiki s) as [[[g1 g2] rest]|] eqn:H; [|done].
  intros [= <- <-]. by eapply match_wiki_shrinks.
Qed.

Lemma convertWikiLinks_unfold E body session cur fm cache :
  convertWikiLinks E body session cur fm cache
  = replaceAll (convert_wiki_attempt E session fm cache)
      (String.length body) body.
Proof. reflexivity. Qed.

(** [convertWikiLinks] rewrites a wiki-link that follows text without an
    opening bracket, for a target whose slug is no member name of
    [Object.prototype]: to a Markdown link on the trimmed alias (or
    target) when the target resolves, to a note of the session first and
    to a published post otherwise, and to the bare text when it does not;
    the rest of the body is converted in the same way, after the slug of
    the target is derived, and an exception there is the exception of the
    whole. *)
Theorem convertWikiLinks_cons (E : Env) (pre t post : string)
    (alias : option string) (session : Session.t) (currentSlug : string)
    (folderMap existingCache : gmap string string) (w w1 : World)
    (slug : string) :
  str_forall is_not_lbracket pre = true →
  t ≠ "" → str_forall is_wiki_target_char t = true →
  (∀ a, alias = Some a → a ≠ "" ∧ str_forall is_not_rbracket a = true) →
  slugFromTitle E (Str.trim t) w = (Ok slug, w1) →
  slug ∉ inherited_names →
  let display := Str.trim (default t alias) in
  let replacement :=
    match Session.notes session !! slug with
    | Some note =>
        "[" +:+ display +:+ "]("
        +:+ permalinkFromDateSlug (Note.date note) slug +:+ ")"
    | None =>
        match findExistingFolder existingCache slug with
        | Some folder =>
            "[" +:+ display +:+ "](" +:+ permalinkFromFolder folder +:+ ")"
        | None => display
        end
    end in
  convertWikiLinks E (pre +:+ wiki_markup t alias +:+ post) session
    currentSlug folderMap existingCache w
  = (let* post' := convertWikiLinks E post session currentSlug folderMap
                     existingCache in
     ret (pre +:+ replacement +:+ post')) w1.
Proof.
  intros Hpre Ht Hft Ha Hslug _. cbv zeta.
  rewrite !convertWikiLinks_unfold.
  rewrite (replaceAll_skip _ is_not_lbracket pre); [|..|done].
  2:{ intros c r Hc. unfold convert_wiki_attempt.
      by rewrite match_wiki_lbracket. }
  unfold bind at 1.
  erewrite (replaceAll_hit _ (convert_wiki_attempt_shrinks E session
                                folderMap existingCache)); [| |by destruct alias].
  2:{ unfold convert_wiki_attempt.
      by rewrite (match_wiki_complete t alias post). }
  unfold bind. rewrite Hslug.
  unfold resolveNoteUrl.
  destruct (Session.notes session !! slug) as [note|].
  - unfold ret.
    destruct (replaceAll _ _ post w1) as [[post'|e] w2]; [|done].
    by rewrite !str_app_assoc.
  - destruct (findExistingFolder existingCache slug) as [folder|].
    + unfold ret.
      destruct (replaceAll _ _ post w1) as [[post'|e] w2]; [|done].
      by rewrite !str_app_assoc.
    + unfold ret.
      by destruct (replaceAll _ _ post w1) as [[post'|e] w2].
Qed.

Lemma convertWikiLinks_cons_witness :
  slugFromTitle Sample.serverEnv (Str.trim "E") Sample.emptyWorld
  = (Ok "e", Sample.emptyWorld)
  ∧ ("e" ∉ inherited_names)
  ∧ convertWikiLinks Sample.serverEnv "see [[E|the entry]] and more."
      Sample.sessionE "e" ∅ ∅ Sample.emptyWorld
    = (Ok "see [the entry](/2024/05/06/e/) and more.", Sample.emptyWorld).
Proof.
  assert (slugFromTitle Sample.serverEnv (Str.trim "E") Sample.emptyWorld
          = (Ok "e", Sample.emptyWorld)) as Hslug
    by (vm_compute; exact eq_refl).
  assert ("e" ∉ inherited_names) as Hown
    by not_inherited.
  split; [exact Hslug|]. split; [exact Hown|].
  pose proof (convertWikiLinks_cons Sample.serverEnv "see " "E"
                " and more." (Some "the entry") Sample.sessionE "e"
                ∅ ∅ Sample.emptyWorld Sample.emptyWorld "e") as H.
  cbv zeta in H. etrans; [apply H|].
  - done.
  - done.
  - done.
  - intros a [= <-]. done.
  - exact Hslug.
  - exact Hown.
  - vm_compute. exact eq_refl.
Defined.

(** ** Requests that are refused *)

Lemma getSession_no_session id w :
  sessions w !! id = None →
  getSession id w = (Throw (Error "Session not found"), w).
Proof. intros H. unfold getSession, loadSession. unfold_M. by rewrite H. Qed.

Lemma commitSession_no_session E id w :
  sessions w !! id = None →
  commitSession E id w = (Throw (Error "Session not found"), w).
Proof. intros H. unfold commitSession, loadSession. unfold_M. by rewrite H. Qed.

(** ** A new session *)

(** [createSession] always returns: the identifier is the next draw of the
    random source, an empty session is stored under it (in the place of
    whatever was stored under that identifier), and no other session, no
    file and no post is touched.  The summary of the new session lists
    nothing and says [ready], and a commit on it is refused with "No main
    note uploaded". *)
Theorem createSession_stores_empty_session (E : Env) (w : World) :
  ∃ w',
    createSession E w = (Ok (random_hex E (draws w)), w')
    ∧ let id := random_hex E (draws w) in
      sessions w' = <[id := defaultSession id (now w)]> (sessions w)
      ∧ files w' = files w
      ∧ posts w' = posts w
      ∧ getSession id w' = (Ok (emptySummary id), w')
      ∧ commitSession E id w' = (Throw (Error "No main note uploaded"), w').
Proof.
  eexists. split; [reflexivity|]. cbv zeta.
  split; [done|]. split; [done|]. split; [done|]. split.
  - unfold getSession, loadSession. unfold_M. simpl.
    rewrite lookup_insert_eq.
    unfold summarizeSession, buildExistingCache, pendingArchivesOf.
    unfold_M. simpl. rewrite !map_to_list_empty. reflexivity.
  - unfold commitSession, loadSession. unfold_M. simpl.
    rewrite lookup_insert_eq.
    unfold assertReady, pendingArchivesOf. simpl.
    rewrite map_size_empty, map_to_list_empty. reflexivity.
Qed.

(** ** What an upload returns and what it keeps *)


Lemma addArchive_ok_world E req w sum w' :
  world_inv E w →
  addArchive E req w = (Ok sum, w') →
  ∃ s a,
    sessions w !! AddArchive.sessionId req = Some s
    ∧ Session.archives s !! archiveIdFromUrl E (AddArchive.sourceUrl req)
      = Some a
    ∧ let i := archiveIdFromUrl E (AddArchive.sourceUrl req) in
      let ft := archivePath E (AddArchive.sessionId req) i
                  (AddArchive.filename req) in
      let s' :=
        Session.set_archives
          (<[i := Archive.resolve (AddArchive.filename req) ft a]>
             (Session.archives s)) s in
      w' = set_sessions (<[AddArchive.sessionId req := s']> (sessions w))
             (set_files
                (<[ft := base64_decode E (stripDataUri (AddArchive.data req))]>
                   (files w)) w)
      ∧ summarizeSession s' w' = (Ok sum, w').
Proof.
  intros Hinv Hrun.
  destruct (addArchive_ok E req w sum w' Hrun)
    as (Hu & Hf & Hd & s & a & Hs & Ha).
  exists s, a. split; [done|]. split; [done|]. cbv zeta.
  destruct (addArchive_cases E req w) as (_ & _ & Hsome).
  destruct (Hsome s a Hu Hf Hd Hs Ha) as (_ & _ & _ & sum' & Hrun' & Hsum).
  rewrite Hrun in Hrun'. injection Hrun' as <- ->.
  destruct (Hinv _ _ Hs) as (Hid & _). simpl in *.
  rewrite Hid in *. done.
Qed.

Lemma addNote_ok_stored E req w sum w' :
  ids_agree w →
  addNote E req w = (Ok sum, w') →
  ∃ s nt meta body wl d2,
    AddNote.filename req ≠ ""
    ∧ AddNote.content req ≠ ""
    ∧ sessions w !! AddNote.sessionId req = Some s
    ∧ scope_normalizeTags E = Some nt
    ∧ analysed E req (draws w) (now w) = Some (meta, body, wl, d2)
    ∧ draws w ≤ d2
    ∧ (parseMarkdown E (AddNote.content req) (AddNote.filename req) w).1
      = Ok (meta, body)
    ∧ let s' :=
        sessionAfterNote E nt req (cacheOfFolders (posts w)) s meta body wl in
      w' = set_sessions (<[AddNote.sessionId req := s']> (sessions w))
             (afterNoteFile E req (Meta.slug meta) d2 w)
      ∧ summarizeSession s' w' = (Ok sum, w').
Proof.
  intros Hids Hrun.
  destruct (addNote_ok E req w sum w' Hrun)
    as (s & _ & _ & _ & _ & _ & nt & Hf & Hc & Hs & Hscope & _).
  destruct (addNote_analysed E req w s nt Hf Hc Hs Hscope)
    as (meta & body & wl & d2 & Han & Hle & Hparse & sum' & Hrun' & Hsum).
  simpl in Hrun', Hsum.
  pose proof (Hids _ s Hs) as Hid. rewrite Hid in Hrun', Hsum.
  rewrite Hrun in Hrun'. injection Hrun' as <- ->.
  exists s, nt, meta, body, wl, d2. do 7 (split; [done|]). done.
Qed.

Lemma addArchive_ok_stored E req w sum w' :
  ids_agree w →
  addArchive E req w = (Ok sum, w') →
  ∃ s a,
    sessions w !! AddArchive.sessionId req = Some s
    ∧ Session.archives s !! archiveIdFromUrl E (AddArchive.sourceUrl req)
      = Some a
    ∧ let i := archiveIdFromUrl E (AddArchive.sourceUrl req) in
      let ft := archivePath E (AddArchive.sessionId req) i
                  (AddArchive.filename req) in
      let s' :=
        Session.set_archives
          (<[i := Archive.resolve (AddArchive.filename req) ft a]>
             (Session.archives s)) s in
      w' = set_sessions (<[AddArchive.sessionId req := s']> (sessions w))
             (set_files
                (<[ft := base64_decode E (stripDataUri (AddArchive.data req))]>
                   (files w)) w)
      ∧ summarizeSession s' w' = (Ok sum, w').
Proof.
  intros Hids Hrun.
  destruct (addArchive_ok E req w sum w' Hrun)
    as (Hu & Hf & Hd & s & a & Hs & Ha).
  exists s, a. split; [done|]. split; [done|]. cbv zeta.
  destruct (addArchive_cases E req w) as (_ & _ & Hsome).
  destruct (Hsome s a Hu Hf Hd Hs Ha) as (_ & _ & _ & sum' & Hrun' & Hsum).
  rewrite Hrun in Hrun'. injection Hrun' as <- ->.
  pose proof (Hids _ _ Hs) as Hid. simpl in *.
  rewrite Hid in *. done.
Qed.

(** The Status Summary an upload returns is the one [getSession] gives
    for the session right after it, when the session is stored under its
    own identifier and the slug of the uploaded note is not [__proto__]
    (under that name the note is no entry of [session.notes], but the
    object the summary of the upload is computed on inherits from it):
    what was answered is what was stored. *)
Theorem upload_summary_is_stored (E : Env) (w : World) :
  ids_agree w →
  (∀ req sum w',
     addNote E req w = (Ok sum, w') →
     (∀ meta body,
        (parseMarkdown E (AddNote.content req) (AddNote.filename req) w).1
        = Ok (meta, body) →
        Meta.slug meta ≠ "__proto__") →
     getSession (AddNote.sessionId req) w' = (Ok sum, w'))
  ∧ (∀ req sum w',
       addArchive E req w = (Ok sum, w') →
       getSession (AddArchive.sessionId req) w' = (Ok sum, w')).
Proof.
  intros Hids. split.
  - intros req sum w' Hrun _.
    destruct (addNote_ok_stored E req w sum w' Hids Hrun)
      as (s & nt & meta & body & wl & d2 & _ & _ & _ & _ & _ & _ & _ & H).
    cbv zeta in H. destruct H as [Hw' Hsum].
    assert (sessions w' !! AddNote.sessionId req
            = Some (sessionAfterNote E nt req (cacheOfFolders (posts w)) s
                      meta body wl)) as Hl
      by (rewrite Hw'; simpl; apply lookup_insert_eq).
    unfold getSession, loadSession. unfold_M. by rewrite Hl.
  - intros req sum w' Hrun.
    destruct (addArchive_ok_stored E req w sum w' Hids Hrun)
      as (s & a & _ & _ & H).
    cbv zeta in H. destruct H as [Hw' Hsum].
    match type of Hsum with
    | summarizeSession ?s' _ = _ =>
        assert (sessions w' !! AddArchive.sessionId req = Some s') as Hl
          by (rewrite Hw'; simpl; apply lookup_insert_eq)
    end.
    unfold getSession, loadSession. unfold_M. by rewrite Hl.
Qed.

Lemma upload_summary_is_stored_witness :
  ids_agree Sample.world0
  ∧ ∃ sum w',
      addNote Sample.serverEnv Sample.noteA Sample.world0 = (Ok sum, w')
      ∧ getSession Sample.sid w' = (Ok sum, w').
Proof.
  assert (ids_agree Sample.world0) as Hids.
  { apply (reachable_ids_agree Sample.serverEnv). apply sample_reachable. }
  split; [done|].
  destruct (addNote_bound_normalizeTags Sample.serverEnv Sample.noteA
              Sample.world0
              (defaultSession Sample.sid "2024-05-06T07:08:09.000Z")
              Sample.server_normalizeTags)
    as (sum & w' & Hrun); [done|done|done|vm_compute; exact eq_refl|].
  exists sum, w'. split; [done|].
  apply (proj1 (upload_summary_is_stored Sample.serverEnv Sample.world0
                  Hids) Sample.noteA); [done|].
  intros meta body Hparse. vm_compute in Hparse.
  injection Hparse as <- _. done.
Defined.



(** ** Uploads only add *)

Lemma session_grows_refl s : session_grows s s.
Proof.
  split; [done|]. split; [done|]. split; [|done].
  intros k a Ha. exists a. by repeat split.
Qed.

Lemma session_grows_trans s1 s2 s3 :
  session_grows s1 s2 → session_grows s2 s3 → session_grows s1 s3.
Proof.
  intros (Hid1 & Hn1 & Ha1 & Hm1) (Hid2 & Hn2 & Ha2 & Hm2).
  split; [congruence|]. split; [by auto|]. split; [|by auto].
  intros k a Ha.
  destruct (Ha1 k a Ha) as (a' & Ha' & Hu' & Hr' & Hp').
  destruct (Ha2 k a' Ha') as (a'' & Ha'' & Hu'' & Hr'' & Hp'').
  exists a''. split; [done|]. split; [congruence|].
  split; [by auto|]. by etrans.
Qed.

Lemma registerNote_grows E s slug meta body ft isMain wl el c :
  session_grows s (registerNote E s slug meta body ft isMain wl el c).
Proof.
  rewrite registerNote_eq.
  split; [done|]. split; [|split]; simpl.
  - intros k Hk. destruct (decide (slug = k)) as [->|Hne].
    + rewrite lookup_insert_eq. by eexists.
    + by rewrite lookup_insert_ne.
  - intros k a Ha.
    pose proof (archivesAfter_grow E slug el (Session.archives s) k) as Hk.
    rewrite Ha in Hk.
    destruct Hk as (a' & Ha' & _ & Hurl & Hres & _ & _ & Href).
    exists a'. split; [done|]. split; [done|].
    split; [congruence|].
    destruct Href as [->|[_ ->]]; [done|by apply prefix_app_r].
  - intros Hm. by destruct isMain.
Qed.

Lemma resolve_grows s i f p a :
  Session.archives s !! i = Some a →
  session_grows s
    (Session.set_archives
       (<[i := Archive.resolve f p a]> (Session.archives s)) s).
Proof.
  intros Ha. split; [done|]. split; [done|]. split; [|done].
  intros k b Hb. simpl.
  destruct (decide (i = k)) as [->|Hne].
  - rewrite lookup_insert_eq. exists (Archive.resolve f p a).
    rewrite Ha in Hb. injection Hb as <-. by repeat split.
  - rewrite lookup_insert_ne by done. exists b. by repeat split.
Qed.

Lemma exec_session_grows E o w sid s :
  world_inv E w →
  is_create o = false →
  sessions w !! sid = Some s →
  ∃ s', sessions (exec E o w) !! sid = Some s' ∧ session_grows s s'.
Proof.
  intros Hinv Hcreate Hs. destruct o as [|req|req|id]; [done| | |]; simpl.
  - destruct (addNote_world E req w) as (_ & _ & [Hsame|[sum Hrun]]).
    { rewrite Hsame. exists s. split; [done|apply session_grows_refl]. }
    destruct (addNote E req w) as [r w'] eqn:Hadd. simpl in *.
    injection Hrun as -> .
    destruct (addNote_ok_analysed E req w sum w' Hinv Hadd)
      as (s1 & nt & meta & body & wl & d2 & _ & _ & Hs1 & _ & _ & _ & _ & H).
    cbv zeta in H. destruct H as [-> _]. simpl.
    destruct (decide (AddNote.sessionId req = sid)) as [Heq|Hne].
    + rewrite Heq in *. rewrite lookup_insert_eq.
      rewrite Hs in Hs1. injection Hs1 as <-.
      eexists. split; [reflexivity|].
      unfold sessionAfterNote. apply registerNote_grows.
    + rewrite lookup_insert_ne by done.
      exists s. split; [done|apply session_grows_refl].
  - destruct (addArchive E req w) as [r w'] eqn:Hadd. simpl.
    destruct r as [sum|e].
    2:{ destruct (addArchive_world E req w) as [Hw|(?&?&?&?&?&_&_&Hok)].
        - rewrite Hadd in Hw. simpl in Hw. subst w'.
          exists s. split; [done|apply session_grows_refl].
        - rewrite Hadd in Hok. done. }
    destruct (addArchive_ok_world E req w sum w' Hinv Hadd)
      as (s1 & a & Hs1 & Ha & H).
    cbv zeta in H. destruct H as [-> _]. simpl.
    destruct (decide (AddArchive.sessionId req = sid)) as [Heq|Hne].
    + rewrite Heq in *. rewrite lookup_insert_eq.
      rewrite Hs in Hs1. injection Hs1 as <-.
      eexists. split; [done|]. by apply resolve_grows.
    + rewrite lookup_insert_ne by done.
      exists s. split; [done|apply session_grows_refl].
  - rewrite getSession_world. exists s.
    split; [done|apply session_grows_refl].
Qed.

(** Uploads and status requests never take anything away from a session:
    after any sequence of [addNote], [addArchive] and [getSession] calls
    (on this or on other sessions) whose archive files land in the
    directory of their session, the session is still stored, every note it
    had is still there, every archive it had has the same URL, is still
    resolved if it was, and is still referenced by the notes that
    referenced it, and an entry document is still chosen if one was. *)
Theorem uploads_only_add (E : Env) (w : World) (ops : list Op)
    (sid : string) (s : Session.t) :
  reachable_plain E w →
  forallb plain_op ops = true →
  Forall (λ o, is_create o = false) ops →
  sessions w !! sid = Some s →
  ∃ s', sessions (run E ops w) !! sid = Some s' ∧ session_grows s s'.
Proof.
  intros Hreach%reachable_plain_reachable _ Hops. revert w s Hreach.
  induction Hops as [|o ops Ho Hops IH]; intros w s Hreach Hs.
  { exists s. split; [done|apply session_grows_refl]. }
  destruct (exec_session_grows E o w sid s
              (reachable_world_inv E w Hreach) Ho Hs) as (s1 & Hs1 & Hg1).
  destruct (IH (exec E o w) s1 (reachable_exec E o w Hreach) Hs1)
    as (s' & Hs' & Hg').
  exists s'. split; [done|]. by eapply session_grows_trans.
Qed.

Lemma uploads_only_add_witness :
  let ops := [OpAddNote Sample.noteD; OpAddArchive Sample.archiveExample;
              OpGetSession Sample.sid] in
  reachable_plain Sample.serverEnv Sample.worldA
  ∧ forallb plain_op ops = true
  ∧ Forall (λ o, is_create o = false) ops
  ∧ sessions Sample.worldA !! Sample.sid = Some Sample.sessionA
  ∧ ∃ s', sessions (run Sample.serverEnv ops Sample.worldA) !! Sample.sid
          = Some s'
          ∧ is_Some (Session.notes s' !! "a").
Proof.
  cbv zeta.
  assert (reachable_plain Sample.serverEnv Sample.worldA) as Hreach
    by (by apply (sample_reachable_plain
                    [OpCreateSession; OpAddNote Sample.noteA])).
  assert (sessions Sample.worldA !! Sample.sid = Some Sample.sessionA) as Hs
    by (vm_compute; exact eq_refl).
  split; [done|]. split; [reflexivity|].
  split; [by repeat constructor|]. split; [done|].
  destruct (uploads_only_add Sample.serverEnv Sample.worldA
              [OpAddNote Sample.noteD; OpAddArchive Sample.archiveExample;
               OpGetSession Sample.sid] Sample.sid Sample.sessionA Hreach)
    as (s' & Hs' & _ & Hnotes & _);
    [reflexivity|by repeat constructor|done|].
  exists s'. split; [done|]. apply Hnotes.
  vm_compute. by eexists.
Defined.

(** ** The Status Summary of a stored session *)

Lemma getSession_ok id w sum w' :
  getSession id w = (Ok sum, w') →
  ∃ s, sessions w !! id = Some s ∧ w' = w
       ∧ summarizeSession s w = (Ok sum, w).
Proof.
  unfold getSession, loadSession. unfold_M.
  destruct (sessions w !! id) as [s|] eqn:Hs; [|done].
  intros H. exists s. split; [done|].
  unfold summarizeSession, buildExistingCache in *. unfold_M.
  by injection H as <- <-.
Qed.

(** In the Status Summary of a session the operations built, by uploads
    whose archive files land in the directory of their session, the lists
    agree with each other: a note a document lists as missing is among the
    pending notes, an archive a document lists as missing is among the
    pending archives, and when [ready] is true no document lists anything
    as missing. *)
Theorem summary_is_consistent (E : Env) (w w' : World) (sid : string)
    (sum : Summary.t) :
  reachable_plain E w →
  getSession sid w = (Ok sum, w') →
  (∀ ns mn, ns ∈ Summary.notes sum → mn ∈ Summary.missingNotes ns →
            Summary.mn_slug mn ∈ Summary.pn_slug <$> Summary.pendingNotes sum)
  ∧ (∀ ns ma, ns ∈ Summary.notes sum → ma ∈ Summary.missingArchives ns →
              Summary.ma_id ma
                ∈ Summary.pa_id <$> Summary.pendingArchives sum)
  ∧ (Summary.ready sum = true →
     ∀ ns, ns ∈ Summary.notes sum →
           Summary.missingNotes ns = [] ∧ Summary.missingArchives ns = []).
Proof.
  intros Hreach%reachable_plain_reachable Hget.
  destruct (getSession_ok _ _ _ _ Hget) as (s & Hs & -> & Hsum).
  destruct (reachable_world_inv E w Hreach sid s Hs) as (_ & Hinv & _).
  unfold summarizeSession, buildExistingCache in Hsum. unfold_M.
  injection Hsum as <-. simpl.
  assert (∀ ns mn,
            ns ∈ summarizeNote s (cacheOfFolders (posts w))
                   <$> (map_to_list (Session.notes s)).*2 →
            mn ∈ Summary.missingNotes ns →
            is_Some (Session.pendingNotes s !! Summary.mn_slug mn)) as HA.
  { intros ns mn Hns Hmn.
    apply list_elem_of_fmap in Hns as (n & -> & Hn).
    apply list_elem_of_fmap in Hn as ([k n'] & -> & Hkn).
    apply elem_of_map_to_list in Hkn. simpl in Hmn.
    apply list_elem_of_fmap in Hmn as ([dep info] & -> & Hdep).
    apply list_elem_of_filter in Hdep as [Hmiss Hdep].
    apply elem_of_map_to_list in Hdep. simpl in *.
    unfold noteMissing in Hmiss.
    destruct (Session.notes s !! dep) eqn:Hnd; [done|].
    destruct (findExistingFolder (cacheOfFolders (posts w)) dep) eqn:Hfd;
      [done|].
    by eapply (inv_dep_pending _ _ _ Hinv k n' dep). }
  assert (∀ ns ma,
            ns ∈ summarizeNote s (cacheOfFolders (posts w))
                   <$> (map_to_list (Session.notes s)).*2 →
            ma ∈ Summary.missingArchives ns →
            ∃ a, Session.archives s !! Summary.ma_id ma = Some a
                 ∧ Archive.resolved a = false
                 ∧ Archive.id a = Summary.ma_id ma) as HB.
  { intros ns ma Hns Hma.
    apply list_elem_of_fmap in Hns as (n & -> & Hn).
    apply list_elem_of_fmap in Hn as ([k n'] & -> & Hkn).
    apply elem_of_map_to_list in Hkn. simpl in Hma.
    apply list_elem_of_fmap in Hma as ([id text] & -> & Hdep).
    apply list_elem_of_filter in Hdep as [Hmiss Hdep].
    apply elem_of_map_to_list in Hdep. simpl in *.
    destruct (inv_dep_archive _ _ _ Hinv k n' id Hkn) as [a Ha];
      [by eexists|].
    unfold archiveMissing in Hmiss. rewrite Ha in Hmiss.
    exists a. split; [done|]. split; [by destruct (Archive.resolved a)|].
    by destruct (inv_archive_id _ _ _ Hinv id a Ha). }
  assert (∀ ns mn,
            ns ∈ summarizeNote s (cacheOfFolders (posts w))
                   <$> (map_to_list (Session.notes s)).*2 →
            mn ∈ Summary.missingNotes ns →
            Summary.mn_slug mn
              ∈ Summary.pn_slug
                  <$> ((λ '(slug, info),
                          {| Summary.pn_slug := slug;
                             Summary.pn_targetTitle := Pending.targetTitle info;
                             Summary.pn_referencedBy :=
                               Pending.referencedBy info |})
                         <$> map_to_list (Session.pendingNotes s))) as HA'.
  { intros ns mn Hns Hmn. destruct (HA ns mn Hns Hmn) as [p Hp].
    apply list_elem_of_fmap. eexists. split; [|apply list_elem_of_fmap].
    2:{ exists (Summary.mn_slug mn, p). split; [reflexivity|].
        by apply elem_of_map_to_list. }
    done. }
  assert (∀ ns ma,
            ns ∈ summarizeNote s (cacheOfFolders (posts w))
                   <$> (map_to_list (Session.notes s)).*2 →
            ma ∈ Summary.missingArchives ns →
            Summary.ma_id ma
              ∈ Summary.pa_id
                  <$> ((λ a, {| Summary.pa_id := Archive.id a;
                                Summary.pa_url := Archive.url a;
                                Summary.pa_referencedBy :=
                                  Archive.referencedBy a |})
                         <$> pendingArchivesOf s)) as HB'.
  { intros ns ma Hns Hma. destruct (HB ns ma Hns Hma) as (a & Ha & Hr & Hid).
    apply list_elem_of_fmap. eexists. split; [|apply list_elem_of_fmap].
    2:{ exists a. split; [reflexivity|].
        unfold pendingArchivesOf. apply list_elem_of_filter.
        split; [by rewrite Hr|].
        apply list_elem_of_fmap. exists (Summary.ma_id ma, a).
        split; [done|]. by apply elem_of_map_to_list. }
    done. }
  split; [exact HA'|]. split; [exact HB'|].
  intros Hready ns Hns.
  apply andb_prop in Hready as [Hpn Hpa].
  apply Nat.eqb_eq in Hpn, Hpa.
  apply nil_length_inv in Hpn, Hpa.
  split.
  - destruct (Summary.missingNotes ns) as [|mn l] eqn:Hl; [done|].
    pose proof (HA' ns mn Hns) as H. rewrite Hl, Hpn in H.
    specialize (H (list_elem_of_here _ _)). by apply elem_of_nil in H.
  - destruct (Summary.missingArchives ns) as [|ma l] eqn:Hl; [done|].
    pose proof (HB' ns ma Hns) as H. rewrite Hl, Hpa in H.
    specialize (H (list_elem_of_here _ _)). by apply elem_of_nil in H.
Qed.

Lemma summary_is_consistent_witness :
  reachable_plain Sample.serverEnv Sample.worldA
  ∧ ∃ sum,
      getSession Sample.sid Sample.worldA = (Ok sum, Sample.worldA)
      ∧ (∀ ns mn, ns ∈ Summary.notes sum → mn ∈ Summary.missingNotes ns →
                  Summary.mn_slug mn
                    ∈ Summary.pn_slug <$> Summary.pendingNotes sum).
Proof.
  assert (reachable_plain Sample.serverEnv Sample.worldA) as Hreach
    by (by apply (sample_reachable_plain
                    [OpCreateSession; OpAddNote Sample.noteA])).
  split; [done|].
  assert (sessions Sample.worldA !! Sample.sid = Some Sample.sessionA) as Hs
    by (vm_compute; exact eq_refl).
  destruct (summarizeSession_spec Sample.sessionA Sample.worldA)
    as (sum & Hsum & _).
  assert (getSession Sample.sid Sample.worldA = (Ok sum, Sample.worldA))
    as Hget.
  { unfold getSession, loadSession. unfold_M. by rewrite Hs. }
  exists sum. split; [done|].
  exact (proj1 (summary_is_consistent Sample.serverEnv Sample.worldA
                  Sample.worldA Sample.sid sum Hreach Hget)).
Defined.

(** ** The commit engine *)

Lemma str_prefix_cancel a b c :
  String.prefix (a +:+ b) (a +:+ c) = String.prefix b c.
Proof.
  induction a as [|x a IH]; [done|].
  simpl. destruct (ascii_dec x x); [done|congruence].
Qed.

Lemma under_join dir name : under dir (path_join dir name) = true.
Proof.
  unfold under, path_join.
  rewrite <- (str_app_assoc dir "/" name). apply str_prefix_app.
Qed.

Lemma under_join2 dir a b : under dir (path_join (path_join dir a) b) = true.
Proof.
  unfold under, path_join.
  rewrite !str_app_assoc. rewrite <- (str_app_assoc dir "/").
  apply str_prefix_app.
Qed.

(** The posts directory and the directory of a session are disjoint. *)
Lemma session_dir_not_posts E sid p folder rest :
  p = path_join (path_join (postsRoot E) folder) rest →
  String.prefix (sessionPath E sid +:+ "/") p = false.
Proof.
  intros ->. unfold sessionPath, sessionsRoot, postsRoot, path_join.
  rewrite !str_app_assoc. rewrite str_prefix_cancel. reflexivity.
Qed.

Lemma commit_step_refl E s w : commit_step E s w w.
Proof.
  split; [done|]. split; [done|]. split; [apply keeps_files_refl|].
  split; [done|]. intros f Hf. by left.
Qed.

Lemma commit_step_trans E s w1 w2 w3 :
  commit_step E s w1 w2 → commit_step E s w2 w3 → commit_step E s w1 w3.
Proof.
  intros (Hs1 & Hp1 & Hk1 & Hf1 & Hu1) (Hs2 & Hp2 & Hk2 & Hf2 & Hu2).
  split; [congruence|]. split; [by auto|].
  split; [by eapply keeps_files_trans|]. split.
  - intros p Hp. rewrite Hf2, Hf1; done.
  - intros f Hf. destruct (Hu2 f Hf) as [Hf2'|Hnew]; [by apply Hu1|by right].
Qed.

Lemma published_step E s folder w w' :
  commit_step E s w w' → published E folder w → published E folder w'.
Proof.
  intros (_ & Hp & Hk & _) [Hin Hfile]. split; [by apply Hp|by apply Hk].
Qed.

Lemma copyArchives_effects E s folder destDir ids links w :
  (∀ id, id ∈ ids →
         ∃ a p, Session.archives s !! id = Some a
                ∧ Archive.filePath a = Some p
                ∧ is_Some (files w !! p)) →
  ∃ links' w',
    copyArchives E s folder destDir ids links w = (Ok links', w')
    ∧ keeps_files w w'
    ∧ sessions w' = sessions w
    ∧ posts w' = posts w
    ∧ (∀ p, under destDir p = false → files w' !! p = files w !! p).
Proof.
  revert links w. induction ids as [|id ids IH]; intros links w Hids.
  { exists links, w. split; [done|]. split; [apply keeps_files_refl|done]. }
  destruct (Hids id) as (a & p & Ha & Hp & [data Hdata]);
    [apply list_elem_of_here|].
  simpl. rewrite Ha. unfold copyFile, writeFile. rewrite Hp.
  unfold_M. rewrite Hdata.
  match goal with
  | |- context [copyArchives E s folder destDir ids ?l ?w1] =>
      destruct (IH l w1) as (links' & w' & Hrun & Hkeep & Hsess & Hposts & Hfr)
  end.
  { intros id' Hid'.
    destruct (Hids id') as (a' & p' & Ha' & Hp' & Hex);
      [by apply list_elem_of_further|].
    exists a', p'. split; [done|]. split; [done|].
    by apply keeps_files_write. }
  exists links', w'. rewrite Hrun. split; [done|].
  split; [eapply keeps_files_trans; [apply keeps_files_write|done]|].
  split; [done|]. split; [done|].
  intros q Hq. rewrite (Hfr q Hq). simpl.
  apply lookup_insert_ne. intros <-.
  by rewrite under_join2 in Hq.
Qed.

Lemma commitNote_effects E s cache k n w nt :
  scope_normalizeTags E = Some nt →
  Session.notes s !! k = Some n →
  folderMapOf s !! k = Some (folderOf n) →
  (∀ id, is_Some (Deps.archives (Note.dependencies n) !! id) →
         ∃ a p, Session.archives s !! id = Some a
                ∧ Archive.filePath a = Some p
                ∧ is_Some (files w !! p)) →
  ∃ w', commitNote E s (folderMapOf s) cache (k, n) w = (Ok tt, w')
        ∧ commit_step E s w w'
        ∧ published E (folderOf n) w'.
Proof.
  intros Hscope Hkn Hfolder Hdeps.
  unfold commitNote. rewrite Hfolder.
  unfold ensurePostDir, normalizeTags, writeFile. rewrite Hscope.
  unfold bind at 1. unfold modify_world at 1.
  set (folder := folderOf n) in *.
  set (w1 := if bool_decide (folder ∈ posts w) then w
             else set_posts (posts w ++ [folder]) w).
  assert (files w1 = files w ∧ sessions w1 = sessions w
          ∧ folder ∈ posts w1 ∧ ∀ f, f ∈ posts w → f ∈ posts w1)
    as (Hf1 & Hs1 & Hin1 & Hp1).
  { unfold w1. case_bool_decide; simpl; [done|].
    repeat split; [|intros f Hf]; apply elem_of_app; [right|by left].
    apply list_elem_of_here. }
  destruct (copyArchives_effects E s folder (path_join (postsRoot E) folder)
              (map_to_list (Deps.archives (Note.dependencies n))).*1 ∅ w1)
    as (links & w2 & Hcopy & Hkeep2 & Hs2 & Hp2 & Hfr2).
  { intros id Hid. apply list_elem_of_fmap in Hid as [[id' text] [-> Hin]].
    apply elem_of_map_to_list in Hin. simpl.
    destruct (Hdeps id') as (a & p & Ha & Hp & Hex); [by eexists|].
    exists a, p. by rewrite Hf1. }
  unfold bind at 1. rewrite Hcopy.
  destruct (draws_only_run
              (convertWikiLinks E (Note.body n) s k (folderMapOf s) cache) w2
              (draws_only_convertWikiLinks _ _ _ _ _ _)) as (b1 & d1 & Hb1).
  unfold bind at 1. rewrite Hb1.
  destruct (draws_only_run
              (convertExternalLinks E b1 n links) (set_draws d1 w2)
              (draws_only_convertExternalLinks _ _ _ _)) as (b2 & d2 & Hb2).
  unfold bind at 1. rewrite Hb2.
  unfold_M. eexists. split; [reflexivity|]. simpl.
  split; [split; [simpl; congruence|split; [|split; [|split]]]|].
  - simpl. intros f Hf. rewrite Hp2. by apply Hp1.
  - intros p Hp. simpl. rewrite lookup_insert. case_decide; [done|].
    apply Hkeep2. by rewrite Hf1.
  - intros p Hp. simpl.
    assert (under (path_join (postsRoot E) folder) p = false) as Hu.
    { destruct (under (path_join (postsRoot E) folder) p) eqn:Hu; [|done].
      destruct Hp. by exists k, n. }
    rewrite lookup_insert_ne.
    + by rewrite (Hfr2 p Hu), Hf1.
    + intros <-. by rewrite under_join in Hu.
  - simpl. rewrite Hp2. unfold w1. case_bool_decide; simpl; [by left|].
    intros f [Hf|Hf%list_elem_of_singleton]%elem_of_app; [by left|].
    right. by exists k, n.
  - split; simpl; [by rewrite Hp2|].
    unfold indexPath. rewrite lookup_insert_eq. by eexists.
Qed.

Lemma for_each_commit {A} E s (Q : A → World → Prop) (l : list A)
    (body : A → M unit) w :
  (∀ x w1, x ∈ l → commit_step E s w w1 →
           ∃ w2, body x w1 = (Ok tt, w2)
                 ∧ commit_step E s w1 w2 ∧ Q x w2) →
  (∀ x w1 w2, Q x w1 → commit_step E s w1 w2 → Q x w2) →
  ∃ w', for_each l body w = (Ok tt, w')
        ∧ commit_step E s w w' ∧ ∀ x, x ∈ l → Q x w'.
Proof.
  intros Hbody Hstable. revert w Hbody.
  induction l as [|x l IH]; intros w Hbody.
  { exists w. split; [done|]. split; [apply commit_step_refl|].
    intros x Hx. by apply elem_of_nil in Hx. }
  destruct (Hbody x w) as (w1 & Hx & Hk1 & HQ1);
    [apply list_elem_of_here|apply commit_step_refl|].
  destruct (IH w1) as (w' & Hrun & Hk' & HQ').
  { intros y w2 Hy Hk2.
    apply Hbody; [by apply list_elem_of_further|].
    by eapply commit_step_trans. }
  exists w'. simpl. unfold bind. rewrite Hx.
  split; [done|]. split; [by eapply commit_step_trans|].
  intros y [->|Hy]%elem_of_cons; [by eapply Hstable|by apply HQ'].
Qed.

Lemma commitSession_effects E sid w s :
  reachable E w →
  sessions w !! sid = Some s →
  spec_ready s →
  ∃ res w1,
    commitSession E sid w = (Ok res, sessionRemoved E sid w1)
    ∧ commit_step E s w w1
    ∧ ∀ k n, Session.notes s !! k = Some n → published E (folderOf n) w1.
Proof.
  intros Hreach Hs Hready.
  destruct (reachable_world_inv E w Hreach sid s Hs) as (_ & Hinv & Hfiles).
  pose proof Hready as [[Hpend Hres] Hmain].
  assert (∃ nt, scope_normalizeTags E = Some nt) as [nt Hscope].
  { unfold mainSlug_set in Hmain.
    destruct (Session.mainSlug s) as [m|] eqn:Hm; [|done].
    destruct (inv_main_note _ _ _ Hinv m Hm) as [n Hn].
    by apply (reachable_notes_need_scope E w Hreach sid s m n). }
  pose proof (folderMapOf_eq s (inv_note_slug _ _ _ Hinv)) as Hfm.
  destruct (for_each_commit E s (λ kn w, published E (folderOf kn.2) w)
              (map_to_list (Session.notes s))
              (commitNote E s (folderMapOf s) (cacheOfFolders (posts w))) w)
    as (w1 & Hloop & Hstep & Hpub).
  { intros [k n] w1 Hkn%elem_of_map_to_list Hk1.
    eapply commitNote_effects; [done|done| |].
    - by rewrite Hfm, lookup_fmap, Hkn.
    - intros id Hid.
      destruct (inv_dep_archive _ _ _ Hinv k n id Hkn Hid) as [a Ha].
      destruct (Hfiles id a Ha (Hres id a Ha)) as (f & p & _ & Hp & Hex).
      exists a, p. split; [done|]. split; [done|].
      destruct Hk1 as (_ & _ & Hkeep & _). by apply Hkeep. }
  { intros x w1 w2 HQ Hst. by eapply published_step. }
  unfold commitSession, loadSession, buildExistingCache, removeSessionDir.
  unfold_M. rewrite Hs, (assertReady_ok s w Hready), Hloop.
  eexists _, w1. split; [reflexivity|]. split; [done|].
  intros k n Hkn. apply (Hpub (k, n)). by apply elem_of_map_to_list.
Qed.

Lemma sessionRemoved_files E sid w p :
  files (sessionRemoved E sid w) !! p
  = if under (sessionPath E sid) p then None else files w !! p.
Proof.
  unfold sessionRemoved, under. simpl.
  destruct (String.prefix (sessionPath E sid +:+ "/") p) eqn:Hp.
  - apply map_lookup_filter_None_2. right. intros x _. simpl.
    rewrite Hp. simpl. tauto.
  - destruct (files w !! p) as [x|] eqn:Hx.
    + apply map_lookup_filter_Some_2; [done|]. simpl. by rewrite Hp.
    + apply map_lookup_filter_None_2. by left.
Qed.

Lemma commitSession_ok_ready E sid w s res w' :
  sessions w !! sid = Some s →
  commitSession E sid w = (Ok res, w') →
  spec_ready s.
Proof.
  intros Hs Hrun. destruct (spec_ready_dec s) as [Hr|Hn]; [done|].
  apply not_ready_iff in Hn.
  destruct (commitSession_not_ready E sid w s Hs Hn) as (e & He & _).
  by rewrite He in Hrun.
Qed.

Lemma under_notePath E sid slug :
  under (sessionPath E sid) (notePath E sid slug) = true.
Proof. apply under_join2. Qed.

Lemma under_archivePath E sid i f :
  under (sessionPath E sid) (archivePath E sid i f) = true.
Proof. apply under_join2. Qed.

(** The commit of a ready session succeeds and publishes every note of
    the session, when the world was built by uploads whose archive files
    land in the directory of their session and the session is publishable
    (plain destination folders, no link to a member name of
    [Object.prototype]): the folder named after its date and slug is in
    the posts directory with an [index.md] in it, and, for a note whose
    date starts like an ISO date, the published-post cache then has an
    entry under the slug of the note, so that later links to it
    resolve. *)
Theorem commit_publishes_notes (E : Env) (w : World) (sid : string)
    (s : Session.t) :
  reachable_plain E w →
  sessions w !! sid = Some s →
  spec_ready s →
  publishable s →
  ∃ res w',
    commitSession E sid w = (Ok res, w')
    ∧ ∀ k n,
        Session.notes s !! k = Some n →
        folderOf n ∈ posts w'
        ∧ is_Some (files w' !! indexPath E (folderOf n))
        ∧ (dashed_date (Note.date n) = true → k ≠ "" →
           ∃ f, findExistingFolder (cacheOfFolders (posts w')) k = Some f
                ∧ f ∈ posts w').
Proof.
  intros Hreach%reachable_plain_reachable Hs Hready _.
  destruct (commitSession_effects E sid w s Hreach Hs Hready)
    as (res & w1 & Hrun & Hstep & Hpub).
  destruct (reachable_world_inv E w Hreach sid s Hs) as (_ & Hinv & _).
  exists res, (sessionRemoved E sid w1). split; [done|].
  intros k n Hkn. destruct (Hpub k n Hkn) as [Hin Hfile].
  split; [done|]. split.
  - rewrite sessionRemoved_files.
    unfold under.
    by rewrite (session_dir_not_posts E sid _ (folderOf n) "index.md").
  - intros Hd Hk. simpl.
    apply (cacheOfFolders_dated _ (Note.date n) k); [done|done|].
    pose proof (inv_note_slug _ _ _ Hinv k n Hkn) as Hslug.
    unfold folderOf in Hin. by rewrite Hslug in Hin.
Qed.

Lemma commit_publishes_notes_witness :
  reachable_plain Sample.serverEnv Sample.worldE
  ∧ sessions Sample.worldE !! Sample.sid = Some Sample.sessionE
  ∧ spec_ready Sample.sessionE
  ∧ publishable Sample.sessionE
  ∧ ∃ res w',
      commitSession Sample.serverEnv Sample.sid Sample.worldE = (Ok res, w')
      ∧ "2024-05-06-e" ∈ posts w'.
Proof.
  pose proof worldE_reachable_plain as Hreach.
  assert (sessions Sample.worldE !! Sample.sid = Some Sample.sessionE) as Hs
    by (vm_compute; exact eq_refl).
  pose proof sessionE_ready as Hready.
  pose proof sessionE_publishable as Hpub.
  do 4 (split; [done|]).
  destruct (commit_publishes_notes Sample.serverEnv Sample.worldE Sample.sid
              Sample.sessionE Hreach Hs Hready Hpub)
    as (res & w' & Hrun & Hall).
  exists res, w'. split; [done|].
  assert (∃ n, Session.notes Sample.sessionE !! "e" = Some n
               ∧ folderOf n = "2024-05-06-e") as (n & Hn & Hfolder).
  { eexists. split; [vm_compute; reflexivity|]. vm_compute. reflexivity. }
  rewrite <- Hfolder. by apply (Hall "e" n Hn).
Defined.

(** A commit that succeeds removes the session and changes nothing else,
    when the world was built by uploads whose archive files land in the
    directory of their session and the session is publishable.  No file is
    left below the directory of the session, under a path of plain
    segments (neither a note file nor an archive file), and asking for its
    status or committing it once more fails with "Session not found".
    Every file under a path of plain segments outside that directory and
    outside the destination folders of the notes is as it was, every other
    session is as it was, and the posts directory has the folders it had
    and, beyond them, destination folders of the notes only. *)
Theorem commit_removes_session_only (E : Env) (w w' : World) (sid : string)
    (s : Session.t) (res : Commit.t) :
  reachable_plain E w →
  sessions w !! sid = Some s →
  publishable s →
  commitSession E sid w = (Ok res, w') →
  (∀ p, plain_path p = true → under (sessionPath E sid) p = true →
        files w' !! p = None)
  ∧ (∀ slug, plain_segment (slug +:+ ".md") = true →
             files w' !! notePath E sid slug = None)
  ∧ (∀ i f, plain_segment (i +:+ "-" +:+ f) = true →
            files w' !! archivePath E sid i f = None)
  ∧ getSession sid w' = (Throw (Error "Session not found"), w')
  ∧ commitSession E sid w' = (Throw (Error "Session not found"), w')
  ∧ (∀ p, plain_path p = true → under (sessionPath E sid) p = false →
          ¬ destination E s p →
          files w' !! p = files w !! p)
  ∧ (∀ k, plain_segment k = true → k ≠ sid →
          sessions w' !! k = sessions w !! k)
  ∧ (∀ f, f ∈ posts w → f ∈ posts w')
  ∧ (∀ f, f ∈ posts w' →
          f ∈ posts w ∨ ∃ k n, Session.notes s !! k = Some n ∧ f = folderOf n).
Proof.
  intros Hreach%reachable_plain_reachable Hs _ Hrun.
  pose proof (commitSession_ok_ready E sid w s res w' Hs Hrun) as Hready.
  destruct (commitSession_effects E sid w s Hreach Hs Hready)
    as (res' & w1 & Hrun' & (Hsess & Hposts & _ & Hframe & Hnew) & _).
  rewrite Hrun in Hrun'. injection Hrun' as _ ->.
  assert (∀ p, under (sessionPath E sid) p = true →
               files (sessionRemoved E sid w1) !! p = None) as Hgone.
  { intros p Hp. by rewrite sessionRemoved_files, Hp. }
  split; [intros p _; apply Hgone|].
  split; [intros slug _; apply Hgone, under_notePath|].
  split; [intros i f _; apply Hgone, under_archivePath|].
  assert (sessions (sessionRemoved E sid w1) !! sid = None) as Hnone
    by apply lookup_delete_eq.
  split; [by apply getSession_no_session|].
  split; [by apply commitSession_no_session|].
  split; [|split; [|split]].
  - intros p _ Hp Hd. rewrite sessionRemoved_files, Hp. by apply Hframe.
  - intros k _ Hk. simpl. rewrite lookup_delete_ne by done. by rewrite Hsess.
  - done.
  - done.
Qed.

Lemma commit_removes_session_only_witness :
  reachable_plain Sample.serverEnv Sample.worldE
  ∧ sessions Sample.worldE !! Sample.sid = Some Sample.sessionE
  ∧ publishable Sample.sessionE
  ∧ ∃ res w',
      commitSession Sample.serverEnv Sample.sid Sample.worldE = (Ok res, w')
      ∧ files Sample.worldE
          !! notePath Sample.serverEnv Sample.sid "e" = Some "plain text"
      ∧ files w' !! notePath Sample.serverEnv Sample.sid "e" = None
      ∧ ∀ f, f ∈ posts Sample.worldE → f ∈ posts w'.
Proof.
  pose proof worldE_reachable_plain as Hreach.
  assert (sessions Sample.worldE !! Sample.sid = Some Sample.sessionE) as Hs
    by (vm_compute; exact eq_refl).
  pose proof sessionE_publishable as Hpub.
  do 3 (split; [done|]).
  destruct (commitSession Sample.serverEnv Sample.sid Sample.worldE)
    as [r w'] eqn:Hrun.
  assert (∃ res, r = Ok res) as [res ->].
  { assert ((commitSession Sample.serverEnv Sample.sid Sample.worldE).1
            = Ok {| Commit.success := true;
                    Commit.folders := ["2024-05-06-e"] |}) as H
      by (vm_compute; exact eq_refl).
    rewrite Hrun in H. simpl in H. by eexists. }
  exists res, w'. split; [done|]. split; [vm_compute; exact eq_refl|].
  destruct (commit_removes_session_only Sample.serverEnv Sample.worldE w'
              Sample.sid Sample.sessionE res Hreach Hs Hpub Hrun)
    as (_ & Hnote & _ & _ & _ & _ & _ & Hposts & _).
  split; [apply Hnote; reflexivity|exact Hposts].
Defined.

(** ** Sessions do not touch each other *)

(** In a world the operations built, an operation on one session leaves
    every other session as it is, for session identifiers that are plain
    names and archive files that land in the directory of their session:
    [addNote], [addArchive] and [commitSession] change at most the session
    they name, whether they return or throw, and [getSession] changes
    none. *)
Theorem sessions_are_isolated (E : Env) (w : World) (k : string) :
  reachable_plain E w →
  plain_segment k = true →
  (∀ req, plain_segment (AddNote.sessionId req) = true →
          AddNote.sessionId req ≠ k →
          sessions (addNote E req w).2 !! k = sessions w !! k)
  ∧ (∀ req, plain_segment (AddArchive.sessionId req) = true →
            str_forall is_not_slash (AddArchive.filename req) = true →
            AddArchive.sessionId req ≠ k →
            sessions (addArchive E req w).2 !! k = sessions w !! k)
  ∧ (∀ id, plain_segment id = true → id ≠ k →
           sessions (commitSession E id w).2 !! k = sessions w !! k)
  ∧ (∀ id, sessions (getSession id w).2 = sessions w).
Proof.
  intros Hreach%reachable_plain_reachable _.
  pose proof (reachable_world_inv E w Hreach) as Hinv.
  split; [|split; [|split]].
  - intros req _ Hne.
    destruct (addNote_world E req w) as (_ & _ & [Hsame|[sum Hrun]]).
    { by rewrite Hsame. }
    destruct (addNote E req w) as [r w'] eqn:Hadd. simpl in *.
    injection Hrun as ->.
    destruct (addNote_ok_analysed E req w sum w' Hinv Hadd)
      as (s1 & nt & meta & body & wl & d2 & _ & _ & _ & _ & _ & _ & _ & H).
    cbv zeta in H. destruct H as [-> _]. simpl.
    by rewrite lookup_insert_ne.
  - intros req _ _ Hne.
    destruct (addArchive E req w) as [r w'] eqn:Hadd. simpl.
    destruct r as [sum|e].
    + destruct (addArchive_ok_world E req w sum w' Hinv Hadd)
        as (s1 & a & _ & _ & H).
      cbv zeta in H. destruct H as [-> _]. simpl.
      by rewrite lookup_insert_ne.
    + destruct (addArchive_world E req w) as [Hw|(?&?&?&?&?&_&_&Hok)].
      * rewrite Hadd in Hw. simpl in Hw. by subst w'.
      * rewrite Hadd in Hok. done.
  - intros id _ Hne.
    destruct (sessions w !! id) as [s|] eqn:Hs.
    2:{ by rewrite commitSession_no_session. }
    destruct (spec_ready_dec s) as [Hready|Hn].
    + destruct (commitSession_effects E id w s Hreach Hs Hready)
        as (res & w1 & Hrun & (Hsess & _) & _).
      rewrite Hrun. simpl. rewrite lookup_delete_ne by done.
      by rewrite Hsess.
    + apply not_ready_iff in Hn.
      destruct (commitSession_not_ready E id w s Hs Hn) as (e & -> & _).
      done.
  - intros id. by rewrite getSession_world.
Qed.

Lemma sessions_are_isolated_witness :
  reachable_plain Sample.serverEnv Sample.world0
  ∧ plain_segment "another" = true
  ∧ plain_segment (AddNote.sessionId Sample.noteA) = true
  ∧ AddNote.sessionId Sample.noteA ≠ "another"
  ∧ sessions (addNote Sample.serverEnv Sample.noteA Sample.world0).2
      !! "another"
    = sessions Sample.world0 !! "another".
Proof.
  assert (reachable_plain Sample.serverEnv Sample.world0) as Hreach
    by (by apply (sample_reachable_plain [OpCreateSession])).
  split; [done|]. split; [reflexivity|].
  split; [vm_compute; exact eq_refl|]. split; [done|].
  destruct (sessions_are_isolated Sample.serverEnv Sample.world0
              "another" Hreach) as (Hnote & _); [reflexivity|].
  apply Hnote; [vm_compute; exact eq_refl|done].
Defined.

(** ** Trimming *)

Lemma str_rev_cons c r : String.rev (String c r) = String.rev r +:+ String c "".
Proof. unfold String.rev at 1. simpl. apply str_rev_app_cat. Qed.

Lemma str_rev_app a b : String.rev (a +:+ b) = String.rev b +:+ String.rev a.
Proof.
  induction a as [|c a IH]; simpl.
  - by rewrite str_app_nil_r.
  - by rewrite !str_rev_cons, IH, str_app_assoc.
Qed.

Lemma trim_start_idem s : Str.trim_start (Str.trim_start s) = Str.trim_start s.
Proof.
  induction s as [|c s IH]; [done|].
  simpl. destruct (Str.is_space c) eqn:Hc; [done|]. simpl. by rewrite Hc.
Qed.

Lemma trim_start_app c a b :
  Str.is_space c = false →
  Str.trim_start (a +:+ String c b) = Str.trim_start a +:+ String c b.
Proof.
  intros Hc. induction a as [|x a IH]; simpl.
  - by rewrite Hc.
  - by destruct (Str.is_space x).
Qed.

Lemma trim_end_cons c r :
  Str.is_space c = false →
  Str.trim_end (String c r) = String c (Str.trim_end r).
Proof.
  intros Hc. unfold Str.trim_end.
  rewrite str_rev_cons, trim_start_app by done.
  by rewrite str_rev_app.
Qed.

Lemma trim_end_idem s : Str.trim_end (Str.trim_end s) = Str.trim_end s.
Proof.
  unfold Str.trim_end. by rewrite str_rev_involutive, trim_start_idem.
Qed.

Lemma trim_start_head s :
  match Str.trim_start s with
  | "" => True
  | String c _ => Str.is_space c = false
  end.
Proof.
  induction s as [|c s IH]; [done|].
  simpl. destruct (Str.is_space c) eqn:Hc; [done|]. done.
Qed.

(** Trimming a trimmed string changes nothing. *)
Lemma trim_idem s : Str.trim (Str.trim s) = Str.trim s.
Proof.
  unfold Str.trim. pose proof (trim_start_head s) as Hhead.
  destruct (Str.trim_start s) as [|c r]; [done|].
  rewrite (trim_end_cons c r Hhead). simpl. rewrite Hhead.
  rewrite (trim_end_cons c _ Hhead). by rewrite trim_end_idem.
Qed.

(** ** [normalizeTags] of server.js *)

Lemma dedup_elem seen l x :
  x ∈ Sample.dedup seen l ↔ x ∈ l ∧ x ∉ seen.
Proof.
  revert seen. induction l as [|y l IH]; intros seen; simpl.
  - split; [by intros ?%elem_of_nil|by intros [?%elem_of_nil _]].
  - case_bool_decide as Hy.
    + rewrite IH, elem_of_cons. split; [by intros [? ?]; auto|].
      intros [[->|Hx] Hs]; [done|by split].
    + rewrite !elem_of_cons, IH, elem_of_cons. split.
      * intros [->|[Hx Hs]]; [by split; [left|]|].
        split; [by right|]. intros Hin. apply Hs. by right.
      * intros [[->|Hx] Hs]; [by left|].
        destruct (decide (x = y)) as [->|Hne]; [by left|].
        right. split; [done|]. by intros [?|?].
Qed.

Lemma dedup_NoDup seen l : NoDup (Sample.dedup seen l).
Proof.
  revert seen. induction l as [|y l IH]; intros seen; simpl.
  - constructor.
  - case_bool_decide as Hy; [apply IH|].
    constructor; [|apply IH].
    rewrite dedup_elem. intros [_ Hn]. apply Hn. by left.
Qed.

Lemma dedup_id seen l :
  NoDup l → (∀ x, x ∈ l → x ∉ seen) → Sample.dedup seen l = l.
Proof.
  intros Hnd. revert seen. induction Hnd as [|y l Hy Hnd IH]; intros seen Hs.
  - done.
  - simpl. rewrite bool_decide_eq_false_2 by (apply Hs; by left).
    f_equal. apply IH. intros x Hx [->|Hin]%elem_of_cons; [done|].
    by apply (Hs x); [right|].
Qed.

Lemma filter_id_Forall {A} (P : A → Prop) `{∀ x, Decision (P x)} (l : list A) :
  Forall P l → filter P l = l.
Proof.
  induction 1 as [|x l Hx Hl IH]; [done|].
  rewrite filter_cons_True by done. by rewrite IH.
Qed.

Lemma cleaned_wellformed l :
  let cleaned :=
    Sample.dedup [] (filter (λ t, Str.truthy t) (Str.trim <$> l)) in
  NoDup cleaned
  ∧ ∀ t, t ∈ cleaned ↔ t ≠ "" ∧ t ∈ Str.trim <$> l.
Proof.
  cbv zeta. split; [apply dedup_NoDup|].
  intros t. rewrite dedup_elem, list_elem_of_filter.
  split.
  - intros [[Ht Hin] _]. split; [|done].
    by apply str_truthy_true, Is_true_eq_true.
  - intros [Ht Hin]. split; [|by intros ?%elem_of_nil].
    split; [|done]. by apply Is_true_eq_left, str_truthy_true.
Qed.

(** [normalizeTags] never returns an empty list: the result has no
    duplicates and only trimmed, non-empty tags.  For an array with at
    least one tag that is not blank, it holds exactly the trimmed tags that
    are not empty; for a blank or missing value and for an array of blank
    tags it is the default tag alone. *)
Theorem normalizeTags_wellformed (tags : TagsValue) :
  let result := Sample.server_normalizeTags tags in
  result ≠ []
  ∧ NoDup result
  ∧ (∀ t, t ∈ result → t ≠ "" ∧ Str.trim t = t)
  ∧ (∀ l, tags = TagsMany l →
          ((∃ x, x ∈ l ∧ Str.trim x ≠ "") →
           ∀ t, t ∈ result ↔ t ≠ "" ∧ t ∈ Str.trim <$> l)
          ∧ ((∀ x, x ∈ l → Str.trim x = "") →
             result = [Sample.DEFAULT_TAG]))
  ∧ (tags = TagsAbsent ∨ tags = TagsOne "" →
     result = [Sample.DEFAULT_TAG]).
Proof.
  cbv zeta.
  assert (∀ l,
            let cleaned :=
              Sample.dedup [] (filter (λ t, Str.truthy t) (Str.trim <$> l)) in
            let r :=
              match cleaned with
              | [] => [Sample.DEFAULT_TAG]
              | _ => cleaned
              end in
            r ≠ [] ∧ NoDup r
            ∧ (∀ t, t ∈ r → t ≠ "" ∧ Str.trim t = t)
            ∧ ((∃ x, x ∈ l ∧ Str.trim x ≠ "") →
               ∀ t, t ∈ r ↔ t ≠ "" ∧ t ∈ Str.trim <$> l)
            ∧ (¬ (∃ x, x ∈ l ∧ Str.trim x ≠ "") →
               r = [Sample.DEFAULT_TAG])) as Hlist.
  { intros l. cbv zeta.
    destruct (cleaned_wellformed l) as [Hnd Hel]. cbv zeta in Hnd, Hel.
    destruct (Sample.dedup [] (filter (λ t, Str.truthy t) (Str.trim <$> l)))
      as [|c cs] eqn:Hc.
    - split; [done|]. split; [apply NoDup_singleton|].
      split; [by intros t ->%list_elem_of_singleton|].
      split; [|done].
      intros (x & Hx & Hne). exfalso.
      assert (Str.trim x ∈ @nil string) as Hin; [|by apply elem_of_nil in Hin].
      apply Hel. split; [done|]. apply list_elem_of_fmap. by exists x.
    - split; [done|]. split; [done|].
      split; [|split; [done|]].
      + intros t Ht. apply Hel in Ht as [Hne Hin].
        split; [done|].
        apply list_elem_of_fmap in Hin as (x & -> & _). apply trim_idem.
      + intros Hno. exfalso. apply Hno.
        assert (c ∈ c :: cs) as Hin by apply list_elem_of_here.
        apply Hel in Hin as [Hne Hin].
        apply list_elem_of_fmap in Hin as (x & -> & Hx). by exists x. }
  destruct tags as [|t|l]; unfold Sample.server_normalizeTags.
  - split; [done|]. split; [apply NoDup_singleton|].
    split; [by intros t ->%list_elem_of_singleton|]. split; [done|by auto].
  - destruct (Str.truthy t) eqn:Ht.
    + destruct (Hlist [t]) as (H1 & H2 & H3 & _). cbv zeta in *.
      split; [exact H1|]. split; [exact H2|]. split; [exact H3|].
      split; [done|]. intros [?|[= ->]]; done.
    + split; [done|]. split; [apply NoDup_singleton|].
      split; [by intros ? ->%list_elem_of_singleton|]. split; [done|by auto].
  - destruct (Hlist l) as (H1 & H2 & H3 & H4 & H5). cbv zeta in *.
    split; [exact H1|]. split; [exact H2|]. split; [exact H3|].
    split; [|by intros [?|?]].
    intros l' [= <-]. split; [exact H4|].
    intros Hall. apply H5. intros (x & Hx & Hne). by apply Hne, Hall.
Qed.

Lemma normalizeTags_shape tags :
  Sample.server_normalizeTags tags ≠ []
  ∧ NoDup (Sample.server_normalizeTags tags)
  ∧ ∀ t, t ∈ Sample.server_normalizeTags tags → t ≠ "" ∧ Str.trim t = t.
Proof.
  assert (∀ l,
            let cleaned :=
              Sample.dedup [] (filter (λ t, Str.truthy t) (Str.trim <$> l)) in
            let r :=
              match cleaned with
              | [] => [Sample.DEFAULT_TAG]
              | _ => cleaned
              end in
            r ≠ [] ∧ NoDup r ∧ (∀ t, t ∈ r → t ≠ "" ∧ Str.trim t = t))
    as Hlist.
  { intros l. cbv zeta.
    destruct (cleaned_wellformed l) as [Hnd Hel]. cbv zeta in Hnd, Hel.
    destruct (Sample.dedup [] (filter (λ t, Str.truthy t) (Str.trim <$> l)))
      as [|c cs] eqn:Hc.
    - split; [done|]. split; [apply NoDup_singleton|].
      by intros t ->%list_elem_of_singleton.
    - split; [done|]. split; [done|].
      intros t Ht. apply Hel in Ht as [Hne Hin].
      split; [done|].
      apply list_elem_of_fmap in Hin as (x & -> & _). apply trim_idem. }
  destruct tags as [|t|l]; unfold Sample.server_normalizeTags.
  - split; [done|]. split; [apply NoDup_singleton|].
    by intros t ->%list_elem_of_singleton.
  - destruct (Str.truthy t); [exact (Hlist [t])|].
    split; [done|]. split; [apply NoDup_singleton|].
    by intros ? ->%list_elem_of_singleton.
  - exact (Hlist l).
Qed.

(** [normalizeTags] is idempotent: normalizing its own result gives the
    same list. *)
Theorem normalizeTags_idempotent (tags : TagsValue) :
  Sample.server_normalizeTags (TagsMany (Sample.server_normalizeTags tags))
  = Sample.server_normalizeTags tags.
Proof.
  destruct (normalizeTags_shape tags) as (Hne & Hnd & Hel).
  set (r := Sample.server_normalizeTags tags) in *.
  unfold Sample.server_normalizeTags at 1.
  assert (Str.trim <$> r = r) as ->.
  { rewrite <- (list_fmap_id r) at 2. apply list_fmap_ext.
    intros i x Hx. apply Hel. by eapply list_elem_of_lookup_2. }
  rewrite filter_id_Forall.
  2:{ apply Forall_forall. intros x Hx.
      apply Is_true_eq_left, str_truthy_true. by apply Hel. }
  rewrite dedup_id; [|done|by intros x _ ?%elem_of_nil].
  by destruct r.
Qed.

(** ** Text without links *)

(** A body without an opening bracket holds no link: both scanners find
    nothing and both converters return the body as it is, without a draw
    from the random source. *)
Theorem text_without_brackets (E : Env) (body : string) (session : Session.t)
    (note : Note.t) (currentSlug : string)
    (folderMap existingCache archiveMap : gmap string string) (w : World) :
  str_forall is_not_lbracket body = true →
  extractExternalLinks body = []
  ∧ extractWikiLinks E body w = (Ok [], w)
  ∧ convertWikiLinks E body session currentSlug folderMap existingCache w
    = (Ok body, w)
  ∧ convertExternalLinks E body note archiveMap w = (Ok body, w).
Proof.
  intros Hb. split; [|split; [|split]].
  - pose proof (scan_skip external_attempt is_not_lbracket body "") as H.
    rewrite str_app_nil_r in H. unfold extractExternalLinks.
    fold external_attempt. rewrite H; [done| |done].
    intros c r Hc. unfold external_attempt.
    by rewrite match_external_lbracket.
  - pose proof (extractWikiLinks_skip E body "" w Hb) as H.
    rewrite str_app_nil_r in H. unfold extractWikiLinks. by rewrite H.
  - pose proof (replaceAll_skip
                  (convert_wiki_attempt E session folderMap existingCache)
                  is_not_lbracket body "" w) as H.
    rewrite str_app_nil_r in H. rewrite convertWikiLinks_unfold.
    rewrite H; [simpl; unfold bind, ret; by rewrite str_app_nil_r| |done].
    intros c r Hc. unfold convert_wiki_attempt.
    by rewrite match_wiki_lbracket.
  - pose proof (replaceAll_skip (convert_external_attempt E archiveMap)
                  is_not_lbracket body "" w) as H.
    rewrite str_app_nil_r in H. rewrite convertExternalLinks_unfold.
    rewrite H; [simpl; unfold bind, ret; by rewrite str_app_nil_r| |done].
    intros c r Hc. unfold convert_external_attempt.
    by rewrite match_external_lbracket.
Qed.

Lemma text_without_brackets_witness :
  str_forall is_not_lbracket "plain text" = true
  ∧ extractExternalLinks "plain text" = []
  ∧ extractWikiLinks Sample.serverEnv "plain text" Sample.emptyWorld
    = (Ok [], Sample.emptyWorld).
Proof.
  split; [done|].
  destruct (text_without_brackets Sample.serverEnv "plain text"
              Sample.sessionE SampleNotes.storedC "e" ∅ ∅ ∅ Sample.emptyWorld)
    as (H1 & H2 & _); [done|].
  by split.
Defined.

(** ** What an archive upload stores *)

Lemma stripDataUri_empty_type payload :
  stripDataUri ("data:," +:+ payload) = "data:," +:+ payload.
Proof. reflexivity. Qed.

(** The file an accepted archive upload writes, for a file name without
    a slash, holds the decoded payload: of a data URI [data:<type>,<payload>] what follows the first comma is
    decoded, of anything else (data that does not start with [data:], or a
    data URI with nothing between the colon and the comma) the whole
    string. *)
Theorem addArchive_stores_payload (E : Env) (req : AddArchive.t) (w : World)
    (s : Session.t) (a : Archive.t) :
  let sid := AddArchive.sessionId req in
  let i := archiveIdFromUrl E (AddArchive.sourceUrl req) in
  let stored :=
    files (addArchive E req w).2
      !! archivePath E sid i (AddArchive.filename req) in
  sessions w !! sid = Some s →
  Session.archives s !! i = Some a →
  AddArchive.sourceUrl req ≠ "" →
  AddArchive.filename req ≠ "" →
  str_forall is_not_slash (AddArchive.filename req) = true →
  (∀ mime payload,
     AddArchive.data req = "data:" +:+ mime +:+ "," +:+ payload →
     mime ≠ "" → str_forall is_not_comma mime = true →
     stored = Some (base64_decode E payload))
  ∧ (∀ payload,
       AddArchive.data req = "data:," +:+ payload →
       stored = Some (base64_decode E (AddArchive.data req)))
  ∧ (AddArchive.data req ≠ "" →
     String.prefix "data:" (AddArchive.data req) = false →
     stored = Some (base64_decode E (AddArchive.data req))).
Proof.
  intros sid i stored Hs Ha Hu Hf _.
  assert (AddArchive.data req ≠ "" →
          stored = Some (base64_decode E (stripDataUri (AddArchive.data req))))
    as Hstored.
  { intros Hd. subst stored.
    destruct (addArchive_cases E req w) as (_ & _ & Hsome).
    destruct (Hsome s a Hu Hf Hd Hs Ha) as (_ & _ & _ & sum & -> & _).
    simpl. apply lookup_insert_eq. }
  split; [|split].
  - intros mime payload Hdata Hm Hfm.
    rewrite Hstored by (by rewrite Hdata).
    by rewrite Hdata, stripDataUri_prefixed.
  - intros payload Hdata.
    rewrite Hstored by (by rewrite Hdata).
    by rewrite Hdata at 1; rewrite stripDataUri_empty_type, <- Hdata.
  - intros Hd Hp. rewrite Hstored by done. by rewrite stripDataUri_plain.
Qed.

Lemma addArchive_stores_payload_witness :
  let E := Sample.serverEnv in
  let req := Sample.archiveExample in
  sessions Sample.worldA !! AddArchive.sessionId req = Some Sample.sessionA
  ∧ Session.archives Sample.sessionA
      !! archiveIdFromUrl E (AddArchive.sourceUrl req) = Some Sample.archiveA
  ∧ files (addArchive E req Sample.worldA).2
      !! archivePath E (AddArchive.sessionId req)
           (archiveIdFromUrl E (AddArchive.sourceUrl req))
           (AddArchive.filename req)
    = Some (base64_decode E "PGh0bWw+").
Proof.
  cbv zeta.
  assert (sessions Sample.worldA
            !! AddArchive.sessionId Sample.archiveExample
          = Some Sample.sessionA) as Hs by (vm_compute; exact eq_refl).
  assert (Session.archives Sample.sessionA
            !! archiveIdFromUrl Sample.serverEnv
                 (AddArchive.sourceUrl Sample.archiveExample)
          = Some Sample.archiveA) as Ha by (vm_compute; exact eq_refl).
  split; [done|]. split; [done|].
  destruct (addArchive_stores_payload Sample.serverEnv Sample.archiveExample
              Sample.worldA Sample.sessionA Sample.archiveA Hs Ha)
    as (Huri & _); [done|done|reflexivity|].
  by apply (Huri "text/html;base64" "PGh0bWw+").
Defined.

(** ** Why a commit is refused *)

(** [commitSession] tells the first thing that is missing: pending notes
    before unresolved archives, unresolved archives before the entry
    document; in each case storage is left as it is. *)
Theorem commit_refusal_message (E : Env) (w : World) (sid : string)
    (s : Session.t) :
  sessions w !! sid = Some s →
  (Session.pendingNotes s ≠ ∅ →
   commitSession E sid w
   = (Throw (Error "Cannot commit: missing linked notes"), w))
  ∧ (Session.pendingNotes s = ∅ →
     (∃ k a, Session.archives s !! k = Some a ∧ Archive.resolved a = false) →
     commitSession E sid w
     = (Throw (Error "Cannot commit: missing archive uploads"), w))
  ∧ (dependencies_satisfied s → ¬ mainSlug_set s →
     commitSession E sid w = (Throw (Error "No main note uploaded"), w)).
Proof.
  intros Hs.
  assert (∀ e, assertReady s w = (Throw e, w) →
               commitSession E sid w = (Throw e, w)) as Hthrow.
  { intros e He. unfold commitSession, loadSession. unfold_M.
    by rewrite Hs, He. }
  split; [|split].
  - intros Hp. apply Hthrow. unfold assertReady.
    destruct (0 <? size (Session.pendingNotes s)) eqn:Hsize; [done|].
    apply Nat.ltb_ge in Hsize.
    destruct Hp. apply map_size_empty_iff. lia.
  - intros Hp (k & a & Ha & Hr). apply Hthrow. unfold assertReady.
    rewrite Hp, map_size_empty. simpl.
    destruct (0 <? length (pendingArchivesOf s)) eqn:Hlen; [done|].
    apply Nat.ltb_ge in Hlen.
    assert (pendingArchivesOf s = []) as Hnil
      by (apply nil_length_inv; lia).
    rewrite (proj1 (pendingArchivesOf_nil s) Hnil k a Ha) in Hr. done.
  - intros [Hp Hres] Hm. apply Hthrow. unfold assertReady.
    rewrite Hp, map_size_empty. simpl.
    rewrite (proj2 (pendingArchivesOf_nil s) Hres). simpl.
    unfold mainSlug_set in Hm.
    by destruct (Str.truthy_opt (Session.mainSlug s)).
Qed.

Lemma commit_refusal_message_witness :
  sessions Sample.worldA !! Sample.sid = Some Sample.sessionA
  ∧ Session.pendingNotes Sample.sessionA ≠ ∅
  ∧ commitSession Sample.serverEnv Sample.sid Sample.worldA
    = (Throw (Error "Cannot commit: missing linked notes"), Sample.worldA).
Proof.
  assert (sessions Sample.worldA !! Sample.sid = Some Sample.sessionA) as Hs
    by (vm_compute; exact eq_refl).
  assert (Session.pendingNotes Sample.sessionA ≠ ∅) as Hp.
  { intros H. assert (Session.pendingNotes Sample.sessionA !! "b" = None) as Hb
      by (by rewrite H, lookup_empty).
    vm_compute in Hb. discriminate Hb. }
  split; [done|]. split; [done|].
  destruct (commit_refusal_message Sample.serverEnv Sample.worldA Sample.sid
              Sample.sessionA Hs) as (Hmsg & _).
  by apply Hmsg.
Defined.

(** ** What a note upload stores *)

(** When [addNote] returns, for a session stored under its own
    identifier, a plain name: the document is stored as uploaded under the
    path of the slug it was given, the summary is the summary of the named
    session, the slug is not among the pending notes, and it is [mainSlug]
    when the note was uploaded as entry document; the summary lists the
    note under that slug, with its main flag, unless the slug is
    [__proto__] (an assignment under that name adds no entry to
    [session.notes]). *)
Theorem addNote_registers_note (E : Env) (w w' : World) (req : AddNote.t)
    (sum : Summary.t) :
  ids_agree w →
  plain_segment (AddNote.sessionId req) = true →
  addNote E req w = (Ok sum, w') →
  ∃ slug,
    files w' !! notePath E (AddNote.sessionId req) slug
    = Some (AddNote.content req)
    ∧ Summary.sessionId sum = AddNote.sessionId req
    ∧ (slug ≠ "__proto__" →
       ∃ ns, ns ∈ Summary.notes sum
             ∧ Summary.slug ns = slug
             ∧ Summary.isMain ns = AddNote.isMain req)
    ∧ (slug ∉ Summary.pn_slug <$> Summary.pendingNotes sum)
    ∧ (AddNote.isMain req = true → Summary.mainSlug sum = Some slug).
Proof.
  intros Hids _ Hrun.
  destruct (addNote_ok_stored E req w sum w' Hids Hrun)
    as (s & nt & meta & body & wl & d2 & _ & _ & Hs & _ & _ & _ & Hparse & H).
  cbv zeta in H. destruct H as [Hw' Hsum].
  exists (Meta.slug meta).
  split; [rewrite Hw'; simpl; apply lookup_insert_eq|].
  pose proof (Hids _ _ Hs) as Hid.
  unfold sessionAfterNote in Hsum.
  set (s' := registerNote E s (Meta.slug meta)
               (Meta.set_tags (TagsMany (nt (Meta.tags meta))) meta) body
               (notePath E (AddNote.sessionId req) (Meta.slug meta))
               (AddNote.isMain req) wl (extractExternalLinks body)
               (cacheOfFolders (posts w))) in *.
  unfold summarizeSession, buildExistingCache in Hsum. unfold_M.
  injection Hsum as <-. simpl.
  split; [unfold s'; by rewrite registerNote_id|].
  split; [|split].
  - intros _. eexists. split.
    + apply list_elem_of_fmap. eexists. split; [reflexivity|].
      apply list_elem_of_fmap.
      exists (Meta.slug meta,
              noteOf E (Meta.slug meta)
                (Meta.set_tags (TagsMany (nt (Meta.tags meta))) meta) body
                (notePath E (AddNote.sessionId req) (Meta.slug meta))
                (AddNote.isMain req) wl (extractExternalLinks body)).
      split; [reflexivity|]. apply elem_of_map_to_list.
      unfold s'. apply registerNote_note.
    + done.
  - intros Hin. apply list_elem_of_fmap in Hin as (pn & Hslug & Hpn).
    apply list_elem_of_fmap in Hpn as ([t p] & -> & Htp).
    apply elem_of_map_to_list in Htp. simpl in Hslug. subst t.
    assert (is_Some (Session.pendingNotes s' !! Meta.slug meta)) as Hsome
      by (by eexists).
    unfold s' in Hsome.
    apply registerNote_pending_is_Some in Hsome as [Hne _]. done.
  - intros Hmain. unfold s'. by rewrite registerNote_mainSlug, Hmain.
Qed.

Lemma addNote_registers_note_witness :
  ids_agree Sample.world0
  ∧ plain_segment (AddNote.sessionId Sample.noteA) = true
  ∧ ∃ sum w' slug,
      addNote Sample.serverEnv Sample.noteA Sample.world0 = (Ok sum, w')
      ∧ files w' !! notePath Sample.serverEnv Sample.sid slug
        = Some (AddNote.content Sample.noteA)
      ∧ Summary.mainSlug sum = Some slug.
Proof.
  assert (ids_agree Sample.world0) as Hids.
  { apply (reachable_ids_agree Sample.serverEnv). apply sample_reachable. }
  assert (plain_segment (AddNote.sessionId Sample.noteA) = true) as Hplain
    by (vm_compute; exact eq_refl).
  split; [done|]. split; [done|].
  destruct (addNote_bound_normalizeTags Sample.serverEnv Sample.noteA
              Sample.world0
              (defaultSession Sample.sid "2024-05-06T07:08:09.000Z")
              Sample.server_normalizeTags)
    as (sum & w' & Hrun); [done|done|done|vm_compute; exact eq_refl|].
  destruct (addNote_registers_note Sample.serverEnv Sample.world0 w'
              Sample.noteA sum Hids Hplain Hrun)
    as (slug & Hfile & _ & _ & _ & Hmain).
  exists sum, w', slug. split; [done|]. split; [exact Hfile|by apply Hmain].
Defined.

(** ** Uploading a document again *)

Lemma archivesAfter_fixed E x el (m : gmap string Archive.t) :
  (∀ link, link ∈ el →
           ∃ a, m !! archiveIdFromUrl E (ExternalLink.url link) = Some a
                ∧ x ∈ Archive.referencedBy a) →
  archivesAfter E x el m = m.
Proof.
  induction el as [|l el IH]; intros H; [done|].
  unfold archivesAfter. simpl. fold (archivesAfter E x el).
  destruct (H l) as (a & Ha & Hx); [apply list_elem_of_here|].
  assert (archiveEntry m (archiveIdFromUrl E (ExternalLink.url l))
            (ExternalLink.url l) x = a) as ->.
  { unfold archiveEntry. rewrite Ha. by rewrite bool_decide_eq_true_2. }
  rewrite (insert_id _ _ _ Ha).
  apply IH. intros link Hin. apply H. by apply list_elem_of_further.
Qed.

Lemma archivesAfter_idem E x el m :
  archivesAfter E x el (archivesAfter E x el m) = archivesAfter E x el m.
Proof. apply archivesAfter_fixed. intros link Hin. by apply archivesAfter_link. Qed.

Lemma pendingAfter_cons notes c src dep wl pm :
  pendingAfter notes c src (dep :: wl) pm
  = pendingAfter notes c src wl
      (match notes !! WikiLink.targetSlug dep,
             findExistingFolder c (WikiLink.targetSlug dep) with
       | None, None =>
           <[WikiLink.targetSlug dep := pendingEntry pm src dep]> pm
       | _, _ => pm
       end).
Proof. reflexivity. Qed.

Lemma pendingEntry_has_src pm src dep :
  src ∈ Pending.referencedBy (pendingEntry pm src dep).
Proof.
  unfold pendingEntry. case_bool_decide as H; [done|].
  simpl. apply elem_of_app. right. apply list_elem_of_here.
Qed.

Lemma pendingAfter_keeps_src notes c src wl pm t p :
  pm !! t = Some p → src ∈ Pending.referencedBy p →
  ∃ p', pendingAfter notes c src wl pm !! t = Some p'
        ∧ src ∈ Pending.referencedBy p'.
Proof.
  revert pm p. induction wl as [|dep wl IH]; intros pm p Hp Hsrc.
  { by exists p. }
  rewrite pendingAfter_cons.
  destruct (notes !! WikiLink.targetSlug dep);
    [by eapply IH|].
  destruct (findExistingFolder c (WikiLink.targetSlug dep));
    [by eapply IH|].
  destruct (decide (WikiLink.targetSlug dep = t)) as [Heq|Hne].
  - eapply IH; [rewrite Heq; apply lookup_insert_eq|].
    apply pendingEntry_has_src.
  - eapply IH; [by rewrite lookup_insert_ne|done].
Qed.

Lemma pendingAfter_link notes c src wl pm dep :
  dep ∈ wl →
  notes !! WikiLink.targetSlug dep = None →
  findExistingFolder c (WikiLink.targetSlug dep) = None →
  ∃ p, pendingAfter notes c src wl pm !! WikiLink.targetSlug dep = Some p
       ∧ src ∈ Pending.referencedBy p.
Proof.
  revert pm. induction wl as [|d wl IH]; intros pm Hin Hn Hf.
  { by apply elem_of_nil in Hin. }
  rewrite pendingAfter_cons.
  apply elem_of_cons in Hin as [<-|Hin]; [|by apply IH].
  rewrite Hn, Hf.
  eapply pendingAfter_keeps_src; [apply lookup_insert_eq|].
  apply pendingEntry_has_src.
Qed.

Lemma pendingAfter_fixed notes c src wl (pm : gmap string Pending.t) :
  (∀ dep, dep ∈ wl →
          notes !! WikiLink.targetSlug dep = None →
          findExistingFolder c (WikiLink.targetSlug dep) = None →
          ∃ p, pm !! WikiLink.targetSlug dep = Some p
               ∧ src ∈ Pending.referencedBy p) →
  pendingAfter notes c src wl pm = pm.
Proof.
  induction wl as [|dep wl IH]; intros H; [done|].
  rewrite pendingAfter_cons.
  destruct (notes !! WikiLink.targetSlug dep) eqn:Hn.
  { apply IH. intros d Hd. apply H. by apply list_elem_of_further. }
  destruct (findExistingFolder c (WikiLink.targetSlug dep)) eqn:Hf.
  { apply IH. intros d Hd. apply H. by apply list_elem_of_further. }
  destruct (H dep) as (p & Hp & Hsrc); [apply list_elem_of_here|done|done|].
  assert (pendingEntry pm src dep = p) as ->.
  { unfold pendingEntry. rewrite Hp. by rewrite bool_decide_eq_true_2. }
  rewrite (insert_id _ _ _ Hp).
  apply IH. intros d Hd. apply H. by apply list_elem_of_further.
Qed.

(** Registering the same document twice gives the session of the first
    time. *)
Lemma registerNote_idem E s slug meta body ft isMain wl el c :
  registerNote E (registerNote E s slug meta body ft isMain wl el c)
    slug meta body ft isMain wl el c
  = registerNote E s slug meta body ft isMain wl el c.
Proof.
  rewrite (registerNote_eq E (registerNote E s slug meta body ft isMain wl el c)).
  rewrite !registerNote_eq. simpl.
  rewrite insert_insert_eq, archivesAfter_idem.
  set (notes' := <[slug := noteOf E slug meta body ft isMain wl el]>
                   (Session.notes s)).
  set (X := pendingAfter notes' c slug wl (delete slug (Session.pendingNotes s))).
  assert (X !! slug = None) as Hnone.
  { apply eq_None_not_Some. unfold X. rewrite pendingAfter_is_Some.
    intros [[p Hp]|(_ & Hn & _)].
    - by rewrite lookup_delete_eq in Hp.
    - unfold notes' in Hn. by rewrite lookup_insert_eq in Hn. }
  rewrite (delete_id _ _ Hnone).
  rewrite (pendingAfter_fixed notes' c slug wl X).
  2:{ intros dep Hdep Hn Hf. unfold X. by apply pendingAfter_link. }
  by destruct isMain.
Qed.

(** Uploading a document a second time changes nothing, when its front
    matter carries a date and neither its slug nor a slug of its links
    comes from the random source: the call returns the same summary and
    leaves storage as the first call left it.  (A document without a
    date is dated by the clock at each upload.) *)
Theorem addNote_idempotent (E : Env) (w w' : World) (req : AddNote.t)
    (sum : Summary.t) :
  reachable_plain E w →
  dated E req →
  addNote E req w = (Ok sum, w') →
  draws w' = draws w →
  addNote E req w' = (Ok sum, w').
Proof.
  intros Hreach%reachable_plain_reachable _ Hrun Hdraws.
  pose proof (reachable_world_inv E w Hreach) as Hinv.
  assert (world_inv E w') as Hinv'.
  { pose proof (addNote_world_inv E req w Hinv) as H. by rewrite Hrun in H. }
  destruct (addNote_ok_analysed E req w sum w' Hinv Hrun)
    as (s & nt & meta & body & wl & d2 & Hf & Hc & Hs & Hscope & Han & _
        & _ & H).
  cbv zeta in H. destruct H as [Hw' Hsum].
  set (s1 := sessionAfterNote E nt req (cacheOfFolders (posts w)) s meta
               body wl) in *.
  assert (sessions w' !! AddNote.sessionId req = Some s1) as Hs1
    by (rewrite Hw'; simpl; apply lookup_insert_eq).
  assert (d2 = draws w) as Hd2 by (rewrite <- Hdraws, Hw'; done).
  assert (now w' = now w ∧ posts w' = posts w) as [Hnow Hposts]
    by (rewrite Hw'; done).
  destruct (addNote_bound_normalizeTags E req w' s1 nt Hscope Hf Hc Hs1)
    as (sum2 & w2 & Hrun2).
  destruct (addNote_ok_analysed E req w' sum2 w2 Hinv' Hrun2)
    as (s' & nt' & meta' & body' & wl' & d2' & _ & _ & Hs' & Hscope' & Han'
        & _ & _ & H).
  cbv zeta in H. destruct H as [Hw2 Hsum2].
  rewrite Hs1 in Hs'. injection Hs' as <-.
  rewrite Hscope in Hscope'. injection Hscope' as <-.
  rewrite Hdraws, Hnow, Han in Han'. injection Han' as <- <- <- <-.
  rewrite Hposts in Hw2, Hsum2.
  assert (sessionAfterNote E nt req (cacheOfFolders (posts w)) s1 meta body wl
          = s1) as Hsame.
  { unfold s1, sessionAfterNote. apply registerNote_idem. }
  rewrite Hsame in Hw2, Hsum2.
  assert (w2 = w') as ->.
  { rewrite Hw2. unfold afterNoteFile.
    rewrite Hw' at 1 2 3. simpl. unfold afterNoteFile, set_sessions, set_files,
      set_draws. simpl.
    rewrite !insert_insert_eq. rewrite Hw'. unfold afterNoteFile, set_sessions,
      set_files, set_draws. simpl. done. }
  rewrite Hrun2. f_equal. congruence.
Qed.

Lemma addNote_idempotent_witness :
  let E := datedEnv in
  let w := run E [OpCreateSession] Sample.emptyWorld in
  reachable_plain E w
  ∧ dated E Sample.noteA
  ∧ ∃ sum w',
      addNote E Sample.noteA w = (Ok sum, w')
      ∧ draws w' = draws w
      ∧ addNote E Sample.noteA w' = (Ok sum, w').
Proof.
  cbv zeta.
  assert (reachable_plain datedEnv (run datedEnv [OpCreateSession]
                                      Sample.emptyWorld)) as Hreach.
  { exists Sample.emptyWorld, [OpCreateSession]. by split. }
  assert (dated datedEnv Sample.noteA) as Hdated.
  { eexists. split; [reflexivity|]. split; [done|by eexists]. }
  split; [done|]. split; [done|].
  destruct (addNote datedEnv Sample.noteA
              (run datedEnv [OpCreateSession] Sample.emptyWorld))
    as [r w'] eqn:Hrun.
  assert (draws w' = draws (run datedEnv [OpCreateSession] Sample.emptyWorld))
    as Hdraws.
  { change w' with (r, w').2. rewrite <- Hrun. vm_compute. exact eq_refl. }
  destruct (addNote_bound_normalizeTags datedEnv Sample.noteA
              (run datedEnv [OpCreateSession] Sample.emptyWorld)
              (defaultSession Sample.sid "2024-05-06T07:08:09.000Z")
              Sample.server_normalizeTags)
    as (sum & w'' & Hok); [done|done|done|vm_compute; exact eq_refl|].
  rewrite Hrun in Hok. injection Hok as -> <-.
  exists sum, w'. split; [done|]. split; [done|].
  by apply (addNote_idempotent datedEnv
              (run datedEnv [OpCreateSession] Sample.emptyWorld)).
Defined.

(** ** Pending archives can be supplied *)





(** ** With [normalizeTags] bound to the function of server.js *)

(** What the dependency tracker does once [addNote] gets past the call of
    [normalizeTags]: the examples below run the module in the environment
    that binds the name to the function server.js defines. *)

(** Two notes that link to the same URL share one archive.  When, in a
    session the operations built (by uploads whose archive files land in
    the directory of their session), two calls of [addNote] return for two
    notes with different slugs whose bodies each hold an external link to
    the URL [u], then the session has an archive under the first ten
    characters of the digest of [u], it is the only entry whose URL is
    [u], and the slug of each of the two notes occurs exactly once in its
    [referencedBy]; if the session had no archive under that identifier
    before the two calls, the entry is unresolved and its [referencedBy]
    holds the two slugs only, in the order of the uploads. *)
Theorem shared_archive_entry (E : Env) (w0 w1 w2 : World) (sid : string)
    (reqA reqB : AddNote.t) (sumA sumB : Summary.t)
    (metaA metaB : Meta.t) (bodyA bodyB : string) (wA wB : World)
    (u textA textB : string) :
  reachable_plain E w0 →
  AddNote.sessionId reqA = sid →
  AddNote.sessionId reqB = sid →
  addNote E reqA w0 = (Ok sumA, w1) →
  addNote E reqB w1 = (Ok sumB, w2) →
  parseMarkdown E (AddNote.content reqA) (AddNote.filename reqA) w0
  = (Ok (metaA, bodyA), wA) →
  parseMarkdown E (AddNote.content reqB) (AddNote.filename reqB) w1
  = (Ok (metaB, bodyB), wB) →
  Meta.slug metaA ≠ Meta.slug metaB →
  {| ExternalLink.text := textA; ExternalLink.url := u |}
    ∈ extractExternalLinks bodyA →
  {| ExternalLink.text := textB; ExternalLink.url := u |}
    ∈ extractExternalLinks bodyB →
  ∃ s2 ar,
    sessions w2 !! sid = Some s2
    ∧ archiveIdFromUrl E u = Str.take 10 (md5_hex E u)
    ∧ Session.archives s2 !! archiveIdFromUrl E u = Some ar
    ∧ Archive.id ar = archiveIdFromUrl E u
    ∧ (∀ k ar', Session.archives s2 !! k = Some ar' → Archive.url ar' = u →
                k = archiveIdFromUrl E u)
    ∧ occurrences (Meta.slug metaA) (Archive.referencedBy ar) = 1
    ∧ occurrences (Meta.slug metaB) (Archive.referencedBy ar) = 1
    ∧ (∀ s0, sessions w0 !! sid = Some s0 →
             Session.archives s0 !! archiveIdFromUrl E u = None →
             Archive.resolved ar = false
             ∧ Archive.referencedBy ar = [Meta.slug metaA; Meta.slug metaB]).
Proof.
  intros Hreach%reachable_plain_reachable HsidA HsidB HrunA HrunB HparseA
    HparseB Hslug HinA HinB.
  assert (reachable E w1) as Hreach1.
  { replace w1 with (exec E (OpAddNote reqA) w0)
      by (simpl; by rewrite HrunA).
    by apply reachable_exec. }
  assert (reachable E w2) as Hreach2.
  { replace w2 with (exec E (OpAddNote reqB) w1)
      by (simpl; by rewrite HrunB).
    by apply reachable_exec. }
  destruct (addNote_ok_session E w0 sid reqA sumA w1 metaA bodyA wA
              (reachable_world_inv _ _ Hreach) HsidA HrunA HparseA)
    as (s0 & ntA & wlA & ftA & Hs0 & _ & Hw1 & _ & _).
  destruct (addNote_ok_session E w1 sid reqB sumB w2 metaB bodyB wB
              (reachable_world_inv _ _ Hreach1) HsidB HrunB HparseB)
    as (s1 & ntB & wlB & ftB & Hs1 & _ & Hw2 & _ & _).
  rewrite Hw1, lookup_insert_eq in Hs1. injection Hs1 as <-.
  set (i := archiveIdFromUrl E u).
  set (a := Meta.slug metaA) in *. set (b := Meta.slug metaB) in *.
  set (s1 := registerNote E s0 a _ bodyA ftA _ wlA _ _) in *.
  set (s2 := registerNote E s1 b _ bodyB ftB _ wlB _ _) in *.
  assert (sessions w2 !! sid = Some s2) as Hs2
    by (rewrite Hw2; apply lookup_insert_eq).
  destruct (reachable_world_inv _ _ Hreach2 sid s2 Hs2) as (_ & Hinv2 & _).
  set (m0 := Session.archives s0).
  set (m1 := archivesAfter E a (extractExternalLinks bodyA) m0).
  set (m2 := archivesAfter E b (extractExternalLinks bodyB) m1).
  assert (Session.archives s2 = m2) as Hm2.
  { unfold s2, s1. by rewrite !registerNote_eq. }
  destruct (archivesAfter_link E a _ m0 _ HinA) as (a1 & Ha1 & Hina1).
  simpl in Ha1. fold i m1 in Ha1.
  destruct (archivesAfter_link E b _ m1 _ HinB) as (a2 & Ha2 & Hinb2).
  simpl in Ha2. fold i m2 in Ha2.
  pose proof (archivesAfter_grow E b (extractExternalLinks bodyB) m1 i) as Hg2.
  fold m2 in Hg2. rewrite Ha1, Ha2 in Hg2.
  destruct Hg2 as (a2' & [= <-] & _ & _ & Hres2 & _ & _ & Href2).
  assert (a ∈ Archive.referencedBy a2) as Hina2.
  { destruct Href2 as [->|[_ ->]]; [done|]. apply elem_of_app. by left. }
  rewrite <- Hm2 in Ha2.
  exists s2, a2.
  split; [done|]. split; [done|]. split; [done|].
  split; [by destruct (inv_archive_id _ _ _ Hinv2 i a2 Ha2)|].
  split.
  { intros k ar' Hk Hu.
    destruct (inv_archive_id _ _ _ Hinv2 k ar' Hk) as [_ ->].
    by rewrite Hu. }
  pose proof (inv_archive_nodup _ _ _ Hinv2 i a2 Ha2) as Hnd.
  split; [by apply occurrences_NoDup|].
  split; [by apply occurrences_NoDup|].
  intros s0' Hs0' Hnone. rewrite Hs0 in Hs0'. injection Hs0' as <-.
  pose proof (archivesAfter_grow E a (extractExternalLinks bodyA) m0 i) as Hg1.
  fold m1 in Hg1. unfold m0 in Hg1. rewrite Hnone in Hg1.
  destruct (Hg1 a1 Ha1) as (_ & Hres1 & _ & _ & Href1).
  split; [congruence|].
  destruct Href2 as [Href2|[_ Href2]]; [|by rewrite Href2, Href1].
  exfalso. rewrite Href2, Href1 in Hinb2.
  apply list_elem_of_singleton in Hinb2. by apply Hslug.
Qed.


Lemma shared_archive_entry_witness :
  let E := Sample.serverEnv in
  let i := archiveIdFromUrl E "http://example.com" in
  reachable_plain E Sample.world0
  ∧ sessions Sample.worldAD !! Sample.sid = Some Sample.sessionAD
  ∧ ∃ ar, Session.archives Sample.sessionAD !! i = Some ar
          ∧ Archive.id ar = i
          ∧ occurrences "a" (Archive.referencedBy ar) = 1
          ∧ occurrences "d" (Archive.referencedBy ar) = 1
          ∧ Archive.resolved ar = false
          ∧ Archive.referencedBy ar = ["a"; "d"].
Proof.
  cbv zeta.
  assert (reachable_plain Sample.serverEnv Sample.world0) as Hreach
    by (by apply (sample_reachable_plain [OpCreateSession])).
  assert (sessions Sample.worldAD !! Sample.sid = Some Sample.sessionAD) as Hs
    by (vm_compute; exact eq_refl).
  split; [done|]. split; [done|].
  edestruct (shared_archive_entry Sample.serverEnv Sample.world0
               (exec Sample.serverEnv (OpAddNote Sample.noteA) Sample.world0)
               Sample.worldAD Sample.sid Sample.noteA Sample.noteD)
    as (s2 & ar & Hs2 & _ & Har & Hid & _ & HoccA & HoccD & Hfresh);
    [exact Hreach
    |reflexivity
    |reflexivity
    |vm_compute; exact eq_refl
    |vm_compute; exact eq_refl
    |vm_compute; exact eq_refl
    |vm_compute; exact eq_refl
    |
    |
    |
    |].
  4:{ rewrite Hs in Hs2. injection Hs2 as <-.
      exists ar. split; [exact Har|]. split; [exact Hid|].
      split; [exact HoccA|]. split; [exact HoccD|].
      eapply Hfresh; vm_compute; exact eq_refl. }
  - vm_compute. discriminate.
  - vm_compute. apply list_elem_of_here.
  - vm_compute. apply list_elem_of_here.
Defined.

(** A reference that is withdrawn stays pending.  After [A.md] is
    uploaded with a wiki-link to [B] and an external link, and then
    uploaded again without them, the session still awaits the note [b] and
    the archive of the page, both referenced by [a], while its only note
    depends on nothing: the session is not ready, and the pending entry is
    for a target no note references. *)
Theorem withdrawn_reference_stays_pending :
  let E := Sample.serverEnv in
  Sample.worldAA
  = run E [OpCreateSession; OpAddNote Sample.noteA; OpAddNote Sample.noteA2]
      Sample.emptyWorld
  ∧ sessions Sample.worldAA !! Sample.sid = Some Sample.sessionAA
  ∧ (∃ n, Session.notes Sample.sessionAA = {[ "a" := n ]}
          ∧ Note.dependencies n = Deps.empty)
  ∧ (∃ p, Session.pendingNotes Sample.sessionAA = {[ "b" := p ]}
          ∧ Pending.referencedBy p = ["a"])
  ∧ (∃ ar, Session.archives Sample.sessionAA
             !! archiveIdFromUrl E "http://example.com" = Some ar
           ∧ Archive.resolved ar = false
           ∧ Archive.referencedBy ar = ["a"])
  ∧ readyAfter E Sample.sid [] Sample.worldAA = Some false
  ∧ ¬ pending_iff_referenced (cacheOfFolders (posts Sample.worldAA))
        Sample.sessionAA.
Proof.
  cbv zeta. split; [reflexivity|].
  split; [vm_compute; exact eq_refl|].
  assert (∃ n, Session.notes Sample.sessionAA = {[ "a" := n ]}
               ∧ Note.dependencies n = Deps.empty) as Hnotes.
  { eexists. split; vm_compute; reflexivity. }
  split; [exact Hnotes|].
  split; [eexists; split; vm_compute; reflexivity|].
  split; [eexists; split; [vm_compute; reflexivity|split; reflexivity]|].
  split; [vm_compute; exact eq_refl|].
  intros H. destruct (H "b") as [H1 _].
  destruct H1 as ((k & n & Hn & Hdep) & _).
  { vm_compute. by eexists. }
  destruct Hnotes as (n0 & Hn0 & Hd0).
  rewrite Hn0 in Hn. apply lookup_singleton_Some in Hn as [_ <-].
  rewrite Hd0 in Hdep. simpl in Hdep. rewrite lookup_empty in Hdep.
  by destruct Hdep.
Qed.

(** A second entry document does not unmark the first.  After [A.md] and
    then [B.md] are uploaded, each as entry document, [mainSlug] names the
    second, and both notes have [isMain = true]. *)
Theorem second_entry_document_keeps_first :
  Sample.worldAB
  = run Sample.serverEnv
      [OpCreateSession; OpAddNote Sample.noteA; OpAddNote Sample.noteBmain]
      Sample.emptyWorld
  ∧ sessions Sample.worldAB !! Sample.sid = Some Sample.sessionAB
  ∧ Session.mainSlug Sample.sessionAB = Some "b"
  ∧ (∃ nA nB, Session.notes Sample.sessionAB !! "a" = Some nA
              ∧ Session.notes Sample.sessionAB !! "b" = Some nB
              ∧ Note.isMain nA = true ∧ Note.isMain nB = true)
  ∧ ¬ single_main Sample.sessionAB.
Proof.
  split; [reflexivity|].
  split; [vm_compute; exact eq_refl|].
  split; [vm_compute; exact eq_refl|].
  assert (∃ nA nB, Session.notes Sample.sessionAB !! "a" = Some nA
                   ∧ Session.notes Sample.sessionAB !! "b" = Some nB
                   ∧ Note.isMain nA = true ∧ Note.isMain nB = true)
    as (nA & nB & HnA & HnB & HmA & HmB).
  { eexists _, _. split; [vm_compute; reflexivity|].
    split; [vm_compute; reflexivity|]. split; reflexivity. }
  split; [by exists nA, nB|].
  intros [Hone _].
  by specialize (Hone "a" nA "b" nB HnA HnB HmA HmB).
Qed.

(** An archive uploaded before the note that references it is refused
    and has to be uploaded again.  In a session just created, [addArchive]
    for the example page fails with "Archive was not requested"; after
    [C.md], which links to the page, is uploaded, the session is not
    ready; uploading the archive after [C.md] makes it ready. *)
Theorem archive_before_its_note_is_refused :
  let E := Sample.serverEnv in
  Sample.world0 = run E [OpCreateSession] Sample.emptyWorld
  ∧ ExternalLink.url <$> extractExternalLinks (AddNote.content Sample.noteC)
    = [AddArchive.sourceUrl Sample.archiveExample]
  ∧ addArchive E Sample.archiveExample Sample.world0
    = (Throw (Error "Archive was not requested"), Sample.world0)
  ∧ readyAfter E Sample.sid
      [OpAddArchive Sample.archiveExample; OpAddNote Sample.noteC]
      Sample.world0 = Some false
  ∧ readyAfter E Sample.sid
      [OpAddNote Sample.noteC; OpAddArchive Sample.archiveExample]
      Sample.world0 = Some true.
Proof.
  cbv zeta. split; [reflexivity|].
  split; [vm_compute; exact eq_refl|].
  split; [vm_compute; exact eq_refl|].
  split; vm_compute; exact eq_refl.
Qed.
